(** * Parcelizator: geometry decoding and export pipeline

    A shallow embedding of the WKT decoder (WktParser.js), the GeoPackage
    binary encoder and exporter (GeopkgExporter.js), the KML exporter
    (KmlExporter.js) and the GeoJSON exporter (GeojsonExporter.js), with the
    properties their specification states about them.

    Conventions of the embedding:
    - a JavaScript Number is an IEEE 754 binary64 value, [spec_float] at
      precision 53 and maximal exponent 1024; [<] is [SFltb];
    - a byte is a [Z] in [0, 256); an [ArrayBuffer] is a [list Z];
    - a JavaScript string is a [string]; the decoder reads its characters
      as code units in the range U+0000..U+00FF, the exporters pass text
      through unchanged;
    - a thrown exception is the [Throw] branch of [result];
    - what the environment provides is a parameter of the function that
      uses it: [Number::toString], [JSON.stringify], the projection
      behind [coordinateTransformer.toWGS84], the file image sql.js
      exports, and the clock, whose reading is the argument [timestamp]. *)

From Stdlib Require Import ZArith Bool Lia String Ascii SpecFloat DecimalString.
From stdpp Require Import base list gmap strings.

Local Open Scope Z_scope.

(** ** Exceptions *)

Inductive exn : Type :=
  | Error (msg : string)
  | TypeError (msg : string)
  | RangeError (msg : string).

Inductive result (A : Type) : Type :=
  | Ok (a : A)
  | Throw (e : exn).
Arguments Ok {A} a.
Arguments Throw {A} e.

#[global] Instance result_ret : MRet result := fun A a => Ok a.
#[global] Instance result_bind : MBind result := fun A B k r =>
  match r with
  | Ok a => k a
  | Throw e => Throw e
  end.

(** [Array.prototype.forEach] with the variables the callback assigns to
    threaded as a state [St]. *)
Definition forEach {A St} (f : A -> St -> St) (l : list A) (s : St) : St :=
  fold_left (fun s a => f a s) l s.

(** The same, for a callback that may throw. *)
Fixpoint forEachM {A St} (f : A -> St -> result St) (l : list A) (s : St)
  : result St :=
  match l with
  | [] => Ok s
  | a :: l' => s' ← f a s; forEachM f l' s'
  end.

(** ** Numbers *)

Definition float : Type := spec_float.

Definition Infinity : float := S754_infinity false.
Definition NegInfinity : float := S754_infinity true.
Definition NaN : float := S754_nan.

(** The relational operator [x < y] on two Numbers. *)
Definition js_lt (x y : float) : bool := SFltb x y.

Definition is_nan (x : float) : bool :=
  match x with
  | S754_nan => true
  | _ => false
  end.

Definition sign_bit (s : bool) : Z := if s then 2 ^ 63 else 0.

(** The binary64 pattern of a Number: sign, 11 bits of biased exponent,
    52 bits of fraction.  A normal number [m * 2^e] has [2^52 <= m]; a
    subnormal one has a biased exponent of 0. *)
Definition float64_bits (x : float) : Z :=
  match x with
  | S754_zero s => sign_bit s
  | S754_infinity s => sign_bit s + 2047 * 2 ^ 52
  | S754_nan => 2047 * 2 ^ 52 + 2 ^ 51
  | S754_finite s m e =>
      sign_bit s +
      (if 2 ^ 52 <=? Z.pos m
       then (e + 1075) * 2 ^ 52 + (Z.pos m - 2 ^ 52)
       else Z.pos m)
  end.

(** ** Byte buffers and [DataView] *)

(** The [n] low bytes of [v], least significant first. *)
Fixpoint le_bytes (n : nat) (v : Z) : list Z :=
  match n with
  | O => []
  | S n' => (v mod 256) :: le_bytes n' (v / 256)
  end.

Definition uint32_le (v : Z) : list Z := le_bytes 4 (v mod 2 ^ 32).
Definition int32_le (v : Z) : list Z := le_bytes 4 (v mod 2 ^ 32).
Definition float64_le (x : float) : list Z := le_bytes 8 (float64_bits x).

Definition ArrayBuffer (size : nat) : list Z := replicate size 0.

(** Store [bs] at [offset]; a store that does not fit is a [RangeError]. *)
Definition store (offset : nat) (bs : list Z) (buf : list Z)
  : result (list Z) :=
  if (offset + length bs <=? length buf)%nat
  then Ok (take offset buf ++ bs ++ drop (offset + length bs) buf)
  else Throw (RangeError "Offset is outside the bounds of the DataView").

Definition setUint8 (offset : nat) (v : Z) (view : list Z) :=
  store offset [v mod 256] view.
Definition setUint32 (offset : nat) (v : Z) (view : list Z) :=
  store offset (uint32_le v) view.
Definition setInt32 (offset : nat) (v : Z) (view : list Z) :=
  store offset (int32_le v) view.
Definition setFloat64 (offset : nat) (x : float) (view : list Z) :=
  store offset (float64_le x) view.

(** [Uint8Array.prototype.set(source, offset)]. *)
Definition Uint8Array_set (source : list Z) (offset : nat) (target : list Z) :=
  store offset source target.

(** ** Geometry model *)

Record Coordinate : Type := { lat : float; lng : float }.

Definition Ring : Type := list Coordinate.

(** The object [{type, coordinates}] returned by [parseWkt]: for
    ["POLYGON"] the coordinates are rings, for ["MULTIPOLYGON"] they are
    polygons, each a list of rings. *)
Inductive Geometry : Type :=
  | Polygon (coordinates : list Ring)
  | MultiPolygon (coordinates : list (list Ring)).

Record Parcel : Type :=
  { id : string; wkt : string; geometry : Geometry; vertices : list Coordinate }.

Record ExportOptions : Type :=
  { includePolygons : bool; includePoints : bool }.

(** The encoder reads [coord.lng] and [coord.lat] from whatever the
    arrays it is handed contain.  On a coordinate object these are its
    fields; on an array (a ring handed in where a coordinate is expected)
    both properties are [undefined], which [<], [>] and [setFloat64]
    convert to NaN. *)
Class LngLat (A : Type) : Type :=
  { lng_of : A -> float; lat_of : A -> float }.

#[global] Instance Coordinate_LngLat : LngLat Coordinate :=
  {| lng_of := lng; lat_of := lat |}.

#[global] Instance Array_LngLat {B : Type} : LngLat (list B) :=
  {| lng_of := fun _ => NaN; lat_of := fun _ => NaN |}.

(** ** GeoPackage binary encoder (GeopkgExporter.js) *)

Module Gpkg.

Record Envelope : Type :=
  { minX : float; maxX : float; minY : float; maxY : float }.

(** The body of the inner [forEach] of the envelope loops: the four
    conditional assignments. *)
Definition update_bounds {A} `{LngLat A} (coord : A) (b : Envelope) : Envelope :=
  {| minX := if js_lt (lng_of coord) (minX b) then lng_of coord else minX b;
     maxX := if js_lt (maxX b) (lng_of coord) then lng_of coord else maxX b;
     minY := if js_lt (lat_of coord) (minY b) then lat_of coord else minY b;
     maxY := if js_lt (maxY b) (lat_of coord) then lat_of coord else maxY b |}.

Definition initial_bounds : Envelope :=
  {| minX := Infinity; maxX := NegInfinity;
     minY := Infinity; maxY := NegInfinity |}.

(** [rings.forEach(ring => ring.forEach(coord => ...))]. *)
Definition accumulate_bounds {A} `{LngLat A} (rings : list (list A))
    (b : Envelope) : Envelope :=
  forEach (fun ring => forEach update_bounds ring) rings b.

Definition createGpbHeader (srsId : Z) (envelope : option Envelope)
  : result (list Z) :=
  let hasEnvelope := match envelope with Some _ => true | None => false end in
  let envelopeType := if hasEnvelope then 1 else 0 in
  let flags := Z.lor (Z.shiftl envelopeType 1) 1 in
  let headerSize := if hasEnvelope then (8 + 32)%nat else 8%nat in
  let view := ArrayBuffer headerSize in
  view ← setUint8 0 71 view;
  view ← setUint8 1 80 view;
  view ← setUint8 2 0 view;
  view ← setUint8 3 flags view;
  view ← setInt32 4 srsId view;
  match envelope with
  | Some e =>
      view ← setFloat64 8 (minX e) view;
      view ← setFloat64 16 (maxX e) view;
      view ← setFloat64 24 (minY e) view;
      view ← setFloat64 32 (maxY e) view;
      mret view
  | None => mret view
  end.

Definition pointToWkb (lng lat : float) : result (list Z) :=
  let view := ArrayBuffer 21 in
  view ← setUint8 0 1 view;
  view ← setUint32 1 1 view;
  view ← setFloat64 5 lng view;
  view ← setFloat64 13 lat view;
  mret view.

(** The callback of the inner [ring.forEach]: the two stores of one
    coordinate, and the offset moved past them. *)
Definition write_coord {A} `{LngLat A} (coord : A) (st : list Z * nat)
  : result (list Z * nat) :=
  let '(view, offset) := st in
  view ← setFloat64 offset (lng_of coord) view;
  let offset := (offset + 8)%nat in
  view ← setFloat64 offset (lat_of coord) view;
  let offset := (offset + 8)%nat in
  mret (view, offset).

(** The callback of the outer [rings.forEach]. *)
Definition write_ring {A} `{LngLat A} (ring : list A) (st : list Z * nat)
  : result (list Z * nat) :=
  let '(view, offset) := st in
  view ← setUint32 offset (Z.of_nat (length ring)) view;
  let offset := (offset + 4)%nat in
  forEachM write_coord ring (view, offset).

Definition polygonToWkb {A} `{LngLat A} (rings : list (list A))
  : result (list Z) :=
  let totalSize :=
    forEach (fun ring totalSize => totalSize + 4 + length ring * 16)%nat
            rings 9%nat in
  let view := ArrayBuffer totalSize in
  let offset := 0%nat in
  view ← setUint8 offset 1 view;
  let offset := (offset + 1)%nat in
  view ← setUint32 offset 3 view;
  let offset := (offset + 4)%nat in
  view ← setUint32 offset (Z.of_nat (length rings)) view;
  let offset := (offset + 4)%nat in
  '(view, offset) ← forEachM write_ring rings (view, offset);
  mret view.

(** [header] followed by [wkb], copied into a fresh [Uint8Array] of the
    two lengths. *)
Definition concat_gpb (header wkb : list Z) : result (list Z) :=
  let gpb := ArrayBuffer (length header + length wkb) in
  gpb ← Uint8Array_set header 0 gpb;
  gpb ← Uint8Array_set wkb (length header) gpb;
  mret gpb.

Definition default_srsId : Z := 4326.

Definition createPointGpb (lng lat : float) (srsId : Z) : result (list Z) :=
  let envelope := {| minX := lng; maxX := lng; minY := lat; maxY := lat |} in
  header ← createGpbHeader srsId (Some envelope);
  wkb ← pointToWkb lng lat;
  concat_gpb header wkb.

Definition createPolygonGpb {A} `{LngLat A} (rings : list (list A)) (srsId : Z)
  : result (list Z) :=
  let envelope := accumulate_bounds rings initial_bounds in
  header ← createGpbHeader srsId (Some envelope);
  wkb ← polygonToWkb rings;
  concat_gpb header wkb.

End Gpkg.

(** ** Number formatting *)

Definition decimal_of_N (n : N) : string :=
  DecimalString.NilZero.string_of_uint (N.to_uint n).

Definition zeros (k : nat) : string :=
  Nat.iter k (String "0") EmptyString.

(** [Number.prototype.toFixed(8)].  The environment's [Number::toString]
    is only consulted for magnitudes of 10^21 and more. *)
Section ToFixed.
Variable Number_toString : float -> string.

(** Steps 10-11 of [toFixed] for the digits [f = 8]: [n] is printed with
    at least [f + 1] digits and a point before the last [f]. *)
Definition fixed_digits (n : N) : string :=
  let m := decimal_of_N n in
  let k := String.length m in
  let m := if decide (k <= 8)%nat then (zeros (8 + 1 - k) +:+ m)%string else m in
  let k := String.length m in
  (substring 0 (k - 8) m +:+ "." +:+ substring (k - 8) 8 m)%string.

(** The integer [n] for which [n / 10^8 - m * 2^e] is closest to zero,
    the larger one of two. *)
Definition nearest_1e8 (m : positive) (e : Z) : N :=
  Z.to_N (if 0 <=? e
          then Z.pos m * 2 ^ e * 10 ^ 8
          else (2 * Z.pos m * 10 ^ 8 + 2 ^ (- e)) / 2 ^ (- e + 1)).

(** [10^21 <= m * 2^e]. *)
Definition at_least_1e21 (m : positive) (e : Z) : bool :=
  if 0 <=? e then 10 ^ 21 <=? Z.pos m * 2 ^ e
  else 10 ^ 21 * 2 ^ (- e) <=? Z.pos m.

Definition toFixed8 (x : float) : string :=
  match x with
  | S754_nan | S754_infinity _ => Number_toString x
  | S754_zero _ => fixed_digits 0
  | S754_finite s m e =>
      ((if s then "-" else "") +:+
       (if at_least_1e21 m e
        then Number_toString (S754_finite false m e)
        else fixed_digits (nearest_1e8 m e)))%string
  end.
End ToFixed.

(** ** Vertex extraction (WktParser.js) *)

Module Vertices.
Section ExtractVertices.
Variable Number_toString : float -> string.

(** The state the closure [addVertex] works on: the array [vertices]
    and the [Set] of keys [seen], both created once per call. *)
Definition state : Type := (list Coordinate * gset string)%type.

Definition vertex_key (coord : Coordinate) : string :=
  (toFixed8 Number_toString (lat coord) +:+ "," +:+
   toFixed8 Number_toString (lng coord))%string.

Definition addVertex (coord : Coordinate) (st : state) : state :=
  let '(vertices, seen) := st in
  let key := vertex_key coord in
  if decide (key ∈ seen)
  then (vertices, seen)
  else (vertices ++ [coord], {[key]} ∪ seen).

(** [array.slice(0, -1)]. *)
Definition slice_0_m1 {A} (l : list A) : list A :=
  take (length l - 1) l.

(** [const outerRing = coordinates[0]; outerRing.slice(0, -1)
    .forEach(addVertex)]: reading [slice] off a missing first
    element throws. *)
Definition add_outer_ring (polygon : list Ring) (st : state) : result state :=
  match polygon !! 0%nat with
  | Some outerRing => Ok (forEach addVertex (slice_0_m1 outerRing) st)
  | None =>
      Throw (TypeError "Cannot read properties of undefined (reading 'slice')")
  end.

Definition extractVertices (geometry : Geometry) : result (list Coordinate) :=
  let st : state := ([], ∅) in
  match geometry with
  | Polygon coordinates =>
      st ← add_outer_ring coordinates st;
      mret (fst st)
  | MultiPolygon coordinates =>
      st ← forEachM add_outer_ring coordinates st;
      mret (fst st)
  end.
End ExtractVertices.
End Vertices.

(** ** GeoPackage exporter (GeopkgExporter.js) *)

Module GpkgExport.
Import Gpkg.

(** The calls made on the sql.js database, in order.  The three
    registry tables and their one seeded row are fixed text; the other
    statements carry the values bound or interpolated into them. *)
Inductive Statement : Type :=
  | CreateSpatialRefSys
  | InsertWgs84
  | CreateContents
  | CreateGeometryColumns
  | CreatePolygonsTable
  | CreatePointsTable
  | InsertPolygon (parcel_id : string) (geom : list Z)
  | InsertPoint (parcel_id : string) (point_index : Z) (geom : list Z)
  | InsertContents (table_name data_type identifier description : string)
      (last_change : string) (min_x min_y max_x max_y : float) (srs_id : Z)
  | InsertGeometryColumns (table_name column_name geometry_type_name : string)
      (srs_id z m : Z).

(** The database under construction and the four bounds of the layer
    being filled. *)
Definition layer_state : Type := (list Statement * Envelope)%type.

Definition run (stmt : Statement) (db : list Statement) : list Statement :=
  db ++ [stmt].

(** [const rings = parcel.geometry.coordinates]: whatever array the
    geometry carries, rings for a polygon and polygons for a
    multipolygon, goes to [createPolygonGpb] and to the bounds loop. *)
Definition insert_polygon (parcel : Parcel) (st : layer_state)
  : result layer_state :=
  let '(db, bounds) := st in
  match geometry parcel with
  | Polygon rings =>
      gpb ← createPolygonGpb rings default_srsId;
      let db := run (InsertPolygon (id parcel) gpb) db in
      mret (db, accumulate_bounds rings bounds)
  | MultiPolygon rings =>
      gpb ← createPolygonGpb rings default_srsId;
      let db := run (InsertPolygon (id parcel) gpb) db in
      mret (db, accumulate_bounds rings bounds)
  end.

(** [array.forEach((x, index) => ...)] for a callback that may throw. *)
Fixpoint forEachIndexM {A St} (f : A -> nat -> St -> result St)
    (index : nat) (l : list A) (s : St) : result St :=
  match l with
  | [] => Ok s
  | a :: l' => s' ← f a index s; forEachIndexM f (S index) l' s'
  end.

Definition insert_point (parcel : Parcel) (vertex : Coordinate) (index : nat)
    (st : layer_state) : result layer_state :=
  let '(db, bounds) := st in
  gpb ← createPointGpb (lng vertex) (lat vertex) default_srsId;
  let db := run (InsertPoint (id parcel) (Z.of_nat index + 1) gpb) db in
  mret (db, update_bounds vertex bounds).

Section Exporter.
(** [db.export()]: the file image sql.js produces for a database. *)
Variable db_export : list Statement -> list Z.

(** The statements of one export; [timestamp] is the value of
    [new Date().toISOString()]. *)
Definition gpkg_statements (parcels : list Parcel) (options : ExportOptions)
    (timestamp : string) : result (list Statement) :=
  let db := [] in
  let db := run CreateSpatialRefSys db in
  let db := run InsertWgs84 db in
  let db := run CreateContents db in
  let db := run CreateGeometryColumns db in
  db ←
    (if includePolygons options then
       let db := run CreatePolygonsTable db in
       '(db, b) ← forEachM insert_polygon parcels (db, initial_bounds);
       let db := run (InsertContents "polygons" "features" "polygons"
                        "Obrysy działek" timestamp
                        (minX b) (minY b) (maxX b) (maxY b) 4326) db in
       let db := run (InsertGeometryColumns "polygons" "geom" "POLYGON"
                        4326 0 0) db in
       mret db
     else mret db);
  db ←
    (if includePoints options then
       let db := run CreatePointsTable db in
       '(db, b) ←
         forEachM (fun parcel =>
           forEachIndexM (insert_point parcel) 0 (vertices parcel))
           parcels (db, initial_bounds);
       let db := run (InsertContents "points" "features" "points"
                        "Punkty graniczne działek" timestamp
                        (minX b) (minY b) (maxX b) (maxY b) 4326) db in
       let db := run (InsertGeometryColumns "points" "geom" "POINT"
                        4326 0 0) db in
       mret db
     else mret db);
  mret db.

Definition generateGpkgWithLayers (parcels : list Parcel)
    (options : ExportOptions) (timestamp : string) : result (list Z) :=
  db ← gpkg_statements parcels options timestamp;
  mret (db_export db).
End Exporter.

End GpkgExport.

(** ** GeoJSON exporter (GeojsonExporter.js) *)

Module Geojson.

(** A position [[lng, lat]]. *)
Definition Position : Type := (float * float)%type.

Inductive GeoJsonGeometry : Type :=
  | GjPolygon (coordinates : list (list Position))
  | GjMultiPolygon (coordinates : list (list (list Position)))
  | GjPoint (coordinates : Position).

(** The [properties] object of a feature; polygon features carry no
    [point_index]. *)
Record Properties : Type :=
  { parcel_id : string; point_index : option Z; layer : string }.

(** An object [{type: "Feature", properties, geometry}]. *)
Record Feature : Type :=
  { properties : Properties; feature_geometry : GeoJsonGeometry }.

(** An object [{type: "FeatureCollection", features}]. *)
Record FeatureCollection : Type := { features : list Feature }.

Definition position (coord : Coordinate) : Position := (lng coord, lat coord).

Definition geometryToGeojson (geometry : Geometry) : GeoJsonGeometry :=
  match geometry with
  | Polygon coordinates =>
      GjPolygon (map (fun ring => map position ring) coordinates)
  | MultiPolygon coordinates =>
      GjMultiPolygon
        (map (fun polygon => map (fun ring => map position ring) polygon)
             coordinates)
  end.

(** [features.push(x)]. *)
Definition push {A} (x : A) (array : list A) : list A := array ++ [x].

(** [array.forEach((x, index) => ...)]. *)
Fixpoint forEachIndex {A St} (f : A -> nat -> St -> St) (index : nat)
    (l : list A) (s : St) : St :=
  match l with
  | [] => s
  | a :: l' => forEachIndex f (S index) l' (f a index s)
  end.

Definition polygon_feature (parcel : Parcel) : Feature :=
  {| properties :=
       {| parcel_id := id parcel; point_index := None; layer := "polygons" |};
     feature_geometry := geometryToGeojson (geometry parcel) |}.

Definition point_feature (parcel : Parcel) (vertex : Coordinate) (index : nat)
  : Feature :=
  {| properties :=
       {| parcel_id := id parcel;
          point_index := Some (Z.of_nat index + 1);
          layer := "points" |};
     feature_geometry := GjPoint (lng vertex, lat vertex) |}.

(** The object handed to [JSON.stringify]. *)
Definition featureCollection (parcels : list Parcel) (options : ExportOptions)
  : FeatureCollection :=
  let features : list Feature := [] in
  let features :=
    if includePolygons options
    then forEach (fun parcel features =>
                    push (polygon_feature parcel) features) parcels features
    else features in
  let features :=
    if includePoints options
    then forEach (fun parcel features =>
                    forEachIndex (fun vertex index features =>
                                    push (point_feature parcel vertex index)
                                         features)
                                 0 (vertices parcel) features)
                 parcels features
    else features in
  {| features := features |}.

Section Generate.
(** [JSON.stringify(value, null, 2)]. *)
Variable JSON_stringify : FeatureCollection -> string.

Definition generateGeojsonWithLayers (parcels : list Parcel)
    (options : ExportOptions) : string :=
  JSON_stringify (featureCollection parcels options).
End Generate.

End Geojson.

(** ** KML exporter (KmlExporter.js) *)

Module Kml.

(** The double-quote character, U+0022. *)
Definition dq : string := String (ascii_of_nat 34) EmptyString.

Definition decimal_of_nat (n : nat) : string := decimal_of_N (N.of_nat n).

(** [str.replace(/c/g, replacement)] for a one-character pattern. *)
Fixpoint replace_char (c : ascii) (replacement : string) (str : string)
  : string :=
  match str with
  | EmptyString => EmptyString
  | String a rest =>
      if Ascii.eqb a c
      then replacement +:+ replace_char c replacement rest
      else String a (replace_char c replacement rest)
  end.

Definition escapeXml (str : string) : string :=
  match str with
  | EmptyString => EmptyString
  | _ =>
      replace_char "'" "&apos;"
        (replace_char (ascii_of_nat 34) "&quot;"
           (replace_char ">" "&gt;"
              (replace_char "<" "&lt;"
                 (replace_char "&" "&amp;" str))))
  end.

(** [array.join(separator)] on an array of strings. *)
Fixpoint join (separator : string) (parts : list string) : string :=
  match parts with
  | [] => EmptyString
  | [s] => s
  | s :: rest => s +:+ separator +:+ join separator rest
  end.

(** What [formatCoordinatesForKml] returns: one string per ring for a
    polygon, one array of those per polygon for a multipolygon. *)
Inductive Formatted : Type :=
  | FormattedRings (rings : list string)
  | FormattedPolygons (polygons : list (list string)).

(** The three template literals of [generatePolygonKml]. *)
Definition outer_boundary (outerRing : string) : string :=
  ("<Polygon>
        <outerBoundaryIs>
          <LinearRing>
            <coordinates>" +:+
   outerRing +:+
   "</coordinates>
          </LinearRing>
        </outerBoundaryIs>")%string.

Definition inner_boundary (ring : string) : string :=
  ("
        <innerBoundaryIs>
          <LinearRing>
            <coordinates>" +:+
   ring +:+
   "</coordinates>
          </LinearRing>
        </innerBoundaryIs>")%string.

Definition polygon_close : string :=
  "
      </Polygon>".

Definition generatePolygonKml (rings : list string) : string :=
  let outerRing := match rings with r :: _ => r | [] => "undefined" end in
  let innerRings := tail rings in
  let kml := outer_boundary outerRing in
  let kml :=
    forEach (fun ring kml => (kml +:+ inner_boundary ring)%string)
            innerRings kml in
  (kml +:+ polygon_close)%string.

Definition generateMultiPolygonKml (polygons : list (list string)) : string :=
  let kml := "<MultiGeometry>" in
  let kml :=
    forEach (fun polygon kml => (kml +:+ generatePolygonKml polygon)%string)
            polygons kml in
  (kml +:+ "</MultiGeometry>")%string.

(** The two arguments always agree: [formattedCoords] is
    [formatCoordinatesForKml geometry]. *)
Definition generateGeometryKml (geometry : Geometry) (formattedCoords : Formatted)
  : string :=
  match geometry, formattedCoords with
  | Polygon _, FormattedRings rings => generatePolygonKml rings
  | MultiPolygon _, FormattedPolygons polygons => generateMultiPolygonKml polygons
  | _, _ => EmptyString
  end.

(** The document template, up to the timestamp and after it. *)
Definition document_head (parcelCount : nat) : string :=
  ("<?xml version=" +:+
   dq +:+
   "1.0" +:+
   dq +:+
   " encoding=" +:+
   dq +:+
   "UTF-8" +:+
   dq +:+
   "?>
<kml xmlns=" +:+
   dq +:+
   "http://www.opengis.net/kml/2.2" +:+
   dq +:+
   ">
  <Document>
    <name>Działki (" +:+
   decimal_of_nat parcelCount +:+
   ")</name>
    <description>Eksport " +:+
   decimal_of_nat parcelCount +:+
   " działek - wygenerowano: ")%string.

Definition document_tail (folders : string) : string :=
  ("</description>
    <Style id=" +:+
   dq +:+
   "parcelStyle" +:+
   dq +:+
   ">
      <LineStyle>
        <color>ff2828c6</color>
        <width>3</width>
      </LineStyle>
      <PolyStyle>
        <color>4d2828c6</color>
        <fill>1</fill>
        <outline>1</outline>
      </PolyStyle>
    </Style>
    <Style id=" +:+
   dq +:+
   "pointStyle" +:+
   dq +:+
   ">
      <IconStyle>
        <color>ff0065e6</color>
        <scale>0.8</scale>
        <Icon>
          <href>http://maps.google.com/mapfiles/kml/shapes/placemark_circle.png</href>
        </Icon>
      </IconStyle>
      <LabelStyle>
        <scale>0.7</scale>
      </LabelStyle>
    </Style>" +:+
   folders +:+
   "
  </Document>
</kml>")%string.

Definition polygons_folder (parcelCount : nat) (polygonPlacemarks : string)
  : string :=
  ("
    <Folder>
      <name>Obrysy działek</name>
      <description>Obrysy " +:+
   decimal_of_nat parcelCount +:+
   " działek</description>" +:+
   polygonPlacemarks +:+
   "
    </Folder>")%string.

Definition points_folder (parcelCount : nat) (pointPlacemarks : string)
  : string :=
  ("
    <Folder>
      <name>Punkty graniczne</name>
      <description>Punkty graniczne " +:+
   decimal_of_nat parcelCount +:+
   " działek</description>" +:+
   pointPlacemarks +:+
   "
    </Folder>")%string.

(** [array.map((x, index) => ...)]. *)
Fixpoint mapIndex {A B} (f : A -> nat -> B) (index : nat) (l : list A)
  : list B :=
  match l with
  | [] => []
  | a :: l' => f a index :: mapIndex f (S index) l'
  end.

Section Generate.
(** [Number::toString], applied by the template literals to the
    coordinates. *)
Variable Number_toString : float -> string.

Definition formatRing (ring : Ring) : string :=
  join " " (map (fun coord =>
                   (Number_toString (lng coord) +:+ "," +:+
                    Number_toString (lat coord) +:+ ",0")%string) ring).

Definition formatCoordinatesForKml (geometry : Geometry) : Formatted :=
  match geometry with
  | Polygon coordinates => FormattedRings (map formatRing coordinates)
  | MultiPolygon coordinates =>
      FormattedPolygons (map (fun polygon => map formatRing polygon) coordinates)
  end.

Definition polygon_placemark (parcel : Parcel) : string :=
  let coordinates := formatCoordinatesForKml (geometry parcel) in
  ("
      <Placemark>
        <name>" +:+
   escapeXml (id parcel) +:+
   "</name>
        <description>Działka ewidencyjna: " +:+
   escapeXml (id parcel) +:+
   "</description>
        <styleUrl>#parcelStyle</styleUrl>
        " +:+
   generateGeometryKml (geometry parcel) coordinates +:+
   "
      </Placemark>")%string.

Definition point_placemark (parcel : Parcel) (point : Coordinate) (index : nat)
  : string :=
  ("
      <Placemark>
        <name>" +:+
   escapeXml (id parcel) +:+
   " - Pkt " +:+
   decimal_of_nat (index + 1) +:+
   "</name>
        <description>Działka: " +:+
   escapeXml (id parcel) +:+
   ", Punkt " +:+
   decimal_of_nat (index + 1) +:+
   "</description>
        <styleUrl>#pointStyle</styleUrl>
        <Point>
          <coordinates>" +:+
   Number_toString (lng point) +:+
   "," +:+
   Number_toString (lat point) +:+
   ",0</coordinates>
        </Point>
      </Placemark>")%string.

(** [timestamp] is the value of [new Date().toISOString()]. *)
Definition generateKmlWithLayers (parcels : list Parcel)
    (options : ExportOptions) (timestamp : string) : string :=
  let parcelCount := length parcels in
  let folders := EmptyString in
  let folders :=
    if includePolygons options then
      let polygonPlacemarks := join "" (map polygon_placemark parcels) in
      (folders +:+ polygons_folder parcelCount polygonPlacemarks)%string
    else folders in
  let folders :=
    if includePoints options then
      let pointPlacemarks :=
        join "" (flat_map (fun parcel =>
                             mapIndex (point_placemark parcel) 0
                                      (vertices parcel)) parcels) in
      (folders +:+ points_folder parcelCount pointPlacemarks)%string
    else folders in
  (document_head parcelCount +:+ timestamp +:+ document_tail folders)%string.
End Generate.

End Kml.

(** ** JavaScript values and strings used by the decoder *)

Inductive JsValue : Type :=
  | JsUndefined
  | JsNumber (x : float)
  | JsString (s : string).

(** [Number.isNaN(v)]: true only for the Number NaN; no conversion. *)
Definition Number_isNaN (v : JsValue) : bool :=
  match v with
  | JsNumber x => is_nan x
  | _ => false
  end.

Module Str.

Definition code (c : ascii) : N := N_of_ascii c.

(** White space and line terminators, the class [\s], within U+0000..U+00FF. *)
Definition is_space (c : ascii) : bool :=
  let n := code c in
  ((9 <=? n) && (n <=? 13) || (n =? 32) || (n =? 160))%N.

(** Line terminators within U+0000..U+00FF; [.] matches anything else. *)
Definition is_line_terminator (c : ascii) : bool :=
  let n := code c in ((n =? 10) || (n =? 13))%N.

Definition is_digit (c : ascii) : bool :=
  let n := code c in ((48 <=? n) && (n <=? 57))%N.

(** Upper-casing of the letters a-z.  No other character below U+0100
    maps to a letter A-Z, so prefix tests against an ASCII keyword and
    case-insensitive matches of ASCII pattern characters are exact. *)
Definition upper (c : ascii) : ascii :=
  let n := code c in
  if ((97 <=? n) && (n <=? 122))%N then ascii_of_N (n - 32) else c.

Fixpoint toUpperCase (s : string) : string :=
  match s with
  | EmptyString => EmptyString
  | String c s' => String (upper c) (toUpperCase s')
  end.

Fixpoint startsWith (s searchString : string) : bool :=
  match searchString, s with
  | EmptyString, _ => true
  | String k ks, String c cs => Ascii.eqb c k && startsWith cs ks
  | String _ _, EmptyString => false
  end.

Fixpoint trimStart (s : string) : string :=
  match s with
  | String c s' => if is_space c then trimStart s' else s
  | EmptyString => EmptyString
  end.

Fixpoint trimEnd (s : string) : string :=
  match s with
  | EmptyString => EmptyString
  | String c s' =>
      match trimEnd s' with
      | EmptyString => if is_space c then EmptyString else String c EmptyString
      | t => String c t
      end
  end.

Definition trim (s : string) : string := trimEnd (trimStart s).

(** [s.replaceAll(/[...]/g, "")] for a character class. *)
Fixpoint remove_all (class : ascii -> bool) (s : string) : string :=
  match s with
  | EmptyString => EmptyString
  | String c s' =>
      if class c then remove_all class s' else String c (remove_all class s')
  end.

End Str.

(** ** Regular expressions

    The fragment of ECMAScript patterns WktParser.js is written in:
    single characters and classes, greedy [*] and [+] over a class,
    concatenation and one capture group, matched by backtracking. *)

Module Regex.
Import Str.

Inductive pattern : Type :=
  | Class (p : ascii -> bool)
  | Star (p : ascii -> bool)
  | Plus (p : ascii -> bool)
  | Seq (r1 r2 : pattern)
  | Group (r : pattern).

Section Matcher.
Context {R : Type}.

(** Greedy iteration: take as many characters as possible, give them
    back one at a time while the continuation fails. *)
Fixpoint star (p : ascii -> bool) (s : string) (k : string -> option R)
  : option R :=
  match s with
  | String c s' =>
      if p c
      then match star p s' k with
           | Some r => Some r
           | None => k s
           end
      else k s
  | EmptyString => k s
  end.

(** [run r s cap k]: match [r] at the start of [s], then continue with
    the rest of the input and the text of the capture group. *)
Fixpoint run (r : pattern) (s : string) (cap : option string)
    (k : string -> option string -> option R) : option R :=
  match r with
  | Class p =>
      match s with
      | String c s' => if p c then k s' cap else None
      | EmptyString => None
      end
  | Star p => star p s (fun s' => k s' cap)
  | Plus p =>
      match s with
      | String c s' => if p c then star p s' (fun s'' => k s'' cap) else None
      | EmptyString => None
      end
  | Seq r1 r2 => run r1 s cap (fun s' cap' => run r2 s' cap' k)
  | Group r' =>
      run r' s cap (fun s' _ =>
        k s' (Some (substring 0 (String.length s - String.length s') s)))
  end.
End Matcher.

(** A match anchored at the start of [s]: the input left after it and
    the capture. *)
Definition exec_at (r : pattern) (s : string) : option (string * option string) :=
  run r s None (fun s' cap => Some (s', cap)).

(** [s.match(r)], for a pattern without the [g] flag: the capture of the
    leftmost match. *)
Fixpoint search (r : pattern) (s : string) : option (option string) :=
  match exec_at r s with
  | Some (_, cap) => Some cap
  | None =>
      match s with
      | String _ s' => search r s'
      | EmptyString => None
      end
  end.

(** [s.replace(r, "")] for a pattern that starts with [^]. *)
Definition remove_prefix (r : pattern) (s : string) : string :=
  match exec_at r s with
  | Some (s', _) => s'
  | None => s
  end.

(** [s.split(r)]: the pieces between the successive leftmost matches of
    [r]; [skip] counts the characters of the current match still to be
    passed over, [piece] is the piece being collected. *)
Fixpoint split_from (r : pattern) (skip : nat) (piece : string) (s : string)
  : list string :=
  match s with
  | EmptyString => [piece]
  | String c s' =>
      match skip with
      | S n => split_from r n piece s'
      | O =>
          match exec_at r s with
          | Some (rest, _) =>
              match (String.length s - String.length rest)%nat with
              | S n => piece :: split_from r n EmptyString s'
              | O => split_from r 0 (piece +:+ String c EmptyString) s'
              end
          | None => split_from r 0 (piece +:+ String c EmptyString) s'
          end
      end
  end.

Definition split (r : pattern) (s : string) : list string :=
  split_from r 0 EmptyString s.

Definition char (c : ascii) : pattern := Class (Ascii.eqb c).

(** A literal under the [i] flag. *)
Definition char_i (c : ascii) : pattern :=
Class (fun a => Ascii.eqb (upper a) (upper c)).

Fixpoint literal_with (one : ascii -> pattern) (c : ascii) (s : string) : pattern :=
  match s with
  | EmptyString => one c
  | String c' s' => Seq (one c) (literal_with one c' s')
  end.

Definition literal (c : ascii) (s : string) : pattern := literal_with char c s.
Definition literal_i (c : ascii) (s : string) : pattern := literal_with char_i c s.

Definition space_star : pattern := Star is_space.
Definition dot_plus : pattern := Plus (fun c => negb (is_line_terminator c)).

End Regex.

(** ** [Number(string)] *)

Module NumberParse.
Import Str.

Definition prec : Z := 53.
Definition emax : Z := 1024.

(** The Number nearest to an integer, ties to even. *)
Definition Number_of_Z (z : Z) : float := binary_normalize prec emax z 0 false.

(** The Number nearest to [(-1)^neg * m * 10^k], ties to even. *)
Definition Number_of_decimal (neg : bool) (m : N) (k : Z) : float :=
  match m with
  | N0 => S754_zero neg
  | Npos p =>
      if 0 <=? k
      then binary_normalize prec emax
             ((if neg then -1 else 1) * (Z.pos p * 10 ^ k)) 0 false
      else
        let '(q, e, l) :=
          SFdiv_core_binary prec emax (Z.pos p) 0 (10 ^ (- k)) 0 in
        binary_round_aux prec emax neg q e l
  end.

(** The longest prefix of characters of a class, and the rest. *)
Fixpoint span (class : ascii -> bool) (s : string) : string * string :=
  match s with
  | String c s' =>
      if class c
      then let '(a, b) := span class s' in (String c a, b)
      else (EmptyString, s)
  | EmptyString => (EmptyString, EmptyString)
  end.

Definition digit_value (c : ascii) : option N :=
  let n := code c in
  if ((48 <=? n) && (n <=? 57))%N then Some (n - 48)%N
  else if ((97 <=? n) && (n <=? 102))%N then Some (n - 87)%N
  else if ((65 <=? n) && (n <=? 70))%N then Some (n - 55)%N
  else None.

Definition is_digit_of (radix : N) (c : ascii) : bool :=
  match digit_value c with
  | Some d => (d <? radix)%N
  | None => false
  end.

(** The value of a string of digits, most significant first. *)
Fixpoint digits_value (radix : N) (acc : N) (s : string) : N :=
  match s with
  | EmptyString => acc
  | String c s' =>
      digits_value radix
        (acc * radix + match digit_value c with Some d => d | None => 0 end)%N s'
  end.

(** [NonDecimalIntegerLiteral] after its two-character prefix. *)
Definition non_decimal (radix : N) (s : string) : float :=
  match span (is_digit_of radix) s with
  | (String _ _ as ds, EmptyString) =>
      Number_of_Z (Z.of_N (digits_value radix 0 ds))
  | _ => NaN
  end.

(** [ExponentPart], optional: the exponent, or [None] when the text is
    not an exponent part followed by the end of the string. *)
Definition exponent_part (s : string) : option Z :=
  match s with
  | EmptyString => Some 0
  | String c s' =>
      if Ascii.eqb (upper c) "E" then
        let '(neg, ds) :=
          match s' with
          | String "+" t => (false, t)
          | String "-" t => (true, t)
          | _ => (false, s')
          end in
        match span is_digit ds with
        | (String _ _ as e, EmptyString) =>
            let v := Z.of_N (digits_value 10 0 e) in
            Some (if neg then - v else v)
        | _ => None
        end
      else None
  end.

(** [StrUnsignedDecimalLiteral] under a sign. *)
Definition unsigned_decimal (neg : bool) (s : string) : float :=
  if String.eqb s "Infinity" then S754_infinity neg
  else
    let '(int_digits, rest) := span is_digit s in
    let '(frac_digits, rest) :=
      match rest with
      | String "." t => span is_digit t
      | _ => (EmptyString, rest)
      end in
    match int_digits, frac_digits with
    | EmptyString, EmptyString => NaN
    | _, _ =>
        match exponent_part rest with
        | Some e =>
            Number_of_decimal neg
              (digits_value 10 0 (int_digits +:+ frac_digits))
              (e - Z.of_nat (String.length frac_digits))
        | None => NaN
        end
    end.

(** [StringToNumber]. *)
Definition Number_of_string (s : string) : float :=
  match trim s with
  | EmptyString => S754_zero false
  | String "0" (String c t) as u =>
      if Ascii.eqb (upper c) "X" then non_decimal 16 t
      else if Ascii.eqb (upper c) "O" then non_decimal 8 t
      else if Ascii.eqb (upper c) "B" then non_decimal 2 t
      else unsigned_decimal false u
  | String "+" t => unsigned_decimal false t
  | String "-" t => unsigned_decimal true t
  | u => unsigned_decimal false u
  end.

End NumberParse.

(** ** WKT decoder (WktParser.js) *)

Module Wkt.
Import Str Regex NumberParse.

Inductive GeometryType : Type := POLYGON | MULTIPOLYGON.

(** [/^SRID=\d+;/i] *)
Definition sridPattern : pattern :=
  Seq (literal_i "S" "RID=") (Seq (Plus is_digit) (char ";")).

(** [/POLYGON\s*\(\((.+)\)\)/i] *)
Definition polygonPattern : pattern :=
  Seq (literal_i "P" "OLYGON")
    (Seq space_star (Seq (literal "(" "(") (Seq (Group dot_plus) (literal ")" ")")))).

(** [/MULTIPOLYGON\s*\(\(\((.+)\)\)\)/i] *)
Definition multiPolygonPattern : pattern :=
  Seq (literal_i "M" "ULTIPOLYGON")
    (Seq space_star
       (Seq (literal "(" "((") (Seq (Group dot_plus) (literal ")" "))")))).

(** [/\)\s*\)\s*,\s*\(\s*\(/] *)
Definition polygonSeparator : pattern :=
  Seq (char ")") (Seq space_star (Seq (char ")") (Seq space_star
    (Seq (char ",") (Seq space_star (Seq (char "(") (Seq space_star (char "(")))))))).

(** [/\)\s*,\s*\(/] *)
Definition ringSeparator : pattern :=
  Seq (char ")") (Seq space_star (Seq (char ",") (Seq space_star (char "(")))).

(** [/\s+/] *)
Definition spaces : pattern := Plus is_space.

(** [/[()]/] *)
Definition is_paren (c : ascii) : bool := Ascii.eqb c "(" || Ascii.eqb c ")".

Definition removeSridPrefix (wkt : string) : string :=
  trim (remove_prefix sridPattern wkt).

Definition detectGeometryType (wkt : string) : result GeometryType :=
  let upperWkt := toUpperCase wkt in
  if startsWith upperWkt "MULTIPOLYGON" then Ok MULTIPOLYGON
  else if startsWith upperWkt "POLYGON" then Ok POLYGON
  else Throw (Error "Unknown or unsupported WKT geometry type").

Section Parse.
(** [coordinateTransformer.toWGS84(x, y)], the projection behind
    Proj4js, applied to the two values destructured from the array
    of converted tokens. *)
Variable toWGS84 : JsValue -> JsValue -> result Coordinate.

(** The callback of [pairs.map]: [x] and [y] are the first two
    elements of the array of Numbers, [undefined] where the array is
    shorter. *)
Definition parse_pair (pair : string) : result Coordinate :=
  let numbers := map Number_of_string (split spaces (trim pair)) in
  let nth_value (i : nat) :=
    match numbers !! i with
    | Some v => JsNumber v
    | None => JsUndefined
    end in
  let x := nth_value 0%nat in
  let y := nth_value 1%nat in
  if Number_isNaN x || Number_isNaN y
  then Throw (TypeError ("Invalid coordinate pair: " +:+ pair))
  else toWGS84 x y.

Definition parseCoordinatePairs (coordinateString : string) : result Ring :=
  let cleaned := trim (remove_all is_paren coordinateString) in
  let pairs := split (char ",") cleaned in
  mapM parse_pair pairs.

Definition parseRings (ringContent : string) : result (list Ring) :=
  let ringStrings := split ringSeparator ringContent in
  mapM parseCoordinatePairs ringStrings.

Definition parsePolygon (wkt : string) : result Geometry :=
  match search polygonPattern wkt with
  | Some (Some content) =>
      rings ← parseRings content;
      mret (Polygon rings)
  | _ => Throw (Error "Invalid POLYGON WKT format")
  end.

Definition parseMultiPolygon (wkt : string) : result Geometry :=
  match search multiPolygonPattern wkt with
  | Some (Some content) =>
      let polygonStrings := split polygonSeparator content in
      polygons ← mapM parseRings polygonStrings;
      mret (MultiPolygon polygons)
  | _ => Throw (Error "Invalid MULTIPOLYGON WKT format")
  end.

Definition parseWkt (wktString : JsValue) : result Geometry :=
  match wktString with
  | JsString (String _ _ as wkt) =>
      let cleanedWkt := removeSridPrefix wkt in
      geometryType ← detectGeometryType cleanedWkt;
      match geometryType with
      | POLYGON => parsePolygon cleanedWkt
      | MULTIPOLYGON => parseMultiPolygon cleanedWkt
      end
  | _ => Throw (Error "Invalid WKT: input must be a non-empty string")
  end.
End Parse.

(** The projection stub of the decoder's test:
    [(x, y) -> {lat: y / 100000, lng: x / 100000}]; dividing [undefined]
    gives NaN. *)
Definition ToNumber (v : JsValue) : float :=
  match v with
  | JsUndefined => NaN
  | JsNumber x => x
  | JsString s => Number_of_string s
  end.

Definition js_div (x y : float) : float := SFdiv prec emax x y.

Definition projection_stub (x y : JsValue) : result Coordinate :=
  Ok {| lat := js_div (ToNumber y) (Number_of_Z 100000);
        lng := js_div (ToNumber x) (Number_of_Z 100000) |}.

End Wkt.

(** ** The single-layer points exporter (GeopkgExporter.js) *)

Module GpkgLegacy.
Import Gpkg GpkgExport.

Section Exporter.
Variable db_export : list Statement -> list Z.

(** The statements of [generatePointsGpkg]; [timestamp] is the value of
    [new Date().toISOString()], taken here after the rows are written. *)
Definition points_statements (parcels : list Parcel) (timestamp : string)
  : result (list Statement) :=
  let db := [] in
  let db := run CreateSpatialRefSys db in
  let db := run InsertWgs84 db in
  let db := run CreateContents db in
  let db := run CreateGeometryColumns db in
  let db := run CreatePointsTable db in
  '(db, b) ←
    forEachM (fun parcel =>
      forEachIndexM (insert_point parcel) 0 (vertices parcel))
      parcels (db, initial_bounds);
  let db := run (InsertContents "points" "features" "points"
                   "Punkty graniczne działek" timestamp
                   (minX b) (minY b) (maxX b) (maxY b) 4326) db in
  let db := run (InsertGeometryColumns "points" "geom" "POINT" 4326 0 0) db in
  mret db.

Definition generatePointsGpkg (parcels : list Parcel) (timestamp : string)
  : result (list Z) :=
  db ← points_statements parcels timestamp;
  mret (db_export db).
End Exporter.

End GpkgLegacy.

(** ** The single-layer KML generators (KmlExporter.js) *)

Module KmlLegacy.
Import Kml.

(** The document template of [generatePolygonsKml], up to the timestamp
    and after it. *)
Definition polygons_head (parcelCount : nat) : string :=
  ("<?xml version=" +:+
   dq +:+
   "1.0" +:+
   dq +:+
   " encoding=" +:+
   dq +:+
   "UTF-8" +:+
   dq +:+
   "?>
<kml xmlns=" +:+
   dq +:+
   "http://www.opengis.net/kml/2.2" +:+
   dq +:+
   ">
  <Document>
    <name>Działki (" +:+
   decimal_of_nat parcelCount +:+
   ")</name>
    <description>Eksport " +:+
   decimal_of_nat parcelCount +:+
   " działek - wygenerowano: ")%string.

Definition polygons_tail (placemarks : string) : string :=
  ("</description>
    <Style id=" +:+
   dq +:+
   "parcelStyle" +:+
   dq +:+
   ">
      <LineStyle>
        <color>ff2828c6</color>
        <width>3</width>
      </LineStyle>
      <PolyStyle>
        <color>4d2828c6</color>
        <fill>1</fill>
        <outline>1</outline>
      </PolyStyle>
    </Style>" +:+
   placemarks +:+
   "
  </Document>
</kml>")%string.

(** The document template of [generatePointsKml]. *)
Definition points_head (parcelCount : nat) : string :=
  ("<?xml version=" +:+
   dq +:+
   "1.0" +:+
   dq +:+
   " encoding=" +:+
   dq +:+
   "UTF-8" +:+
   dq +:+
   "?>
<kml xmlns=" +:+
   dq +:+
   "http://www.opengis.net/kml/2.2" +:+
   dq +:+
   ">
  <Document>
    <name>Punkty graniczne (" +:+
   decimal_of_nat parcelCount +:+
   " działek)</name>
    <description>Punkty graniczne " +:+
   decimal_of_nat parcelCount +:+
   " działek - wygenerowano: ")%string.

Definition points_tail (placemarks : string) : string :=
  ("</description>
    <Style id=" +:+
   dq +:+
   "pointStyle" +:+
   dq +:+
   ">
      <IconStyle>
        <color>ff0065e6</color>
        <scale>0.8</scale>
        <Icon>
          <href>http://maps.google.com/mapfiles/kml/shapes/placemark_circle.png</href>
        </Icon>
      </IconStyle>
      <LabelStyle>
        <scale>0.7</scale>
      </LabelStyle>
    </Style>" +:+
   placemarks +:+
   "
  </Document>
</kml>")%string.

Section Generate.
Variable Number_toString : float -> string.

Definition parcel_placemark (parcel : Parcel) : string :=
  let coordinates := formatCoordinatesForKml Number_toString (geometry parcel) in
  ("
    <Placemark>
      <name>" +:+
   escapeXml (id parcel) +:+
   "</name>
      <description>Działka ewidencyjna: " +:+
   escapeXml (id parcel) +:+
   "</description>
      <styleUrl>#parcelStyle</styleUrl>
      " +:+
   generateGeometryKml (geometry parcel) coordinates +:+
   "
    </Placemark>")%string.

Definition vertex_placemark (parcel : Parcel) (point : Coordinate) (index : nat)
  : string :=
  ("
    <Placemark>
      <name>" +:+
   escapeXml (id parcel) +:+
   " - Pkt " +:+
   decimal_of_nat (index + 1) +:+
   "</name>
      <description>Działka: " +:+
   escapeXml (id parcel) +:+
   ", Punkt " +:+
   decimal_of_nat (index + 1) +:+
   "</description>
      <styleUrl>#pointStyle</styleUrl>
      <Point>
        <coordinates>" +:+
   Number_toString (lng point) +:+
   "," +:+
   Number_toString (lat point) +:+
   ",0</coordinates>
      </Point>
    </Placemark>")%string.

(** [timestamp] is the value of [new Date().toISOString()]. *)
Definition generatePolygonsKml (parcels : list Parcel) (timestamp : string)
  : string :=
  let parcelCount := length parcels in
  let placemarks := join "" (map parcel_placemark parcels) in
  (polygons_head parcelCount +:+ timestamp +:+ polygons_tail placemarks)%string.

Definition generatePointsKml (parcels : list Parcel) (timestamp : string)
  : string :=
  let parcelCount := length parcels in
  let placemarks :=
    join "" (flat_map (fun parcel =>
                         mapIndex (vertex_placemark parcel) 0 (vertices parcel))
                      parcels) in
  (points_head parcelCount +:+ timestamp +:+ points_tail placemarks)%string.
End Generate.

End KmlLegacy.

(** ** The ULDK response (UldkService.js) *)

Module Uldk.
Import Str.

(** The object [{wkt, id}] returned for a parcel. *)
Record ParcelResult : Type := { wkt : string; id : string }.

(** The line feed, U+000A. *)
Definition line_feed : ascii := ascii_of_nat 10.

(** [s.lastIndexOf(c)] for a search string of one character: the index
    of its last occurrence, [-1] when there is none. *)
Fixpoint lastIndexOf (c : ascii) (s : string) : Z :=
  match s with
  | EmptyString => -1
  | String a s' =>
      let i := lastIndexOf c s' in
      if i =? -1 then (if Ascii.eqb a c then 0 else -1) else i + 1
  end.

(** [s.substring(start, end)]: both indices are clamped to the string
    and swapped when out of order; without [end] the rest is taken. *)
Definition substring (start : Z) (end_index : option Z) (s : string) : string :=
  let len := Z.of_nat (String.length s) in
  let clamp v := Z.max 0 (Z.min v len) in
  let a := clamp start in
  let b := match end_index with Some e => clamp e | None => len end in
  String.substring (Z.to_nat (Z.min a b)) (Z.to_nat (Z.max a b - Z.min a b)) s.

Section Service.
(** The text an [Error] gets as message from the member of
    [Object.prototype] of a given name, for the names that have one:
    the table of messages is an object literal, and reading it at a key
    it does not own reaches its prototype. *)
Variable Object_prototype : string -> option string.

Definition _getErrorMessage (status data : string) : string :=
  let errorMessages (key : string) : option string :=
    if String.eqb key "-1"
    then Some "Nie znaleziono działki o podanych parametrach"%string
    else if String.eqb key "1"
    then Some "Błąd w zapytaniu do serwera ULDK"%string
    else Object_prototype key in
  match errorMessages status with
  | Some message => message
  | None =>
      match data with
      | EmptyString => "Nieznany błąd serwera ULDK"
      | _ => data
      end
  end.

Definition _parseResponse (responseText : string) : result ParcelResult :=
  let lines := Regex.split (Regex.char line_feed) (trim responseText) in
  if (length lines <? 2)%nat
  then Throw (Error "Nieprawidłowa odpowiedź z serwera ULDK")
  else
    let status := trim (hd EmptyString lines) in
    let data := trim (Kml.join (String line_feed EmptyString) (tail lines)) in
    if negb (String.eqb status "0")
    then Throw (Error (_getErrorMessage status data))
    else
      let separatorIndex := lastIndexOf "|" data in
      if separatorIndex =? -1
      then Throw (Error "Nieprawidłowy format danych z ULDK")
      else Ok {| wkt := substring 0 (Some separatorIndex) data;
                 id := substring (separatorIndex + 1) None data |}.
End Service.

End Uldk.

(** ** The parcel list and the coordinate queue (app.js) *)

Module App.
Import Wkt Vertices.

(** An element of the queue, [{id, lat, lng, label}]. *)
Record QueueItem : Type :=
  { queue_id : Z; queue_lat : float; queue_lng : float; label : string }.

(** The fields of the application object that its methods read and
    assign; the page, the map and the analytics service are outside. *)
Record state : Type :=
  { _parcels : list Parcel;
    _coordinateQueue : list QueueItem;
    _nextQueueId : Z;
    _showingPolygons : bool;
    _showingPoints : bool }.

Definition initial : state :=
  {| _parcels := []; _coordinateQueue := []; _nextQueueId := 1;
     _showingPolygons := true; _showingPoints := false |}.

(** [this._nextQueueId++] on a Number that holds an integer from 1 to
    [2^53]: the sum is exact up to [2^53], where adding 1 rounds back to
    [2^53]. *)
Definition increment (n : Z) : Z := Z.min (n + 1) (2 ^ 53).

Definition geometry_error : exn := Error "Błąd przetwarzania geometrii działki".

(** The [catch] of [_addParcelToList]: whatever was thrown, the same
    error is thrown on. *)
Definition caught (r : result unit) : result unit :=
  match r with
  | Ok _ => Ok tt
  | Throw _ => Throw geometry_error
  end.

Section Methods.
Variable toWGS84 : JsValue -> JsValue -> result Coordinate.
Variable Number_toString : float -> string.

(** [ui] is the outcome of the calls made on the page, the map and the
    analytics service in the course of the call, any of which may
    throw; they come after the list is updated. *)
Definition _addParcelToList (found : Uldk.ParcelResult) (ui : result unit)
    (st : state) : state * result unit :=
  if existsb (fun p => String.eqb (id p) (Uldk.id found)) (_parcels st)
  then (st, caught ui)
  else
    match
      (geometry ← parseWkt toWGS84 (JsString (Uldk.wkt found));
       vertices ← extractVertices Number_toString geometry;
       mret (geometry, vertices))
    with
    | Throw _ => (st, Throw geometry_error)
    | Ok (geometry, vertices) =>
        let parcel := {| id := Uldk.id found; wkt := Uldk.wkt found;
                         geometry := geometry; vertices := vertices |} in
        ({| _parcels := _parcels st ++ [parcel];
            _coordinateQueue := _coordinateQueue st;
            _nextQueueId := _nextQueueId st;
            _showingPolygons := _showingPolygons st;
            _showingPoints := _showingPoints st |}, caught ui)
    end.

Definition _removeParcel (parcelId : string) (st : state) : state :=
  {| _parcels := filter (fun p => id p <> parcelId) (_parcels st);
     _coordinateQueue := _coordinateQueue st;
     _nextQueueId := _nextQueueId st;
     _showingPolygons := _showingPolygons st;
     _showingPoints := _showingPoints st |}.

Definition _clearAllParcels (st : state) : state :=
  {| _parcels := [];
     _coordinateQueue := _coordinateQueue st;
     _nextQueueId := _nextQueueId st;
     _showingPolygons := _showingPolygons st;
     _showingPoints := _showingPoints st |}.

(** [marker] is the outcome of [mapService.addQueueMarker], called
    between the increment and the [unshift]. *)
Definition _addToQueue (lat lng : float) (label : string)
    (marker : result unit) (st : state) : state :=
  let id := _nextQueueId st in
  let next := increment id in
  match marker with
  | Throw _ =>
      {| _parcels := _parcels st;
         _coordinateQueue := _coordinateQueue st;
         _nextQueueId := next;
         _showingPolygons := _showingPolygons st;
         _showingPoints := _showingPoints st |}
  | Ok _ =>
      {| _parcels := _parcels st;
         _coordinateQueue :=
           {| queue_id := id; queue_lat := lat; queue_lng := lng;
              label := label |} :: _coordinateQueue st;
         _nextQueueId := next;
         _showingPolygons := _showingPolygons st;
         _showingPoints := _showingPoints st |}
  end.

(** [id] is the Number read off the page with [parseInt]; were it
    [NaN] it would compare unequal to every item, as an id that no item
    has does. *)
Definition _removeFromQueue (id : Z) (st : state) : state :=
  {| _parcels := _parcels st;
     _coordinateQueue :=
       filter (fun item => queue_id item <> id) (_coordinateQueue st);
     _nextQueueId := _nextQueueId st;
     _showingPolygons := _showingPolygons st;
     _showingPoints := _showingPoints st |}.

Definition _clearQueue (st : state) : state :=
  {| _parcels := _parcels st;
     _coordinateQueue := [];
     _nextQueueId := _nextQueueId st;
     _showingPolygons := _showingPolygons st;
     _showingPoints := _showingPoints st |}.

Definition _togglePolygons (st : state) : state :=
  match _parcels st with
  | [] => st
  | _ =>
      {| _parcels := _parcels st;
         _coordinateQueue := _coordinateQueue st;
         _nextQueueId := _nextQueueId st;
         _showingPolygons := negb (_showingPolygons st);
         _showingPoints := _showingPoints st |}
  end.

Definition _togglePoints (st : state) : state :=
  match _parcels st with
  | [] => st
  | _ =>
      {| _parcels := _parcels st;
         _coordinateQueue := _coordinateQueue st;
         _nextQueueId := _nextQueueId st;
         _showingPolygons := _showingPolygons st;
         _showingPoints := negb (_showingPoints st) |}
  end.

(** The loop of [_processQueue] over the settled requests and the call
    of [_clearQueue] after it: a request that found a parcel is [Some]
    of the ULDK result, any other one is [None]; with each goes the
    outcome of the page and map calls of [_addParcelToList].  The three
    components are the state, [successCount] and [errorCount]. *)
Definition add_settled (outcome : option Uldk.ParcelResult * result unit)
    (acc : state * Z * Z) : state * Z * Z :=
  let '(st, successCount, errorCount) := acc in
  match outcome with
  | (Some found, ui) =>
      match _addParcelToList found ui st with
      | (st', Ok _) => (st', successCount + 1, errorCount)
      | (st', Throw _) => (st', successCount, errorCount + 1)
      end
  | (None, _) => (st, successCount, errorCount + 1)
  end.

Definition _processQueue_settled
    (results : list (option Uldk.ParcelResult * result unit)) (st : state)
  : state * Z * Z :=
  let '(st, successCount, errorCount) := forEach add_settled results (st, 0, 0) in
  (_clearQueue st, successCount, errorCount).
End Methods.

End App.

(** ** The search input (SearchService.js, config.js) *)

Module Search.
Import Str NumberParse.

(** The values of the [SearchType] enumeration. *)
Inductive SearchType : Type := COORDINATES | PARCEL_ID | ADDRESS.

(** Regular expressions, as far as the two patterns of
    [CONFIG.PATTERNS] use them.  Both start with [^] and carry no flag,
    so a match can only start at the first character. *)
Inductive regex : Type :=
  | Class (p : ascii -> bool)
  | Many (p : ascii -> bool)
  | Seq (r1 r2 : regex)
  | Optional (r : regex)
  | Group (index : nat) (r : regex)
  | End.

(** The backtracking matcher: [Many] and [Optional] are greedy and give
    back what they took when the rest of the pattern fails; [captures]
    holds the text of each group, [None] for a group that took no part
    in the match. *)
Fixpoint run {R} (r : regex) (s : string) (captures : list (option string))
    (k : string -> list (option string) -> option R) : option R :=
  match r with
  | Class p =>
      match s with
      | String c s' => if p c then k s' captures else None
      | EmptyString => None
      end
  | Many p => Regex.star p s (fun s' => k s' captures)
  | Seq r1 r2 => run r1 s captures (fun s' captures' => run r2 s' captures' k)
  | Optional r' =>
      match run r' s captures k with
      | Some result => Some result
      | None => k s captures
      end
  | Group index r' =>
      run r' s captures (fun s' captures' =>
        k s' (<[index := Some (substring 0 (String.length s - String.length s') s)]>
                captures'))
  | End =>
      match s with
      | EmptyString => k s captures
      | String _ _ => None
      end
  end.

(** [s.match(r)] for a pattern of [groups] groups: the captures of the
    match, or [None] for [null]. *)
Definition exec (r : regex) (groups : nat) (s : string)
  : option (list (option string)) :=
  run r s (replicate groups None) (fun _ captures => Some captures).

(** [r.test(s)]. *)
Definition test (r : regex) (groups : nat) (s : string) : bool :=
  match exec r groups s with
  | Some _ => true
  | None => false
  end.

Definition char (c : ascii) : regex := Class (Ascii.eqb c).

(** [\d+] *)
Definition digits : regex := Seq (Class is_digit) (Many is_digit).

(** [[.,]] and [[,;\s]] *)
Definition decimal_mark (c : ascii) : bool := Ascii.eqb c "." || Ascii.eqb c ",".
Definition separator (c : ascii) : bool :=
  Ascii.eqb c "," || Ascii.eqb c ";" || is_space c.

(** [-?\d+[.,]\d+] *)
Definition decimal_number : regex :=
  Seq (Optional (char "-")) (Seq digits (Seq (Class decimal_mark) digits)).

(** [/^\s*(-?\d+[.,]\d+)\s*[,;\s]\s*(-?\d+[.,]\d+)\s*$/] *)
Definition COORDINATES_PATTERN : regex :=
  Seq (Many is_space)
    (Seq (Group 0 decimal_number)
       (Seq (Many is_space)
          (Seq (Class separator)
             (Seq (Many is_space)
                (Seq (Group 1 decimal_number) (Seq (Many is_space) End)))))).

(** [/^\d{6}_\d\.\d{4}\.\d+([/]\d+)?$/] *)
Definition PARCEL_ID_PATTERN : regex :=
  let d := Class is_digit in
  Seq d (Seq d (Seq d (Seq d (Seq d (Seq d
    (Seq (char "_")
       (Seq d
          (Seq (char ".")
             (Seq d (Seq d (Seq d (Seq d
                (Seq (char ".")
                   (Seq digits
                      (Seq (Optional (Group 0 (Seq (char "/") digits)))
                         End))))))))))))))).

Definition detectType (query : JsValue) : SearchType :=
  match query with
  | JsString (String _ _ as text) =>
      let trimmed := trim text in
      if test COORDINATES_PATTERN 2 trimmed then COORDINATES
      else if test PARCEL_ID_PATTERN 1 trimmed then PARCEL_ID
      else ADDRESS
  | _ => ADDRESS
  end.

(** [s.replace(c, replacement)] for a search string of one character:
    the first occurrence only. *)
Fixpoint replace_first (c : ascii) (replacement : string) (s : string) : string :=
  match s with
  | EmptyString => EmptyString
  | String a s' =>
      if Ascii.eqb a c then replacement +:+ s'
      else String a (replace_first c replacement s')
  end.

(** The exponent of the longest [ExponentPart] at the start of [s],
    [0] when there is none. *)
Definition exponent_prefix (s : string) : Z :=
  match s with
  | String c s' =>
      if Ascii.eqb (upper c) "E" then
        let '(neg, ds) :=
          match s' with
          | String "+" t => (false, t)
          | String "-" t => (true, t)
          | _ => (false, s')
          end in
        match span is_digit ds with
        | (String _ _ as e, _) =>
            let v := Z.of_N (digits_value 10 0 e) in
            if neg then - v else v
        | _ => 0
        end
      else 0
  | EmptyString => 0
  end.

(** [parseFloat]: leading white space is passed over, then the longest
    prefix that is a decimal literal is converted; [NaN] when there is
    none. *)
Definition parseFloat (s : string) : float :=
  let t := trimStart s in
  let '(neg, u) :=
    match t with
    | String "+" u => (false, u)
    | String "-" u => (true, u)
    | _ => (false, t)
    end in
  if startsWith u "Infinity" then S754_infinity neg
  else
    let '(int_digits, rest) := span is_digit u in
    let '(frac_digits, rest) :=
      match rest with
      | String "." r => span is_digit r
      | _ => (EmptyString, rest)
      end in
    match int_digits, frac_digits with
    | EmptyString, EmptyString => NaN
    | _, _ =>
        Number_of_decimal neg
          (digits_value 10 0 (int_digits +:+ frac_digits))
          (exponent_prefix rest - Z.of_nat (String.length frac_digits))
    end.

(** [x >= 49 && x <= 55]; a comparison with [NaN] is false. *)
Definition is_polish_latitude (x : float) : bool :=
  SFleb (Number_of_Z 49) x && SFleb x (Number_of_Z 55).

(** [None] is [null].  The two groups take part in every match. *)
Definition parseCoordinates (query : string) : option Coordinate :=
  match exec COORDINATES_PATTERN 2 query with
  | None => None
  | Some captures =>
      let group (i : nat) : string :=
        match captures !! i with
        | Some (Some text) => text
        | _ => EmptyString
        end in
      let first := parseFloat (replace_first "," "." (group 0%nat)) in
      let second := parseFloat (replace_first "," "." (group 1%nat)) in
      let isFirstLat := is_polish_latitude first in
      let isSecondLat := is_polish_latitude second in
      if isFirstLat && negb isSecondLat
      then Some {| lat := first; lng := second |}
      else if isSecondLat && negb isFirstLat
      then Some {| lat := second; lng := first |}
      else Some {| lat := first; lng := second |}
  end.

End Search.

(** * Specification vocabulary *)

Module Layout.
Import Gpkg.

(** The envelope header as the format lays it out: magic, version, flag
    byte, SRS id, then the four bounds when an envelope is present. *)
Definition header_layout (srsId : Z) (envelope : option Envelope) : list Z :=
  [71; 80; 0; match envelope with Some _ => 3 | None => 1 end] ++ int32_le srsId ++
  match envelope with
  | Some e =>
      float64_le (minX e) ++ float64_le (maxX e) ++
      float64_le (minY e) ++ float64_le (maxY e)
  | None => []
  end.

Definition point_layout (lng lat : float) : list Z :=
  [1] ++ uint32_le 1 ++ float64_le lng ++ float64_le lat.

Definition coord_layout {A} `{LngLat A} (coord : A) : list Z :=
  float64_le (lng_of coord) ++ float64_le (lat_of coord).

Definition ring_layout {A} `{LngLat A} (ring : list A) : list Z :=
  uint32_le (Z.of_nat (length ring)) ++ flat_map coord_layout ring.

Definition polygon_layout {A} `{LngLat A} (rings : list (list A)) : list Z :=
  [1] ++ uint32_le 3 ++ uint32_le (Z.of_nat (length rings)) ++
  flat_map ring_layout rings.

(** The bytes the polygon payload takes after its nine fixed ones. *)
Definition rings_size {A} (rings : list (list A)) : nat :=
  sum_list (map (fun ring => 4 + length ring * 16)%nat rings).

(** The value of a little-endian byte string. *)
Fixpoint le_value (bs : list Z) : Z :=
  match bs with
  | [] => 0
  | b :: bs' => b + 256 * le_value bs'
  end.

(** [x <= y] on Numbers. *)
Definition float_le (x y : float) : Prop := SFleb x y = true.

(** [m] is the least element of [xs]: a lower bound that, when there is
    any element, is one of them. *)
Definition is_minimum (m : float) (xs : list float) : Prop :=
  Forall (fun x => float_le m x) xs /\ (xs <> [] -> In m xs).

Definition is_maximum (m : float) (xs : list float) : Prop :=
  Forall (fun x => float_le x m) xs /\ (xs <> [] -> In m xs).

(** One conditional assignment of the bounds loops, for a lower and for
    an upper bound. *)
Definition lower (x m : float) : float := if js_lt x m then x else m.
Definition upper (x m : float) : float := if js_lt m x then x else m.

Definition all_lng (rings : list Ring) : list float := map lng (concat rings).
Definition all_lat (rings : list Ring) : list float := map lat (concat rings).

Definition not_nan (x : float) : Prop := is_nan x = false.

Definition no_nan (coord : Coordinate) : Prop :=
  not_nan (lng coord) /\ not_nan (lat coord).

(** A square with a square hole, in whole degrees. *)
Definition degrees (x y : Z) : Coordinate :=
  {| lat := NumberParse.Number_of_Z y; lng := NumberParse.Number_of_Z x |}.

Definition square_with_hole : list Ring :=
  [ [degrees 0 0; degrees 0 4; degrees 4 4; degrees 4 0; degrees 0 0];
    [degrees 1 1; degrees 2 1; degrees 2 2; degrees 1 2; degrees 1 1] ].

(** The rings of a parcel whose geometry is a polygon. *)
Definition rings_of (parcel : Parcel) : list Ring :=
  match geometry parcel with
  | Polygon rings => rings
  | MultiPolygon _ => []
  end.

Definition is_polygon (parcel : Parcel) : Prop :=
  match geometry parcel with
  | Polygon _ => True
  | MultiPolygon _ => False
  end.

(** The blob of a polygon: the header with the envelope of all its
    rings, then the payload of all its rings. *)
Definition polygon_blob (rings : list Ring) : list Z :=
  header_layout 4326 (Some (accumulate_bounds rings initial_bounds))
  ++ polygon_layout rings.

(** The blob written for a parcel: [createPolygonGpb] applied to the
    [coordinates] array of its geometry, whatever that array holds. *)
Definition parcel_blob (parcel : Parcel) : list Z :=
  match geometry parcel with
  | Polygon rings => polygon_blob rings
  | MultiPolygon polygons =>
      header_layout 4326 (Some (accumulate_bounds polygons initial_bounds))
      ++ polygon_layout polygons
  end.

Definition parcel_bounds (parcel : Parcel) (b : Envelope) : Envelope :=
  match geometry parcel with
  | Polygon rings => accumulate_bounds rings b
  | MultiPolygon polygons => accumulate_bounds polygons b
  end.

Definition point_blob (vertex : Coordinate) : list Z :=
  header_layout 4326
    (Some {| minX := lng vertex; maxX := lng vertex;
             minY := lat vertex; maxY := lat vertex |})
  ++ point_layout (lng vertex) (lat vertex).

Definition polygon_rows (parcels : list Parcel) : list GpkgExport.Statement :=
  map (fun p => GpkgExport.InsertPolygon (id p) (parcel_blob p)) parcels.

Definition point_rows (parcels : list Parcel) : list GpkgExport.Statement :=
  flat_map (fun p =>
              imap (fun i v =>
                      GpkgExport.InsertPoint (id p) (Z.of_nat i + 1) (point_blob v))
                   (vertices p)) parcels.

(** The statements of the two layers. *)
Definition polygons_layer (parcels : list Parcel) (timestamp : string)
  : list GpkgExport.Statement :=
  let b := forEach parcel_bounds parcels initial_bounds in
  [GpkgExport.CreatePolygonsTable] ++ polygon_rows parcels ++
  [GpkgExport.InsertContents "polygons" "features" "polygons" "Obrysy działek"
     timestamp (minX b) (minY b) (maxX b) (maxY b) 4326;
   GpkgExport.InsertGeometryColumns "polygons" "geom" "POLYGON" 4326 0 0].

Definition points_layer (parcels : list Parcel) (timestamp : string)
  : list GpkgExport.Statement :=
  let b := forEach update_bounds (flat_map vertices parcels) initial_bounds in
  [GpkgExport.CreatePointsTable] ++ point_rows parcels ++
  [GpkgExport.InsertContents "points" "features" "points"
     "Punkty graniczne działek"
     timestamp (minX b) (minY b) (maxX b) (maxY b) 4326;
   GpkgExport.InsertGeometryColumns "points" "geom" "POINT" 4326 0 0].

(** A statement with its last-modified field replaced. *)
Definition with_last_change (t : string) (stmt : GpkgExport.Statement)
  : GpkgExport.Statement :=
  match stmt with
  | GpkgExport.InsertContents tn dt ident descr _ x0 y0 x1 y1 srs =>
      GpkgExport.InsertContents tn dt ident descr t x0 y0 x1 y1 srs
  | _ => stmt
  end.

Definition polygons_only : ExportOptions :=
  {| includePolygons := true; includePoints := false |}.

(** The four fixed statements every export starts with. *)
Definition registry_tables : list GpkgExport.Statement :=
  [GpkgExport.CreateSpatialRefSys; GpkgExport.InsertWgs84;
   GpkgExport.CreateContents; GpkgExport.CreateGeometryColumns].

End Layout.

Module Dedup.

(** Deduplication by a key, the first occurrence of each key kept and
    the order of the kept elements preserved. *)
Fixpoint first_occurrences {A K} `{EqDecision K} (key : A -> K) (l : list A)
  : list A :=
  match l with
  | [] => []
  | x :: l' => x :: filter (fun y => key y <> key x) (first_occurrences key l')
  end.

(** The first ring of a polygon, without its closing element. *)
Definition open_outer_ring (polygon : list Ring) : list Coordinate :=
  removelast (hd [] polygon).

(** The ring [(0,0), (0,1), (1,1), (0,0)]. *)
Definition unit_triangle : Ring :=
  [Layout.degrees 0 0; Layout.degrees 0 1; Layout.degrees 1 1; Layout.degrees 0 0].

(** A stand-in for [Number::toString] where its value plays no role. *)
Definition no_toString (x : float) : string := "NaN".

End Dedup.

Module GeojsonSpec.
Import Geojson.

Definition both_layers : ExportOptions :=
  {| includePolygons := true; includePoints := true |}.

(** The point features of one parcel: one per vertex, numbered from 1. *)
Definition point_features (parcel : Parcel) : list Feature :=
  imap (fun i vertex => point_feature parcel vertex i) (vertices parcel).

End GeojsonSpec.

(** ** A checker for the markup of a document *)

Module Xml.

(** The text a character stands for once the five reserved characters
    are replaced by their entities. *)
Definition entity_of (c : ascii) : string :=
  if Ascii.eqb c "&" then "&amp;"
  else if Ascii.eqb c "<" then "&lt;"
  else if Ascii.eqb c ">" then "&gt;"
  else if Ascii.eqb c (ascii_of_nat 34) then "&quot;"
  else if Ascii.eqb c "'" then "&apos;"
  else String c EmptyString.

Fixpoint escape_chars (s : string) : string :=
  match s with
  | EmptyString => EmptyString
  | String c s' => (entity_of c +:+ escape_chars s')%string
  end.

(** Text without markup: neither [<] nor [&]. *)
Fixpoint plain (s : string) : bool :=
  match s with
  | EmptyString => true
  | String c s' => negb (Ascii.eqb c "<") && negb (Ascii.eqb c "&") && plain s'
  end.

Inductive mode : Type :=
  | Content
  | Entity (name : string)
  | TagStart
  | Instruction (question : bool)
  | OpenName (name : string)
  | Attributes (name : string)
  | AttributeValue (name : string)
  | CloseName (name : string)
  | Failed.

(** Where the scan of a document stands: the mode, the names of the
    elements still open, innermost first, and the number of root
    elements closed so far. *)
Record state : Type := { at_mode : mode; open : list string; roots : nat }.

Definition is_name_char (c : ascii) : bool :=
  let n := N_of_ascii c in
  ((65 <=? n) && (n <=? 90) || (97 <=? n) && (n <=? 122)
   || (48 <=? n) && (n <=? 57) || (n =? 95) || (n =? 45) || (n =? 46)
   || (n =? 58))%N.

Definition is_predefined (name : string) : bool :=
  String.eqb name "amp" || String.eqb name "lt" || String.eqb name "gt"
  || String.eqb name "quot" || String.eqb name "apos".

Definition snoc (s : string) (c : ascii) : string :=
  (s +:+ String c EmptyString)%string.

Definition fail : state := {| at_mode := Failed; open := []; roots := 0 |}.

Definition push_element (name : string) (st : state) : state :=
  match open st, roots st with
  | [], S _ => fail
  | _, _ => {| at_mode := Content; open := name :: open st; roots := roots st |}
  end.

Definition pop_element (name : string) (st : state) : state :=
  match open st with
  | top :: rest =>
      if String.eqb top name
      then {| at_mode := Content; open := rest;
              roots := match rest with [] => S (roots st) | _ => roots st end |}
      else fail
  | [] => fail
  end.

Definition step (st : state) (c : ascii) : state :=
  let go m := {| at_mode := m; open := open st; roots := roots st |} in
  match at_mode st with
  | Content =>
      if Ascii.eqb c "<" then go TagStart
      else if Ascii.eqb c "&" then
        match open st with [] => fail | _ => go (Entity EmptyString) end
      else
        match open st with
        | [] => if Str.is_space c then st else fail
        | _ => st
        end
  | Entity name =>
      if Ascii.eqb c ";" then (if is_predefined name then go Content else fail)
      else if is_name_char c then go (Entity (snoc name c))
      else fail
  | TagStart =>
      if Ascii.eqb c "?" then go (Instruction false)
      else if Ascii.eqb c "/" then go (CloseName EmptyString)
      else if is_name_char c then go (OpenName (String c EmptyString))
      else fail
  | Instruction question =>
      if Ascii.eqb c "?" then go (Instruction true)
      else if Ascii.eqb c ">" && question then go Content
      else go (Instruction false)
  | OpenName name =>
      if Ascii.eqb c ">" then push_element name st
      else if Str.is_space c then go (Attributes name)
      else if is_name_char c then go (OpenName (snoc name c))
      else fail
  | Attributes name =>
      if Ascii.eqb c ">" then push_element name st
      else if Ascii.eqb c (ascii_of_nat 34) then go (AttributeValue name)
      else if Ascii.eqb c "<" then fail
      else st
  | AttributeValue name =>
      if Ascii.eqb c (ascii_of_nat 34) then go (Attributes name)
      else if Ascii.eqb c "<" || Ascii.eqb c "&" then fail
      else st
  | CloseName name =>
      if Ascii.eqb c ">" then pop_element name st
      else if is_name_char c then go (CloseName (snoc name c))
      else fail
  | Failed => st
  end.

Fixpoint scan (st : state) (s : string) : state :=
  match s with
  | EmptyString => st
  | String c s' => scan (step st c) s'
  end.

Definition start : state := {| at_mode := Content; open := []; roots := 0 |}.

(** Inside the elements [names], between two tags. *)
Definition inside (names : list string) (r : nat) : state :=
  {| at_mode := Content; open := names; roots := r |}.

(** A string that takes the scan from inside [names] back to there. *)
Definition neutral (names : list string) (r : nat) (s : string) : Prop :=
  scan (inside names r) s = inside names r.

(** The markup of a document is balanced: every tag is closed by its
    own end tag in order, there is one root element, and the text
    between the tags holds neither [<] nor an [&] that does not start
    one of the five predefined entities. *)
Definition well_formed (document : string) : Prop :=
  scan start document = inside [] 1.

(** A parcel whose id holds [&] and [<]. *)
Definition ampersand_parcel : Parcel :=
  {| id := "A&B<C"; wkt := EmptyString;
     geometry := Polygon Layout.square_with_hole;
     vertices := [Layout.degrees 0 0; Layout.degrees 0 4; Layout.degrees 4 4] |}.

End Xml.

Module WktSpec.
Import Str Regex NumberParse Wkt.

Section Decoded.
Variable toWGS84 : JsValue -> JsValue -> result Coordinate.

(** What a successful decode says of one coordinate pair with two
    tokens or more: the first two are numbers and the coordinate is
    their projection. *)
Definition pair_decoded (pair : string) (coord : Coordinate) : Prop :=
  let numbers := map Number_of_string (split spaces (trim pair)) in
  (forall x, numbers !! 0%nat = Some x -> is_nan x = false) /\
  (forall y, numbers !! 1%nat = Some y -> is_nan y = false) /\
  (forall x y, numbers !! 0%nat = Some x -> numbers !! 1%nat = Some y ->
               toWGS84 (JsNumber x) (JsNumber y) = Ok coord).

Definition ring_decoded (ringString : string) (ring : Ring) : Prop :=
  Forall2 pair_decoded
    (split (char ",") (trim (remove_all is_paren ringString))) ring.

Definition rings_decoded (content : string) (rings : list Ring) : Prop :=
  Forall2 ring_decoded (split ringSeparator content) rings.

(** What a successful decode of the text [wkt] into [geometry] says. *)
Definition decoded (wkt : string) (geometry : Geometry) : Prop :=
  let cleaned := removeSridPrefix wkt in
  wkt <> EmptyString /\
  ((startsWith (toUpperCase cleaned) "MULTIPOLYGON" = true /\
    exists content polygons,
      search multiPolygonPattern cleaned = Some (Some content) /\
      geometry = MultiPolygon polygons /\
      Forall2 rings_decoded (split polygonSeparator content) polygons)
   \/
   (startsWith (toUpperCase cleaned) "MULTIPOLYGON" = false /\
    startsWith (toUpperCase cleaned) "POLYGON" = true /\
    exists content rings,
      search polygonPattern cleaned = Some (Some content) /\
      geometry = Polygon rings /\
      rings_decoded content rings)).
End Decoded.

(** The coordinate the projection stub gives for two integers. *)
Definition stub_coordinate (x y : Z) : Coordinate :=
  {| lat := js_div (Number_of_Z y) (Number_of_Z 100000);
     lng := js_div (Number_of_Z x) (Number_of_Z 100000) |}.

End WktSpec.

(** * Further vocabulary *)

Module Wkb.
Import Gpkg Layout.

(** A Number as it is stored: one of the binary64 values. *)
Definition binary64 (x : float) : Prop := valid_binary 53 1024 x = true.

Definition stored (coord : Coordinate) : Prop :=
  binary64 (lat coord) /\ binary64 (lng coord).

(** The Number with a given binary64 pattern. *)
Definition float64_of_bits (v : Z) : float :=
  let s := 2 ^ 63 <=? v in
  let e := (v / 2 ^ 52) mod 2 ^ 11 in
  let f := v mod 2 ^ 52 in
  if e =? 2047 then (if f =? 0 then S754_infinity s else S754_nan)
  else if e =? 0 then
    match f with
    | Z.pos m => S754_finite s m (-1074)
    | _ => S754_zero s
    end
  else
    match f + 2 ^ 52 with
    | Z.pos m => S754_finite s m (e - 1075)
    | _ => S754_nan
    end.

(** A reader of little-endian fields: the value of the first [n] bytes
    and the bytes after them. *)
Definition read_le (n : nat) (bs : list Z) : option (Z * list Z) :=
  if (n <=? length bs)%nat
  then Some (le_value (take n bs), drop n bs)
  else None.

Definition read_float64 (bs : list Z) : option (float * list Z) :=
  match read_le 8 bs with
  | Some (v, rest) => Some (float64_of_bits v, rest)
  | None => None
  end.

Definition read_coord (bs : list Z) : option (Coordinate * list Z) :=
  match read_float64 bs with
  | Some (x, rest) =>
      match read_float64 rest with
      | Some (y, rest') => Some ({| lat := y; lng := x |}, rest')
      | None => None
      end
  | None => None
  end.

(** [count] items read one after the other. *)
Fixpoint read_many {A} (read : list Z -> option (A * list Z)) (count : nat)
    (bs : list Z) : option (list A * list Z) :=
  match count with
  | O => Some ([], bs)
  | S count' =>
      match read bs with
      | Some (a, rest) =>
          match read_many read count' rest with
          | Some (l, rest') => Some (a :: l, rest')
          | None => None
          end
      | None => None
      end
  end.

Definition read_ring (bs : list Z) : option (Ring * list Z) :=
  match read_le 4 bs with
  | Some (n, rest) => read_many read_coord (Z.to_nat n) rest
  | None => None
  end.

(** A reader of the polygon payload: byte order 1, type 3, the ring
    count, the rings. *)
Definition read_polygon (bs : list Z) : option (list Ring * list Z) :=
  match bs with
  | 1 :: rest =>
      match read_le 4 rest with
      | Some (3, rest1) =>
          match read_le 4 rest1 with
          | Some (n, rest2) => read_many read_ring (Z.to_nat n) rest2
          | None => None
          end
      | _ => None
      end
  | _ => None
  end.

(** A reader of a blob with an envelope: the 40 bytes of the header are
    passed over, the payload is read. *)
Definition read_blob (bs : list Z) : option (list Ring * list Z) :=
  read_polygon (drop 40 bs).

(** Array lengths a [Uint32] field holds. *)
Definition fits_uint32 {A} (l : list A) : Prop := Z.of_nat (length l) < 2 ^ 32.

End Wkb.

Module LayerSpec.
Import Gpkg GpkgExport Layout.

Definition points_only : ExportOptions :=
  {| includePolygons := false; includePoints := true |}.

Definition is_polygon_row (stmt : Statement) : bool :=
  match stmt with
  | InsertPolygon _ _ => true
  | _ => false
  end.

Definition is_point_row (stmt : Statement) : bool :=
  match stmt with
  | InsertPoint _ _ _ => true
  | _ => false
  end.

(** The box [inner] does not reach outside the box [outer]. *)
Definition within (inner outer : Envelope) : Prop :=
  float_le (minX outer) (minX inner) /\ float_le (maxX inner) (maxX outer) /\
  float_le (minY outer) (minY inner) /\ float_le (maxY inner) (maxY outer).

(** The row of a parcel in the polygons table has the parcel's id, an
    envelope inside [extent] and the parcel's rings as its payload. *)
Definition row_of (extent : Envelope) (parcel : Parcel) (row : Statement) : Prop :=
  exists e : Envelope,
    row = InsertPolygon (id parcel)
            (header_layout 4326 (Some e) ++ polygon_layout (rings_of parcel))
    /\ within e extent.

Definition two_parcels : list Parcel :=
  [ {| id := "141201_1.0001.6509"; wkt := ""; geometry := Polygon square_with_hole;
       vertices := [degrees 0 0; degrees 0 4; degrees 4 4; degrees 4 0] |};
    {| id := "141201_1.0001.6510"; wkt := "";
       geometry := Polygon [[degrees 5 5; degrees 6 5; degrees 6 6; degrees 5 5]];
       vertices := [degrees 5 5; degrees 6 5; degrees 6 6] |} ].

End LayerSpec.

Module Outline.
Import Dedup.

(** The coordinates [extractVertices] runs over: the first ring of the
    polygon, or of every polygon, each without its closing element. *)
Definition outer_points (geometry : Geometry) : list Coordinate :=
  match geometry with
  | Polygon rings => open_outer_ring rings
  | MultiPolygon polygons => concat (open_outer_ring <$> polygons)
  end.

Definition has_ring (polygon : list Ring) : bool :=
  match polygon with
  | [] => false
  | _ :: _ => true
  end.

(** Every polygon of the geometry has a first ring. *)
Definition has_outer_rings (geometry : Geometry) : bool :=
  match geometry with
  | Polygon rings => has_ring rings
  | MultiPolygon polygons => forallb has_ring polygons
  end.

(** No array of the geometry is empty: there is a polygon, every
    polygon has a ring, every ring has a coordinate. *)
Definition nowhere_empty (geometry : Geometry) : Prop :=
  match geometry with
  | Polygon rings => rings <> [] /\ Forall (fun ring => ring <> []) rings
  | MultiPolygon polygons =>
      polygons <> [] /\
      Forall (fun rings => rings <> [] /\ Forall (fun ring => ring <> []) rings)
        polygons
  end.

End Outline.

Module Text.

(** Every character of [s] is in the class [p]. *)
Fixpoint all (p : ascii -> bool) (s : string) : bool :=
  match s with
  | EmptyString => true
  | String c s' => p c && all p s'
  end.

End Text.

Module Unescape.

(** The character an entity name stands for; a name that is none of the
    five is kept as written. *)
Definition character_of (name : string) : string :=
  if String.eqb name "amp" then "&"
  else if String.eqb name "lt" then "<"
  else if String.eqb name "gt" then ">"
  else if String.eqb name "quot" then String (ascii_of_nat 34) EmptyString
  else if String.eqb name "apos" then "'"
  else ("&" +:+ name +:+ ";")%string.

(** Reading escaped text back, as an XML reader does with character
    data: [pending] is the entity name read so far, if the scan is
    inside an entity. *)
Fixpoint unescape_from (pending : option string) (s : string) : string :=
  match s with
  | EmptyString =>
      match pending with
      | None => EmptyString
      | Some name => ("&" +:+ name)%string
      end
  | String c s' =>
      match pending with
      | None =>
          if Ascii.eqb c "&" then unescape_from (Some EmptyString) s'
          else String c (unescape_from None s')
      | Some name =>
          if Ascii.eqb c ";" then (character_of name +:+ unescape_from None s')%string
          else unescape_from (Some (name +:+ String c EmptyString)%string) s'
      end
  end.

Definition unescape (s : string) : string := unescape_from None s.

(** One of the four characters that [escapeXml] leaves nowhere. *)
Definition is_reserved (c : ascii) : bool :=
  Ascii.eqb c "<" || Ascii.eqb c ">" || Ascii.eqb c (ascii_of_nat 34)
  || Ascii.eqb c "'".

End Unescape.

Module GeojsonLayers.
Import Geojson.

(** The layer named [name] is among those the options ask for. *)
Definition selected (options : ExportOptions) (name : string) : bool :=
  includePolygons options && String.eqb name "polygons"
  || includePoints options && String.eqb name "points".

(** Reading a GeoJSON geometry back: positions [[lng, lat]] become
    coordinates; a point is no geometry of a parcel. *)
Definition coordinate (p : Position) : Coordinate :=
  {| lat := snd p; lng := fst p |}.

Definition geometryFromGeojson (g : GeoJsonGeometry) : option Geometry :=
  match g with
  | GjPolygon rings => Some (Polygon (map (map coordinate) rings))
  | GjMultiPolygon polygons =>
      Some (MultiPolygon (map (map (map coordinate)) polygons))
  | GjPoint _ => None
  end.

End GeojsonLayers.

Module AppSpec.
Import Wkt Vertices Outline App.

(** What can happen to the application object, one call at a time: the
    methods that assign its fields, with the outcomes of the calls they
    make on the page and the map.  [_processQueue] assigns no field
    itself: it calls [_addParcelToList] for the parcels found and then
    [_clearQueue], with other calls possibly in between. *)
Inductive Event : Type :=
  | AddParcel (found : Uldk.ParcelResult) (ui : result unit)
  | RemoveParcel (parcelId : string)
  | ClearAllParcels
  | AddToQueue (lat lng : float) (label : string) (marker : result unit)
  | RemoveFromQueue (id : Z)
  | ClearQueue
  | TogglePolygons
  | TogglePoints.

Section Run.
Variable toWGS84 : JsValue -> JsValue -> result Coordinate.
Variable Number_toString : float -> string.

Definition handle (event : Event) (st : state) : state :=
  match event with
  | AddParcel found ui => fst (_addParcelToList toWGS84 Number_toString found ui st)
  | RemoveParcel parcelId => _removeParcel parcelId st
  | ClearAllParcels => _clearAllParcels st
  | AddToQueue lat lng label marker => _addToQueue lat lng label marker st
  | RemoveFromQueue id => _removeFromQueue id st
  | ClearQueue => _clearQueue st
  | TogglePolygons => _togglePolygons st
  | TogglePoints => _togglePoints st
  end.

Definition after (events : list Event) (st : state) : state :=
  fold_left (fun st event => handle event st) events st.

(** The geometry and the vertices of a parcel are what its WKT text
    decodes to. *)
Definition derived (parcel : Parcel) : Prop :=
  parseWkt toWGS84 (JsString (wkt parcel)) = Ok (geometry parcel)
  /\ extractVertices Number_toString (geometry parcel) = Ok (vertices parcel).

(** What holds of the parcel list, and of the queue and its counter, at
    every moment. *)
Definition parcels_ok (st : state) : Prop :=
  NoDup (map id (_parcels st))
  /\ Forall (fun parcel =>
               derived parcel /\ nowhere_empty (geometry parcel)) (_parcels st).

Definition queue_ok (st : state) : Prop :=
  1 <= _nextQueueId st <= 2 ^ 53
  /\ (_nextQueueId st < 2 ^ 53 ->
      NoDup (map queue_id (_coordinateQueue st))
      /\ Forall (fun item => 1 <= queue_id item < _nextQueueId st)
           (_coordinateQueue st)).
End Run.

Definition triangle_result : Uldk.ParcelResult :=
  {| Uldk.wkt := "POLYGON((0 0, 0 100000, 100000 100000, 0 0))";
     Uldk.id := "141201_1.0001.6509" |}.

End AppSpec.

Module CrossFormat.
Import Geojson GpkgExport Layout.

(** The row of the points table that says what a GeoJSON point feature
    says: the same parcel id, the same index, the same coordinate. *)
Definition row_of_feature (feature : Feature) : option Statement :=
  match point_index (properties feature), feature_geometry feature with
  | Some index, GjPoint (x, y) =>
      Some (InsertPoint (parcel_id (properties feature)) index
              (point_blob {| lat := y; lng := x |}))
  | _, _ => None
  end.

End CrossFormat.

Module SearchSpec.
Import Str NumberParse Search Text.

(** A non-empty string of decimal digits. *)
Definition digits_text (s : string) : Prop :=
  s <> EmptyString /\ all is_digit s = true.

(** The Number written [int_digits.frac_digits]. *)
Definition decimal (int_digits frac_digits : string) : float :=
  Number_of_decimal false
    (digits_value 10 0 (int_digits +:+ frac_digits))
    (- Z.of_nat (String.length frac_digits)).

(** [r] matches the text [a] in front of [b]: whatever the rest of the
    pattern does with [b] and the captures [f captures], the match of
    [r] followed by that rest does with [a +:+ b]. *)
Definition matches (r : regex) (a b : string)
    (f : list (option string) -> list (option string)) : Prop :=
  forall (R : Type) (captures : list (option string))
         (k : string -> list (option string) -> option R) (result : R),
    k b (f captures) = Some result ->
    run r (a +:+ b) captures k = Some result.

(** The text [b] is empty or starts outside the class [p]. *)
Definition stops (p : ascii -> bool) (b : string) : Prop :=
  match b with
  | EmptyString => True
  | String c _ => p c = false
  end.

(** Digits followed by something that is neither a digit nor a decimal
    mark. *)
Definition no_mark_ahead (t : string) : Prop :=
  exists ds rest,
    t = ds +:+ rest /\ all is_digit ds = true
    /\ stops (fun c => is_digit c || decimal_mark c) rest.

Definition no_space (c : ascii) : bool := negb (is_space c).

End SearchSpec.

(** * Properties *)

(** ** Byte buffers *)

Module BufferFacts.

Lemma length_le_bytes n v : length (le_bytes n v) = n.
Proof. revert v. induction n as [|n IH]; intros v; simpl; [done|]. by rewrite IH. Qed.

Lemma length_uint32_le v : length (uint32_le v) = 4%nat.
Proof. apply length_le_bytes. Qed.

Lemma length_int32_le v : length (int32_le v) = 4%nat.
Proof. apply length_le_bytes. Qed.

Lemma length_float64_le x : length (float64_le x) = 8%nat.
Proof. apply length_le_bytes. Qed.

(** The bytes written are those of the value: reading them back gives
    the value modulo [256^n]. *)
Lemma le_value_le_bytes n v :
  Layout.le_value (le_bytes n v) = v mod 256 ^ Z.of_nat n.
Proof.
  revert v. induction n as [|n IH]; intros v.
  - simpl. by rewrite Z.mod_1_r.
  - cbn [le_bytes Layout.le_value]. rewrite IH.
    rewrite Nat2Z.inj_succ, Z.pow_succ_r by lia.
    rewrite (Z.mul_comm 256), Z.rem_mul_r by lia. lia.
Qed.

Lemma uint32_le_value v : Layout.le_value (uint32_le v) = v mod 2 ^ 32.
Proof.
  unfold uint32_le. rewrite le_value_le_bytes.
  change (256 ^ Z.of_nat 4) with (2 ^ 32). apply Z.mod_mod. lia.
Qed.

Lemma store_ok pre old post bs :
  length old = length bs ->
  store (length pre) bs (pre ++ old ++ post) = Ok (pre ++ bs ++ post).
Proof.
  intros Hlen. unfold store.
  rewrite !length_app, Hlen.
  destruct (Nat.leb_spec (length pre + length bs)
              (length pre + (length bs + length post))) as [_|]; [|lia].
  rewrite take_app_length.
  rewrite <- Hlen, <- drop_drop, drop_app_length, drop_app_length. done.
Qed.

(** Storing into the zeroed tail of a buffer filled up to [offset]. *)
Lemma store_fresh pre bs k offset n :
  offset = length pre -> n = (length bs + k)%nat ->
  store offset bs (pre ++ replicate n 0) = Ok ((pre ++ bs) ++ replicate k 0).
Proof.
  intros -> ->. rewrite replicate_add, <- (assoc_L (++) pre bs).
  apply store_ok. by rewrite length_replicate.
Qed.

Lemma store_first bs k n :
  n = (length bs + k)%nat ->
  store 0 bs (replicate n 0) = Ok (bs ++ replicate k 0).
Proof. intros ->. apply (store_fresh [] bs k); done. Qed.

End BufferFacts.

(** ** The order of Numbers *)

Module FloatOrder.
Import Layout.

Ltac order_cases :=
  unfold SFltb, SFleb, SFcompare; intros;
  repeat match goal with
         | s : bool |- _ => destruct s
         end;
  try discriminate; try reflexivity;
  repeat match goal with
         | H : context [Z.compare ?a ?b] |- _ =>
             destruct (Z.compare_spec a b); try discriminate
         | |- context [Z.compare ?a ?b] =>
             destruct (Z.compare_spec a b); try discriminate
         end;
  repeat match goal with
         | H : context [Pos.compare_cont Eq ?a ?b] |- _ =>
             change (Pos.compare_cont Eq a b) with (Pos.compare a b) in H;
             destruct (Pos.compare_spec a b); try discriminate
         | |- context [Pos.compare_cont Eq ?a ?b] =>
             change (Pos.compare_cont Eq a b) with (Pos.compare a b);
             destruct (Pos.compare_spec a b); try discriminate
         end;
  cbn in *; try discriminate; try reflexivity; try lia.

Lemma ltb_leb_trans (x m p : float) :
  SFltb x m = true -> SFleb m p = true -> SFleb x p = true.
Proof. destruct x, m, p; order_cases. Qed.

Lemma leb_ltb_trans (p m x : float) :
  SFleb p m = true -> SFltb m x = true -> SFleb p x = true.
Proof. destruct x, m, p; order_cases. Qed.

Lemma not_ltb_leb (x m : float) :
  is_nan x = false -> is_nan m = false -> SFltb x m = false -> SFleb m x = true.
Proof. destruct x, m; order_cases. Qed.

Lemma leb_refl (x : float) : is_nan x = false -> SFleb x x = true.
Proof.
  destruct x; unfold SFleb, SFcompare; intros; try discriminate;
    repeat match goal with s : bool |- _ => destruct s end; try reflexivity;
    rewrite Z.compare_refl;
    change (Pos.compare_cont Eq m m) with (Pos.compare m m);
    rewrite Pos.compare_refl; reflexivity.
Qed.

Lemma not_below_Infinity (x : float) :
  is_nan x = false -> SFltb x Infinity = false -> x = Infinity.
Proof.
  destruct x as [[]|[]| |[] ? ?]; cbn; intros; try discriminate; reflexivity.
Qed.

Lemma not_above_NegInfinity (x : float) :
  is_nan x = false -> SFltb NegInfinity x = false -> x = NegInfinity.
Proof.
  destruct x as [[]|[]| |[] ? ?]; cbn; intros; try discriminate; reflexivity.
Qed.

Lemma leb_trans (x y z : float) :
  SFleb x y = true -> SFleb y z = true -> SFleb x z = true.
Proof. destruct x, y, z; order_cases. Qed.

Lemma above_Infinity (x : float) : SFleb Infinity x = true -> x = Infinity.
Proof.
  destruct x as [[]|[]| |[] ? ?]; cbn; intros; try discriminate; reflexivity.
Qed.

Lemma below_NegInfinity (x : float) : SFleb x NegInfinity = true -> x = NegInfinity.
Proof.
  destruct x as [[]|[]| |[] ? ?]; cbn; intros; try discriminate; reflexivity.
Qed.

Lemma lower_spec (x m : float) :
  not_nan x -> not_nan m ->
  not_nan (lower x m) /\ float_le (lower x m) x /\ float_le (lower x m) m
  /\ (lower x m = x \/ lower x m = m).
Proof.
  unfold lower, js_lt, float_le. intros Hx Hm.
  destruct (SFltb x m) eqn:E.
  - split; [done|]. split; [by apply leb_refl|].
    split; [|by left]. eapply ltb_leb_trans; [exact E|by apply leb_refl].
  - split; [done|]. split; [by apply not_ltb_leb|].
    split; [by apply leb_refl|by right].
Qed.

Lemma upper_spec (x m : float) :
  not_nan x -> not_nan m ->
  not_nan (upper x m) /\ float_le x (upper x m) /\ float_le m (upper x m)
  /\ (upper x m = x \/ upper x m = m).
Proof.
  unfold upper, js_lt, float_le. intros Hx Hm.
  destruct (SFltb m x) eqn:E.
  - split; [done|]. split; [by apply leb_refl|].
    split; [|by left]. eapply ltb_leb_trans; [exact E|by apply leb_refl].
  - split; [done|]. split; [by apply not_ltb_leb|].
    split; [by apply leb_refl|by right].
Qed.

(** The running lower bound of a loop over [xs] that starts at [m0]. *)
Lemma fold_lower (xs : list float) (m0 : float) :
  Forall not_nan xs -> not_nan m0 ->
  let m := fold_left (fun m x => lower x m) xs m0 in
  not_nan m /\ float_le m m0 /\ Forall (float_le m) xs /\ (m = m0 \/ In m xs).
Proof.
  revert m0. induction xs as [|x xs IH]; intros m0 Hxs Hm0; cbn.
  - split; [done|]. split; [by apply leb_refl|]. split; [constructor|by left].
  - inversion Hxs as [|? ? Hx Hxs']; subst.
    destruct (lower_spec x m0 Hx Hm0) as (Hn & Hlx & Hlm & Hor).
    destruct (IH (lower x m0) Hxs' Hn) as (Hn' & Hle & Hall & Hin).
    split; [done|]. split; [by eapply leb_trans|].
    split; [constructor; [by eapply leb_trans|done]|].
    destruct Hin as [->|Hin]; [|by right; right].
    destruct Hor as [Hor|Hor]; rewrite Hor; [right; by left|by left].
Qed.

Lemma fold_upper (xs : list float) (m0 : float) :
  Forall not_nan xs -> not_nan m0 ->
  let m := fold_left (fun m x => upper x m) xs m0 in
  not_nan m /\ float_le m0 m /\ Forall (fun x => float_le x m) xs
  /\ (m = m0 \/ In m xs).
Proof.
  revert m0. induction xs as [|x xs IH]; intros m0 Hxs Hm0; cbn.
  - split; [done|]. split; [by apply leb_refl|]. split; [constructor|by left].
  - inversion Hxs as [|? ? Hx Hxs']; subst.
    destruct (upper_spec x m0 Hx Hm0) as (Hn & Hlx & Hlm & Hor).
    destruct (IH (upper x m0) Hxs' Hn) as (Hn' & Hle & Hall & Hin).
    split; [done|]. split; [by eapply leb_trans|].
    split; [constructor; [by eapply leb_trans|done]|].
    destruct Hin as [->|Hin]; [|by right; right].
    destruct Hor as [Hor|Hor]; rewrite Hor; [right; by left|by left].
Qed.

(** Started at [Infinity], the loop computes the minimum. *)
Lemma fold_lower_minimum (xs : list float) :
  Forall not_nan xs ->
  is_minimum (fold_left (fun m x => lower x m) xs Infinity) xs.
Proof.
  intros Hxs. destruct (fold_lower xs Infinity Hxs eq_refl) as (_ & _ & Hall & Hin).
  split; [exact Hall|]. intros Hne.
  destruct Hin as [Heq|Hin]; [|done].
  destruct xs as [|x xs]; [done|]. rewrite Heq in *.
  inversion Hall as [|? ? Hx _]; subst. apply above_Infinity in Hx.
  left. done.
Qed.

Lemma fold_upper_maximum (xs : list float) :
  Forall not_nan xs ->
  is_maximum (fold_left (fun m x => upper x m) xs NegInfinity) xs.
Proof.
  intros Hxs.
  destruct (fold_upper xs NegInfinity Hxs eq_refl) as (_ & _ & Hall & Hin).
  split; [exact Hall|]. intros Hne.
  destruct Hin as [Heq|Hin]; [|done].
  destruct xs as [|x xs]; [done|]. rewrite Heq in *.
  inversion Hall as [|? ? Hx _]; subst. apply below_NegInfinity in Hx.
  left. done.
Qed.

End FloatOrder.

(** ** The binary encoder *)

Module GpkgFacts.
Import Gpkg Layout BufferFacts.

Lemma forEach_app {A St} (f : A -> St -> St) l1 l2 s :
  forEach f (l1 ++ l2) s = forEach f l2 (forEach f l1 s).
Proof. apply fold_left_app. Qed.

Lemma forEach_concat {A St} (f : A -> St -> St) (ls : list (list A)) s :
  forEach (fun l => forEach f l) ls s = forEach f (concat ls) s.
Proof.
  revert s. induction ls as [|l ls IH]; intros s; [done|].
  cbn [concat]. rewrite forEach_app, <- IH. done.
Qed.

Lemma createGpbHeader_layout srsId envelope :
  createGpbHeader srsId envelope = Ok (header_layout srsId envelope).
Proof.
  unfold createGpbHeader, header_layout, setUint8, setInt32, setFloat64, store,
    ArrayBuffer, float64_le, int32_le.
  destruct envelope as [e|];
    cbn -[Z.modulo Z.div Z.pow float64_bits]; reflexivity.
Qed.

Lemma length_header_layout srsId envelope :
  length (header_layout srsId envelope)
  = match envelope with Some _ => 40%nat | None => 8%nat end.
Proof. destruct envelope; reflexivity. Qed.

Lemma pointToWkb_layout lng lat :
  pointToWkb lng lat = Ok (point_layout lng lat).
Proof.
  unfold pointToWkb, point_layout, setUint8, setUint32, setFloat64, store,
    ArrayBuffer, float64_le, uint32_le.
  cbn -[Z.modulo Z.div Z.pow float64_bits]. reflexivity.
Qed.

Lemma totalSize_eq {A} (rings : list (list A)) n :
  forEach (fun ring totalSize => totalSize + 4 + length ring * 16)%nat rings n
  = (n + rings_size rings)%nat.
Proof.
  revert n. induction rings as [|r rings IH]; intros n.
  - cbn. lia.
  - unfold forEach in *. cbn [fold_left]. rewrite IH.
    unfold rings_size. cbn [map sum_list sum_list_with Datatypes.id]. lia.
Qed.

Section PolygonPayload.
Context {A : Type} `{LngLat A}.

Lemma length_coord_layout (coord : A) : length (coord_layout coord) = 16%nat.
Proof. unfold coord_layout. by rewrite length_app, !length_float64_le. Qed.

Lemma length_flat_coord_layout (ring : list A) :
  length (flat_map coord_layout ring) = (length ring * 16)%nat.
Proof.
  induction ring as [|c ring IH]; [done|].
  cbn [flat_map]. rewrite length_app, length_coord_layout, IH. cbn. lia.
Qed.

Lemma length_ring_layout (ring : list A) :
  length (ring_layout ring) = (4 + length ring * 16)%nat.
Proof.
  unfold ring_layout.
  by rewrite length_app, length_uint32_le, length_flat_coord_layout.
Qed.

Lemma length_flat_ring_layout (rings : list (list A)) :
  length (flat_map ring_layout rings) = rings_size rings.
Proof.
  induction rings as [|r rings IH]; [done|].
  cbn [flat_map]. rewrite length_app, length_ring_layout, IH. done.
Qed.

(** The inner loop fills the next [16 * length ring] bytes of the
    zeroed tail with the coordinates, in order. *)
Lemma write_coords_fresh (ring : list A) pre k :
  forEachM write_coord ring
    (pre ++ replicate (length ring * 16 + k) 0, length pre)
  = Ok ((pre ++ flat_map coord_layout ring) ++ replicate k 0,
        (length pre + length ring * 16)%nat).
Proof.
  revert pre. induction ring as [|c ring IH]; intros pre.
  - cbn. rewrite app_nil_r. do 2 f_equal. lia.
  - cbn [forEachM write_coord]. unfold setFloat64.
    rewrite (store_fresh pre _ (8 + (length ring * 16 + k)) _ _ eq_refl)
      by (rewrite length_float64_le; cbn; lia).
    cbn [mbind result_bind].
    rewrite (store_fresh (pre ++ float64_le (lng_of c)) _
               (length ring * 16 + k))
      by (rewrite ?length_app, ?length_float64_le; lia).
    cbn [mbind result_bind mret result_ret].
    replace (length pre + 8 + 8)%nat
      with (length ((pre ++ float64_le (lng_of c)) ++ float64_le (lat_of c)))
      by (rewrite !length_app, !length_float64_le; lia).
    rewrite IH. cbn [flat_map]. unfold coord_layout at 2.
    rewrite !length_app, !length_float64_le, <- !(assoc_L (++)).
    do 2 f_equal. cbn. lia.
Qed.
End PolygonPayload.

Section PolygonPayloadRings.
Context {A : Type} `{LngLat A}.

Lemma write_rings_fresh (rings : list (list A)) pre k :
  forEachM write_ring rings
    (pre ++ replicate (rings_size rings + k) 0, length pre)
  = Ok ((pre ++ flat_map ring_layout rings) ++ replicate k 0,
        (length pre + rings_size rings)%nat).
Proof.
  revert pre. induction rings as [|r rings IH]; intros pre.
  - cbn. rewrite app_nil_r. do 2 f_equal. lia.
  - cbn [forEachM write_ring]. unfold setUint32.
    change (rings_size (r :: rings))
      with (4 + length r * 16 + rings_size rings)%nat.
    rewrite (store_fresh pre _ (length r * 16 + (rings_size rings + k)) _ _ eq_refl)
      by (rewrite length_uint32_le; lia).
    cbn [mbind result_bind].
    replace (length pre + 4)%nat
      with (length (pre ++ uint32_le (Z.of_nat (length r))))
      by (rewrite length_app, length_uint32_le; lia).
    rewrite write_coords_fresh.
    replace (length (pre ++ uint32_le (Z.of_nat (length r))) + length r * 16)%nat
      with (length ((pre ++ uint32_le (Z.of_nat (length r)))
                    ++ flat_map coord_layout r))
      by (rewrite !length_app, length_flat_coord_layout; lia).
    cbn [mbind result_bind]. rewrite IH. cbn [flat_map].
    unfold ring_layout at 2.
    rewrite !length_app, length_uint32_le, length_flat_coord_layout,
      <- !(assoc_L (++)).
    do 2 f_equal. lia.
Qed.

Lemma polygonToWkb_layout (rings : list (list A)) :
  polygonToWkb rings = Ok (polygon_layout rings).
Proof.
  unfold polygonToWkb. rewrite totalSize_eq.
  unfold setUint8, setUint32, ArrayBuffer.
  rewrite (store_first [1 mod 256] (8 + rings_size rings)) by (cbn; lia).
  cbn [mbind result_bind].
  rewrite (store_fresh [1 mod 256] (uint32_le 3) (4 + rings_size rings))
    by (rewrite ?length_uint32_le; cbn; lia).
  cbn [mbind result_bind].
  rewrite (store_fresh ([1 mod 256] ++ uint32_le 3) _ (rings_size rings + 0))
    by (rewrite ?length_app, ?length_uint32_le; cbn; lia).
  cbn [mbind result_bind].
  replace (0 + 1 + 4 + 4)%nat
    with (length (([1 mod 256] ++ uint32_le 3)
                  ++ uint32_le (Z.of_nat (length rings))))
    by (rewrite !length_app, !length_uint32_le; cbn; lia).
  rewrite write_rings_fresh. cbn [mbind result_bind mret result_ret].
  unfold polygon_layout. rewrite app_nil_r, <- !(assoc_L (++)). done.
Qed.
End PolygonPayloadRings.

Lemma concat_gpb_app header wkb : concat_gpb header wkb = Ok (header ++ wkb).
Proof.
  unfold concat_gpb, Uint8Array_set, ArrayBuffer.
  rewrite (store_first header (length wkb)) by lia.
  cbn [mbind result_bind].
  rewrite (store_fresh header wkb 0) by (cbn; lia).
  cbn [mbind result_bind mret result_ret]. by rewrite app_nil_r.
Qed.

Lemma createPointGpb_layout lng lat srsId :
  createPointGpb lng lat srsId
  = Ok (header_layout srsId
          (Some {| minX := lng; maxX := lng; minY := lat; maxY := lat |})
        ++ point_layout lng lat).
Proof.
  unfold createPointGpb.
  rewrite createGpbHeader_layout, pointToWkb_layout.
  cbn [mbind result_bind]. apply concat_gpb_app.
Qed.

Lemma createPolygonGpb_layout {A} `{LngLat A} (rings : list (list A)) srsId :
  createPolygonGpb rings srsId
  = Ok (header_layout srsId (Some (accumulate_bounds rings initial_bounds))
        ++ polygon_layout rings).
Proof.
  unfold createPolygonGpb.
  rewrite createGpbHeader_layout, polygonToWkb_layout.
  cbn [mbind result_bind]. apply concat_gpb_app.
Qed.

(** *** The envelope *)

Lemma bounds_forEach (coords : list Coordinate) (b : Envelope) :
  let b' := forEach update_bounds coords b in
  minX b' = fold_left (fun m x => lower x m) (map lng coords) (minX b) /\
  maxX b' = fold_left (fun m x => upper x m) (map lng coords) (maxX b) /\
  minY b' = fold_left (fun m x => lower x m) (map lat coords) (minY b) /\
  maxY b' = fold_left (fun m x => upper x m) (map lat coords) (maxY b).
Proof.
  revert b. induction coords as [|c coords IH]; intros b; [done|].
  exact (IH (update_bounds c b)).
Qed.

Lemma accumulate_bounds_envelope (rings : list Ring) :
  Forall no_nan (concat rings) ->
  let e := accumulate_bounds rings initial_bounds in
  is_minimum (minX e) (all_lng rings) /\ is_maximum (maxX e) (all_lng rings) /\
  is_minimum (minY e) (all_lat rings) /\ is_maximum (maxY e) (all_lat rings).
Proof.
  intros Hnan. unfold accumulate_bounds. rewrite forEach_concat.
  destruct (bounds_forEach (concat rings) initial_bounds) as (-> & -> & -> & ->).
  unfold all_lng, all_lat. cbn [initial_bounds minX maxX minY maxY].
  assert (Forall not_nan (map lng (concat rings))) as Hlng.
  { apply Forall_map. eapply Forall_impl; [exact Hnan|]. by intros c [? ?]. }
  assert (Forall not_nan (map lat (concat rings))) as Hlat.
  { apply Forall_map. eapply Forall_impl; [exact Hnan|]. by intros c [? ?]. }
  auto using FloatOrder.fold_lower_minimum, FloatOrder.fold_upper_maximum.
Qed.

(** C1: the header of an encoded point carries the degenerate envelope
    of its single coordinate, and the header of an encoded polygon
    carries, as minX, maxX, minY and maxY, the minimum and the maximum of
    the longitudes and of the latitudes of all coordinates of all rings,
    the holes included. *)
Theorem header_envelope_bounds_geometry
    (rings : list Ring) (pointLng pointLat : float) (srsId : Z) :
  Forall no_nan (concat rings) ->
  createPointGpb pointLng pointLat srsId
  = Ok (header_layout srsId
          (Some {| minX := pointLng; maxX := pointLng;
                   minY := pointLat; maxY := pointLat |})
        ++ point_layout pointLng pointLat)
  /\ exists e : Envelope,
       createPolygonGpb rings srsId
       = Ok (header_layout srsId (Some e) ++ polygon_layout rings)
       /\ is_minimum (minX e) (all_lng rings)
       /\ is_maximum (maxX e) (all_lng rings)
       /\ is_minimum (minY e) (all_lat rings)
       /\ is_maximum (maxY e) (all_lat rings).
Proof.
  intros Hnan. split; [apply createPointGpb_layout|].
  exists (accumulate_bounds rings initial_bounds).
  split; [apply createPolygonGpb_layout|].
  by apply accumulate_bounds_envelope.
Qed.

Lemma header_envelope_bounds_geometry_witness :
  Forall no_nan (concat square_with_hole)
  /\ exists e : Envelope,
       createPolygonGpb square_with_hole 4326
       = Ok (header_layout 4326 (Some e) ++ polygon_layout square_with_hole)
       /\ is_minimum (minX e) (all_lng square_with_hole)
       /\ is_maximum (maxX e) (all_lng square_with_hole).
Proof.
  assert (Forall no_nan (concat square_with_hole)) as Hnan
    by (repeat constructor).
  split; [exact Hnan|].
  destruct (header_envelope_bounds_geometry square_with_hole Infinity Infinity
              4326 Hnan) as (_ & e & Hgpb & Hmin & Hmax & _).
  exists e. auto.
Defined.

(** C2: the encoder's output is the envelope header followed by the
    geometry payload, little-endian: the bytes 'G' 'P', version 0, the
    flag byte (bit 0 set, envelope type 1 in bits 1-3 when an envelope is
    present), the SRS id as a 32-bit integer, the four bounds minX, maxX,
    minY, maxY as float64 (40 bytes with an envelope, 8 without); then the
    byte-order flag 1, the type code as uint32 (1 point, 3 polygon), and
    for a point X = longitude and Y = latitude, for a polygon the ring
    count and per ring its point count and its X, Y pairs in the order
    of the ring array. *)
Theorem gpb_binary_layout :
  (forall srsId envelope,
      createGpbHeader srsId envelope = Ok (header_layout srsId envelope)
      /\ length (header_layout srsId envelope)
         = match envelope with Some _ => 40%nat | None => 8%nat end
      /\ le_value (int32_le srsId) = srsId mod 2 ^ 32)
  /\ (Z.testbit 3 0 = true /\ Z.land (Z.shiftr 3 1) 7 = 1
      /\ Z.testbit 1 0 = true /\ Z.land (Z.shiftr 1 1) 7 = 0)
  /\ (uint32_le 1 = [1; 0; 0; 0] /\ uint32_le 3 = [3; 0; 0; 0]
      /\ forall n, le_value (uint32_le n) = n mod 2 ^ 32)
  /\ (forall lng lat,
        pointToWkb lng lat
        = Ok ([1] ++ uint32_le 1 ++ float64_le lng ++ float64_le lat))
  /\ (forall rings : list Ring,
        polygonToWkb rings
        = Ok ([1] ++ uint32_le 3 ++ uint32_le (Z.of_nat (length rings))
              ++ flat_map
                   (fun ring =>
                      uint32_le (Z.of_nat (length ring))
                      ++ flat_map (fun coord => float64_le (lng coord)
                                                ++ float64_le (lat coord)) ring)
                   rings))
  /\ (forall lng lat srsId,
        createPointGpb lng lat srsId
        = Ok (header_layout srsId
                (Some {| minX := lng; maxX := lng; minY := lat; maxY := lat |})
              ++ [1] ++ uint32_le 1 ++ float64_le lng ++ float64_le lat))
  /\ (forall (rings : list Ring) srsId,
        createPolygonGpb rings srsId
        = Ok (header_layout srsId (Some (accumulate_bounds rings initial_bounds))
              ++ [1] ++ uint32_le 3 ++ uint32_le (Z.of_nat (length rings))
              ++ flat_map
                   (fun ring =>
                      uint32_le (Z.of_nat (length ring))
                      ++ flat_map (fun coord => float64_le (lng coord)
                                                ++ float64_le (lat coord)) ring)
                   rings)).
Proof.
  split.
  { intros srsId envelope.
    split; [apply createGpbHeader_layout|].
    split; [apply length_header_layout|apply uint32_le_value]. }
  split; [repeat split; vm_compute; reflexivity|].
  split.
  { split; [vm_compute; reflexivity|].
    split; [vm_compute; reflexivity|apply uint32_le_value]. }
  split; [apply pointToWkb_layout|].
  split.
  { intros rings. rewrite polygonToWkb_layout.
    unfold polygon_layout, ring_layout, coord_layout.
    cbn [lng_of lat_of Coordinate_LngLat]. reflexivity. }
  split; [intros; rewrite createPointGpb_layout; reflexivity|].
  intros rings srsId. rewrite createPolygonGpb_layout.
  unfold polygon_layout, ring_layout, coord_layout.
  cbn [lng_of lat_of Coordinate_LngLat]. reflexivity.
Qed.

End GpkgFacts.

(** ** The GeoPackage exporter *)

Module GpkgExportFacts.
Import Gpkg GpkgExport Layout GpkgFacts.

(** Neither comparison of the bounds loop succeeds on an element whose
    [lng] and [lat] are missing: the bounds stay as they were. *)
Lemma accumulate_bounds_arrays {B} (polygons : list (list (list B))) b :
  accumulate_bounds polygons b = b.
Proof.
  unfold accumulate_bounds. rewrite forEach_concat.
  induction (concat polygons) as [|r rs IH]; [done|].
  cbn [forEach fold_left]. unfold forEach in IH.
  replace (update_bounds r b) with b; [exact IH|].
  destruct b as [[] [] [] []]; reflexivity.
Qed.

Lemma polygon_layout_arrays {B} (polygons : list (list (list B))) :
  polygon_layout polygons
  = [1] ++ uint32_le 3 ++ uint32_le (Z.of_nat (length polygons))
    ++ flat_map (fun polygon =>
                   uint32_le (Z.of_nat (length polygon))
                   ++ flat_map (fun _ => float64_le NaN ++ float64_le NaN)
                        polygon) polygons.
Proof. reflexivity. Qed.

Lemma insert_polygon_row (p : Parcel) db b :
  insert_polygon p (db, b)
  = Ok (db ++ [InsertPolygon (id p) (parcel_blob p)], parcel_bounds p b).
Proof.
  unfold insert_polygon, parcel_blob, parcel_bounds, polygon_blob, run,
    default_srsId.
  destruct (geometry p) as [rings|polygons];
    rewrite createPolygonGpb_layout; reflexivity.
Qed.

(** The polygon loop: one row per parcel, in order, and the bounds
    extended by what the bounds loop reads of every parcel. *)
Lemma insert_polygon_rows (parcels : list Parcel) db b :
  forEachM insert_polygon parcels (db, b)
  = Ok (db ++ polygon_rows parcels, forEach parcel_bounds parcels b).
Proof.
  revert db b. induction parcels as [|p parcels IH]; intros db b.
  - cbn. by rewrite app_nil_r.
  - cbn [forEachM]. rewrite insert_polygon_row.
    cbn [mbind result_bind]. rewrite IH.
    unfold polygon_rows. cbn [map forEach fold_left].
    by rewrite <- (assoc_L (++)).
Qed.

Lemma insert_point_row (parcel : Parcel) (v : Coordinate) index db b :
  insert_point parcel v index (db, b)
  = Ok (db ++ [InsertPoint (id parcel) (Z.of_nat index + 1) (point_blob v)],
        update_bounds v b).
Proof.
  unfold insert_point, point_blob, run, default_srsId.
  rewrite createPointGpb_layout. reflexivity.
Qed.

Lemma insert_point_rows (parcel : Parcel) (vs : list Coordinate) index db b :
  forEachIndexM (insert_point parcel) index vs (db, b)
  = Ok (db ++ imap (fun i v =>
                      InsertPoint (id parcel) (Z.of_nat (index + i) + 1)
                        (point_blob v)) vs,
        forEach update_bounds vs b).
Proof.
  revert index db b. induction vs as [|v vs IH]; intros index db b.
  - cbn. by rewrite app_nil_r.
  - cbn [forEachIndexM]. rewrite insert_point_row.
    cbn [mbind result_bind]. rewrite IH.
    cbn [imap forEach fold_left]. rewrite <- (assoc_L (++)). cbn [app].
    rewrite Nat.add_0_r. do 4 f_equal.
    apply imap_ext. intros i x _. cbn. do 2 f_equal. lia.
Qed.

Lemma insert_points_rows (parcels : list Parcel) db b :
  forEachM (fun parcel => forEachIndexM (insert_point parcel) 0 (vertices parcel))
    parcels (db, b)
  = Ok (db ++ point_rows parcels,
        forEach update_bounds (flat_map vertices parcels) b).
Proof.
  revert db b. induction parcels as [|p parcels IH]; intros db b.
  - cbn. by rewrite app_nil_r.
  - cbn [forEachM]. rewrite insert_point_rows.
    cbn [mbind result_bind]. rewrite IH.
    unfold point_rows. cbn [flat_map]. rewrite forEach_app, <- (assoc_L (++)).
    done.
Qed.

(** Every export succeeds, and its statements are the registry tables
    followed by the requested layers. *)
Lemma gpkg_statements_layers (parcels : list Parcel) options timestamp :
  gpkg_statements parcels options timestamp
  = Ok (registry_tables
        ++ (if includePolygons options
            then polygons_layer parcels timestamp else [])
        ++ (if includePoints options
            then points_layer parcels timestamp else [])).
Proof.
  unfold gpkg_statements.
  destruct (includePolygons options), (includePoints options);
    rewrite ?insert_polygon_rows; cbn [mbind result_bind mret result_ret];
    rewrite ?insert_points_rows; cbn [mbind result_bind mret result_ret];
    unfold run, registry_tables, polygons_layer, points_layer;
    cbn [app]; rewrite <- ?(assoc_L (++)); cbn [app]; try reflexivity.
Qed.

Lemma parcel_bounds_polygons (parcels : list Parcel) b :
  Forall is_polygon parcels ->
  forEach parcel_bounds parcels b
  = accumulate_bounds (concat (map rings_of parcels)) b.
Proof.
  intros Hall. revert b. induction Hall as [|p parcels Hp _ IH]; intros b; [done|].
  cbn [forEach fold_left map concat]. unfold forEach in IH. rewrite IH.
  unfold accumulate_bounds. rewrite forEach_app.
  unfold parcel_bounds, rings_of, is_polygon in *.
  by destruct (geometry p).
Qed.

(** For parcels that all carry a polygon the layer is as specified:
    the rows in input order, each with the blob of the parcel's rings,
    and the bounds over the rings of all parcels in the registry row. *)
Lemma polygons_layer_of_polygons (parcels : list Parcel) timestamp :
  Forall is_polygon parcels ->
  let all_rings := concat (map rings_of parcels) in
  let b := accumulate_bounds all_rings initial_bounds in
  gpkg_statements parcels polygons_only timestamp
  = Ok (registry_tables ++ [CreatePolygonsTable]
        ++ map (fun p => InsertPolygon (id p) (polygon_blob (rings_of p))) parcels
        ++ [InsertContents "polygons" "features" "polygons" "Obrysy działek"
              timestamp (minX b) (minY b) (maxX b) (maxY b) 4326;
            InsertGeometryColumns "polygons" "geom" "POLYGON" 4326 0 0])
  /\ (Forall no_nan (concat all_rings) ->
      is_minimum (minX b) (all_lng all_rings)
      /\ is_maximum (maxX b) (all_lng all_rings)
      /\ is_minimum (minY b) (all_lat all_rings)
      /\ is_maximum (maxY b) (all_lat all_rings)).
Proof.
  intros Hall all_rings b. split; [|apply accumulate_bounds_envelope].
  rewrite gpkg_statements_layers. cbn [polygons_only includePolygons includePoints].
  unfold polygons_layer. rewrite parcel_bounds_polygons by done.
  rewrite app_nil_r. do 4 f_equal.
  unfold polygon_rows. apply map_ext_Forall.
  eapply Forall_impl; [exact Hall|]. intros p Hp.
  unfold parcel_blob, rings_of, is_polygon in *. by destruct (geometry p).
Qed.


End GpkgExportFacts.

(** ** Vertex extraction *)

Module VerticesFacts.
Import Vertices Dedup.

Section FirstOccurrences.
Context {A K : Type} `{EqDecision K} (key : A -> K).

Lemma first_occurrences_subset (l : list A) x :
  x ∈ first_occurrences key l -> x ∈ l.
Proof.
  revert x. induction l as [|a l IH]; intros x; cbn; [done|].
  rewrite !elem_of_cons, list_elem_of_filter.
  intros [->|[_ Hin]]; [by left|right; by apply IH].
Qed.

(** The kept elements appear in the order of the input. *)
Lemma first_occurrences_sublist (l : list A) :
  sublist (first_occurrences key l) l.
Proof.
  induction l as [|a l IH]; cbn; [done|].
  apply sublist_skip. etrans; [apply sublist_filter|done].
Qed.

(** No key is kept twice. *)
Lemma first_occurrences_NoDup (l : list A) :
  NoDup (key <$> first_occurrences key l).
Proof.
  induction l as [|a l IH]; cbn [first_occurrences]; [constructor|].
  rewrite fmap_cons. constructor.
  - rewrite list_elem_of_fmap. intros (y & Hy & Hin).
    apply list_elem_of_filter in Hin as [Hne _]. congruence.
  - apply (sublist_NoDup _ (key <$> first_occurrences key l)); [exact IH|].
    apply fmap_sublist, sublist_filter.
Qed.

(** Every key of the input is kept. *)
Lemma first_occurrences_complete (l : list A) x :
  x ∈ l -> key x ∈ key <$> first_occurrences key l.
Proof.
  induction l as [|a l IH]; cbn [first_occurrences]; [by rewrite elem_of_nil|].
  rewrite elem_of_cons, fmap_cons, elem_of_cons.
  destruct (decide (key x = key a)) as [|Hne]; [by left|].
  intros [->|Hin]; [done|]. right.
  apply IH, list_elem_of_fmap in Hin as (y & Hy & Hin).
  apply list_elem_of_fmap. exists y. split; [done|].
  apply list_elem_of_filter. split; [congruence|done].
Qed.

(** The first occurrence wins: an element none of whose predecessors
    has its key is kept. *)
Lemma first_occurrences_first (l1 l2 : list A) x :
  key x ∉ key <$> l1 -> x ∈ first_occurrences key (l1 ++ x :: l2).
Proof.
  induction l1 as [|a l1 IH]; cbn [first_occurrences app];
    [intros _; by left|].
  rewrite fmap_cons, not_elem_of_cons. intros [Hne Hnin].
  right. apply list_elem_of_filter. auto.
Qed.
End FirstOccurrences.

Lemma filter_all {A} (P : A -> Prop) `{forall x, Decision (P x)} (l : list A) :
  (forall x, P x) -> filter P l = l.
Proof.
  intros HP. induction l as [|a l IH]; [done|].
  rewrite filter_cons_True by done. by rewrite IH.
Qed.

Section Extract.
Variable Number_toString : float -> string.

(** The loop of [addVertex] over [l], entered with the vertices [vs]
    and the keys [seen], appends the first occurrences in [l] of the
    keys not yet seen. *)
Lemma addVertex_loop (l : list Coordinate) vs (seen : gset string) :
  fst (forEach (addVertex Number_toString) l (vs, seen))
  = vs ++ filter (fun c => vertex_key Number_toString c ∉ seen)
            (first_occurrences (vertex_key Number_toString) l).
Proof.
  revert vs seen. induction l as [|x l IH]; intros vs seen.
  - cbn. by rewrite app_nil_r.
  - cbn [forEach fold_left first_occurrences]. unfold addVertex at 2.
    destruct (decide (vertex_key Number_toString x ∈ seen)) as [Hin|Hnin].
    + unfold forEach in IH. rewrite IH.
      rewrite filter_cons_False by (intros Hn; by apply Hn).
      rewrite list_filter_filter. f_equal. apply list_filter_iff.
      intros y. split; [|tauto]. intros Hy. split; [done|congruence].
    + unfold forEach in IH. rewrite IH.
      rewrite filter_cons_True by done.
      rewrite list_filter_filter, <- (assoc_L (++)). cbn [app]. do 2 f_equal.
      apply list_filter_iff. intros y.
      rewrite not_elem_of_union, not_elem_of_singleton. tauto.
Qed.

Lemma slice_0_m1_removelast {A} (l : list A) : slice_0_m1 l = removelast l.
Proof.
  unfold slice_0_m1. induction l as [|a [|b l] IH]; [done..|].
  cbn [length removelast] in *. rewrite <- IH.
  replace (S (S (length l)) - 1)%nat with (S (S (length l) - 1))%nat by lia.
  done.
Qed.

Lemma forEachM_add_outer_ring (polygons : list (list Ring)) st :
  Forall (fun polygon => polygon <> []) polygons ->
  forEachM (add_outer_ring Number_toString) polygons st
  = Ok (forEach (addVertex Number_toString)
          (concat (open_outer_ring <$> polygons)) st).
Proof.
  intros Hall. revert st. induction Hall as [|p ps Hp _ IH]; intros st; [done|].
  destruct p as [|outer holes]; [done|].
  cbn [forEachM fmap list_fmap concat].
  change (add_outer_ring Number_toString (outer :: holes) st)
    with (Ok (forEach (addVertex Number_toString) (slice_0_m1 outer) st)).
  cbn [mbind result_bind].
  rewrite IH, GpkgFacts.forEach_app. unfold open_outer_ring.
  cbn [hd]. by rewrite slice_0_m1_removelast.
Qed.

(** C5: on a polygon, [extractVertices] returns the first ring without
    its last element, deduplicated by the key of the two coordinates
    rounded to 8 decimals, the first occurrence of each key kept and the
    order preserved; the ring [(0,0), (0,1), (1,1), (0,0)] gives
    exactly [(0,0), (0,1), (1,1)]. *)
Theorem extractVertices_polygon (outer : Ring) (holes : list Ring) :
  extractVertices Number_toString (Polygon (outer :: holes))
  = Ok (first_occurrences (vertex_key Number_toString) (removelast outer))
  /\ extractVertices Number_toString (Polygon (unit_triangle :: holes))
     = Ok [Layout.degrees 0 0; Layout.degrees 0 1; Layout.degrees 1 1].
Proof.
  assert (forall ring,
             extractVertices Number_toString (Polygon (ring :: holes))
             = Ok (first_occurrences (vertex_key Number_toString) (removelast ring))) as Hgen.
  { intros ring. unfold extractVertices, add_outer_ring.
    cbn [lookup list_lookup mbind result_bind mret result_ret].
    rewrite addVertex_loop, slice_0_m1_removelast. cbn [app]. f_equal.
    apply filter_all. intros y. apply not_elem_of_empty. }
  split; [apply Hgen|]. rewrite Hgen. vm_compute. reflexivity.
Qed.

(** C4, as the code has it: on a multipolygon, [extractVertices] takes
    the first ring of every polygon without its last element and
    deduplicates the concatenation of these as a whole, so a vertex
    shared by the outer rings of two polygons is returned once, where
    it first occurs. *)
Theorem extractVertices_multipolygon (polygons : list (list Ring)) :
  Forall (fun polygon => polygon <> []) polygons ->
  extractVertices Number_toString (MultiPolygon polygons)
  = Ok (first_occurrences (vertex_key Number_toString) (concat (open_outer_ring <$> polygons))).
Proof.
  intros Hall. unfold extractVertices.
  rewrite forEachM_add_outer_ring by done.
  cbn [mbind result_bind mret result_ret].
  rewrite addVertex_loop. cbn [app]. f_equal.
  apply filter_all. intros y. apply not_elem_of_empty.
Qed.
End Extract.

Lemma extractVertices_multipolygon_witness :
  Forall (fun polygon : list Ring => polygon <> []) [[unit_triangle]; [unit_triangle]]
  /\ extractVertices no_toString (MultiPolygon [[unit_triangle]; [unit_triangle]])
     = Ok [Layout.degrees 0 0; Layout.degrees 0 1; Layout.degrees 1 1].
Proof.
  assert (Forall (fun polygon : list Ring => polygon <> [])
            [[unit_triangle]; [unit_triangle]]) as Hall
    by (repeat constructor; discriminate).
  split; [exact Hall|].
  rewrite (extractVertices_multipolygon no_toString _ Hall).
  vm_compute. reflexivity.
Defined.

(** C4, as stated, fails: were the deduplication scoped to each polygon
    the triangle given twice would yield its three vertices twice. *)
Lemma extractVertices_not_per_polygon :
  extractVertices no_toString (MultiPolygon [[unit_triangle]; [unit_triangle]])
  <> Ok (concat ((fun polygon =>
                    first_occurrences (vertex_key no_toString)
                      (open_outer_ring polygon))
                 <$> [[unit_triangle]; [unit_triangle]])).
Proof. vm_compute. discriminate. Qed.

End VerticesFacts.

(** ** The GeoJSON exporter *)

Module GeojsonFacts.
Import Geojson GeojsonSpec.

Lemma forEach_push {A B} (g : A -> B) (l : list A) (array : list B) :
  forEach (fun x array => push (g x) array) l array = array ++ map g l.
Proof.
  revert array. induction l as [|x l IH]; intros array; cbn.
  - by rewrite app_nil_r.
  - unfold forEach in IH. rewrite IH. unfold push.
    by rewrite <- (assoc_L (++)).
Qed.

Lemma forEachIndex_push {A B} (g : A -> nat -> B) (l : list A) index
    (array : list B) :
  forEachIndex (fun x i array => push (g x i) array) index l array
  = array ++ imap (fun i x => g x (index + i)%nat) l.
Proof.
  revert index array. induction l as [|x l IH]; intros index array; cbn.
  - by rewrite app_nil_r.
  - rewrite IH. unfold push. rewrite <- (assoc_L (++)). cbn [app].
    rewrite Nat.add_0_r. do 2 f_equal.
    apply imap_ext. intros i y _. cbn. f_equal. lia.
Qed.

Lemma forEach_point_features (parcels : list Parcel) (array : list Feature) :
  forEach (fun parcel features =>
             forEachIndex (fun vertex index features =>
                             push (point_feature parcel vertex index) features)
                          0 (vertices parcel) features) parcels array
  = array ++ flat_map point_features parcels.
Proof.
  revert array. induction parcels as [|p parcels IH]; intros array; cbn.
  - by rewrite app_nil_r.
  - unfold forEach in IH. rewrite IH, forEachIndex_push.
    by rewrite <- (assoc_L (++)).
Qed.

Lemma features_both (parcels : list Parcel) :
  features (featureCollection parcels both_layers)
  = map polygon_feature parcels ++ flat_map point_features parcels.
Proof.
  unfold featureCollection, both_layers.
  cbn [includePolygons includePoints features].
  by rewrite forEach_push, forEach_point_features.
Qed.

Lemma length_point_features (parcels : list Parcel) :
  length (flat_map point_features parcels)
  = sum_list (map (fun p => length (vertices p)) parcels).
Proof.
  induction parcels as [|p parcels IH]; [done|].
  cbn [flat_map map sum_list sum_list_with].
  rewrite length_app, IH. unfold point_features. by rewrite length_imap.
Qed.

(** C7: with both layers requested the feature collection holds one
    polygon feature per parcel, with the properties [parcel_id] and
    [layer = "polygons"], followed by one point feature per vertex of
    each parcel, with [parcel_id], a [point_index] counted from 1 and
    [layer = "points"]; every polygon feature comes before every point
    feature; two parcels of 3 and 4 vertices give 9 features. *)
Theorem geojson_polygon_features_then_point_features
    (parcels : list Parcel)
    (id1 wkt1 id2 wkt2 : string) (g1 g2 : Geometry)
    (a b c d e f g : Coordinate) :
  let fs := features (featureCollection parcels both_layers) in
  fs = map (fun p =>
              {| properties := {| parcel_id := id p; point_index := None;
                                  layer := "polygons" |};
                 feature_geometry := geometryToGeojson (geometry p) |}) parcels
       ++ flat_map (fun p =>
            imap (fun i v =>
                    {| properties := {| parcel_id := id p;
                                        point_index := Some (Z.of_nat i + 1);
                                        layer := "points" |};
                       feature_geometry := GjPoint (lng v, lat v) |})
                 (vertices p)) parcels
  /\ (exists polygons points,
        fs = polygons ++ points
        /\ length polygons = length parcels
        /\ length points = sum_list (map (fun p => length (vertices p)) parcels)
        /\ Forall (fun x => layer (properties x) = "polygons") polygons
        /\ Forall (fun x => layer (properties x) = "points") points)
  /\ length (features (featureCollection
               [ {| id := id1; wkt := wkt1; geometry := g1;
                    vertices := [a; b; c] |};
                 {| id := id2; wkt := wkt2; geometry := g2;
                    vertices := [d; e; f; g] |} ] both_layers)) = 9%nat.
Proof.
  intros fs. subst fs. rewrite !features_both.
  split; [reflexivity|]. split; [|reflexivity].
  exists (map polygon_feature parcels), (flat_map point_features parcels).
  split; [done|]. split; [apply length_map|].
  split; [apply length_point_features|]. split.
  - apply Forall_map, Forall_forall. done.
  - apply Forall_flat_map, Forall_forall. intros p _.
    unfold point_features. apply Forall_forall. intros x Hx.
    apply elem_of_lookup_imap in Hx as (i & v & -> & _). done.
Qed.

End GeojsonFacts.

(** ** The KML exporter *)

Module KmlFacts.
Import Kml Xml.

Local Open Scope string_scope.

Lemma append_cons x (a b : string) : String x a +:+ b = String x (a +:+ b).
Proof. reflexivity. Qed.

Lemma append_assoc (a b c : string) : (a +:+ b) +:+ c = a +:+ (b +:+ c).
Proof.
  induction a as [|x a IH]; [done|]. rewrite !append_cons. by rewrite IH.
Qed.

Lemma append_nil_r (a : string) : a +:+ "" = a.
Proof. induction a as [|x a IH]; [done|]. rewrite append_cons. by rewrite IH. Qed.

Lemma replace_char_app c r (a b : string) :
  replace_char c r (a +:+ b) = replace_char c r a +:+ replace_char c r b.
Proof.
  induction a as [|x a IH]; [done|].
  rewrite append_cons. cbn [replace_char]. rewrite IH.
  destruct (Ascii.eqb x c); [|done].
  by rewrite append_assoc.
Qed.

(** The five replacements in sequence amount to replacing each
    character by its entity. *)
Lemma escape_sequence (s : string) :
  replace_char "'" "&apos;"
    (replace_char (ascii_of_nat 34) "&quot;"
       (replace_char ">" "&gt;"
          (replace_char "<" "&lt;" (replace_char "&" "&amp;" s))))
  = escape_chars s.
Proof.
  induction s as [|c s IH]; [done|].
  cbn [replace_char escape_chars]. unfold entity_of.
  destruct (Ascii.eqb_spec c "&") as [->|Hamp].
  { rewrite !replace_char_app, IH. reflexivity. }
  cbn [replace_char].
  destruct (Ascii.eqb_spec c "<") as [->|Hlt].
  { rewrite !replace_char_app, IH. reflexivity. }
  cbn [replace_char].
  destruct (Ascii.eqb_spec c ">") as [->|Hgt].
  { rewrite !replace_char_app, IH. reflexivity. }
  cbn [replace_char].
  destruct (Ascii.eqb_spec c (ascii_of_nat 34)) as [->|Hquot].
  { rewrite !replace_char_app, IH. reflexivity. }
  cbn [replace_char].
  destruct (Ascii.eqb_spec c "'") as [->|Hapos].
  { rewrite IH. reflexivity. }
  rewrite IH. reflexivity.
Qed.

Lemma escapeXml_escape_chars (s : string) : escapeXml s = escape_chars s.
Proof. destruct s; [done|]. apply escape_sequence. Qed.

(** *** Scanning *)

Lemma scan_app st (a b : string) : scan st (a +:+ b) = scan (scan st a) b.
Proof.
  revert st. induction a as [|x a IH]; intros st; [done|].
  rewrite append_cons. cbn [scan]. apply IH.
Qed.

Lemma plain_app (a b : string) : plain (a +:+ b) = plain a && plain b.
Proof.
  induction a as [|x a IH]; [done|].
  rewrite append_cons. cbn [plain]. rewrite IH. by rewrite andb_assoc.
Qed.

(** Text without markup leaves the scan where it is, inside an element. *)
Lemma scan_plain (s : string) name names r :
  plain s = true -> scan (inside (name :: names) r) s = inside (name :: names) r.
Proof.
  induction s as [|c s IH]; [done|]. cbn [plain scan].
  rewrite !andb_true_iff, !negb_true_iff. intros [[Hlt Hamp] Hs].
  unfold step at 1. cbn [at_mode inside open]. rewrite Hlt, Hamp. by apply IH.
Qed.

Lemma scan_entity_of (c : ascii) name names r :
  scan (inside (name :: names) r) (entity_of c) = inside (name :: names) r.
Proof.
  unfold entity_of.
  destruct (Ascii.eqb c "&") eqn:Hamp; [reflexivity|].
  destruct (Ascii.eqb c "<") eqn:Hlt; [reflexivity|].
  destruct (Ascii.eqb c ">"); [reflexivity|].
  destruct (Ascii.eqb c (ascii_of_nat 34)); [reflexivity|].
  destruct (Ascii.eqb c "'"); [reflexivity|].
  apply scan_plain. cbn [plain]. by rewrite Hlt, Hamp.
Qed.

(** Escaped text leaves the scan where it is, whatever the text was. *)
Lemma scan_escapeXml (s : string) name names r :
  scan (inside (name :: names) r) (escapeXml s) = inside (name :: names) r.
Proof.
  rewrite escapeXml_escape_chars.
  induction s as [|c s IH]; [done|].
  cbn [escape_chars]. by rewrite scan_app, scan_entity_of.
Qed.

Lemma neutral_app names r (a b : string) :
  neutral names r a -> neutral names r b -> neutral names r (a +:+ b).
Proof. unfold neutral. intros Ha Hb. by rewrite scan_app, Ha. Qed.

Lemma join_empty_cons (s : string) (parts : list string) :
  join "" (s :: parts) = s +:+ join "" parts.
Proof. destruct parts; [by rewrite append_nil_r|reflexivity]. Qed.

Lemma neutral_join names r (parts : list string) :
  Forall (neutral names r) parts -> neutral names r (join "" parts).
Proof.
  induction 1 as [|s parts Hs _ IH]; [done|].
  rewrite join_empty_cons. by apply neutral_app.
Qed.

Lemma forEach_append {A} (f : A -> string) (l : list A) (kml : string) :
  forEach (fun x kml => kml +:+ f x) l kml = kml +:+ join "" (map f l).
Proof.
  revert kml. induction l as [|x l IH]; intros kml.
  - cbn. by rewrite append_nil_r.
  - cbn [forEach fold_left map]. unfold forEach in IH. rewrite IH.
    by rewrite append_assoc, join_empty_cons.
Qed.

Lemma plain_digits (u : Decimal.uint) :
  plain (DecimalString.NilEmpty.string_of_uint u) = true.
Proof. induction u as [| u IH | u IH | u IH | u IH | u IH | u IH | u IH | u IH | u IH | u IH]; cbn; auto. Qed.

Lemma plain_decimal_of_nat (n : nat) : plain (decimal_of_nat n) = true.
Proof.
  unfold decimal_of_nat, decimal_of_N, DecimalString.NilZero.string_of_uint.
  destruct (N.to_uint (N.of_nat n)) eqn:E; try done;
    rewrite <- E; apply plain_digits.
Qed.

Lemma plain_join sep (parts : list string) :
  plain sep = true -> Forall (fun s => plain s = true) parts ->
  plain (join sep parts) = true.
Proof.
  intros Hsep. induction 1 as [|s parts Hs _ IH]; [done|].
  destruct parts as [|s' parts]; [done|].
  change (join sep (s :: s' :: parts))
    with (s +:+ sep +:+ join sep (s' :: parts)).
  by rewrite !plain_app, Hs, Hsep, IH.
Qed.

(** Evaluate the scan of the next literal piece of a template. *)
Ltac scan_literal :=
  match goal with
  | |- context [scan (inside ?o ?r) (String ?c ?s)] =>
      let v := eval vm_compute in (scan (inside o r) (String c s)) in
      lazymatch v with
      | Build_state Content ?o' ?r' =>
          change (scan (inside o r) (String c s)) with (inside o' r')
      | _ => change (scan (inside o r) (String c s)) with v
      end
  | |- context [scan (Build_state ?m ?o ?r) (String ?c ?s)] =>
      let v := eval vm_compute in (scan (Build_state m o r) (String c s)) in
      lazymatch v with
      | Build_state Content ?o' ?r' =>
          change (scan (Build_state m o r) (String c s)) with (inside o' r')
      | _ => change (scan (Build_state m o r) (String c s)) with v
      end
  end.

Ltac walk :=
  unfold dq;
  repeat first
    [ scan_literal
    | rewrite scan_escapeXml
    | rewrite scan_plain by (auto using plain_decimal_of_nat) ].

Lemma scan_outer_boundary (ring : string) name names r :
  plain ring = true ->
  scan (inside (name :: names) r) (outer_boundary ring)
  = inside ("Polygon" :: name :: names) r.
Proof.
  intros Hring. unfold outer_boundary. rewrite !scan_app. walk. reflexivity.
Qed.

Lemma neutral_inner_boundary (ring : string) name names r :
  plain ring = true -> neutral (name :: names) r (inner_boundary ring).
Proof.
  intros Hring. unfold neutral, inner_boundary. rewrite !scan_app. walk.
  reflexivity.
Qed.

Lemma neutral_generatePolygonKml (rings : list string) name names r :
  Forall (fun s => plain s = true) rings ->
  neutral (name :: names) r (generatePolygonKml rings).
Proof.
  intros Hrings. unfold neutral, generatePolygonKml.
  rewrite forEach_append, !scan_app.
  rewrite scan_outer_boundary by (destruct Hrings; done).
  rewrite neutral_join.
  - unfold polygon_close. walk. reflexivity.
  - apply Forall_map. destruct Hrings as [|s rings Hs Hrings]; [constructor|].
    cbn [tail]. eapply Forall_impl; [exact Hrings|].
    intros x Hx. by apply neutral_inner_boundary.
Qed.

Lemma neutral_generateMultiPolygonKml (polygons : list (list string))
    name names r :
  Forall (Forall (fun s => plain s = true)) polygons ->
  neutral (name :: names) r (generateMultiPolygonKml polygons).
Proof.
  intros Hpolygons. unfold neutral, generateMultiPolygonKml.
  rewrite forEach_append, !scan_app. walk.
  rewrite neutral_join.
  - walk. reflexivity.
  - apply Forall_map. eapply Forall_impl; [exact Hpolygons|].
    intros rings Hrings. by apply neutral_generatePolygonKml.
Qed.

Section Document.
Variable Number_toString : float -> string.
Hypothesis plain_numbers : forall x, plain (Number_toString x) = true.

Lemma plain_formatRing (ring : Ring) :
  plain (formatRing Number_toString ring) = true.
Proof.
  unfold formatRing. apply plain_join; [done|].
  apply Forall_map, Forall_forall. intros coord _.
  by rewrite !plain_app, !plain_numbers.
Qed.

Lemma neutral_generateGeometryKml (geometry : Geometry) name names r :
  neutral (name :: names) r
    (generateGeometryKml geometry
       (formatCoordinatesForKml Number_toString geometry)).
Proof.
  destruct geometry as [rings|polygons]; cbn [generateGeometryKml
    formatCoordinatesForKml].
  - apply neutral_generatePolygonKml, Forall_map, Forall_forall.
    intros ring _. apply plain_formatRing.
  - apply neutral_generateMultiPolygonKml, Forall_map, Forall_forall.
    intros polygon _. apply Forall_map, Forall_forall.
    intros ring _. apply plain_formatRing.
Qed.

Lemma neutral_polygon_placemark (parcel : Parcel) name names r :
  neutral (name :: names) r (polygon_placemark Number_toString parcel).
Proof.
  unfold neutral, polygon_placemark. rewrite !scan_app. walk.
  rewrite neutral_generateGeometryKml. walk. reflexivity.
Qed.

Lemma neutral_point_placemark (parcel : Parcel) point index name names r :
  neutral (name :: names) r
    (point_placemark Number_toString parcel point index).
Proof.
  unfold neutral, point_placemark. rewrite !scan_app. walk. reflexivity.
Qed.

Lemma neutral_point_placemarks (parcel : Parcel) (vs : list Coordinate) index
    name names r :
  Forall (neutral (name :: names) r)
    (mapIndex (point_placemark Number_toString parcel) index vs).
Proof.
  revert index. induction vs as [|v vs IH]; intros index; cbn [mapIndex];
    constructor; [apply neutral_point_placemark|apply IH].
Qed.

(** Each folder leaves the scan inside the document element. *)
Lemma neutral_polygons_folder (parcels : list Parcel) name names r :
  neutral (name :: names) r
    (polygons_folder (length parcels)
       (join "" (map (polygon_placemark Number_toString) parcels))).
Proof.
  unfold neutral, polygons_folder. rewrite !scan_app. walk.
  rewrite neutral_join; [walk; reflexivity|].
  apply Forall_map, Forall_forall. intros p _. apply neutral_polygon_placemark.
Qed.

Lemma neutral_points_folder (parcels : list Parcel) name names r :
  neutral (name :: names) r
    (points_folder (length parcels)
       (join "" (flat_map (fun parcel =>
                             mapIndex (point_placemark Number_toString parcel)
                                      0 (vertices parcel)) parcels))).
Proof.
  unfold neutral, points_folder. rewrite !scan_app. walk.
  rewrite neutral_join; [walk; reflexivity|].
  apply Forall_flat_map, Forall_forall. intros p _.
  apply neutral_point_placemarks.
Qed.

(** The markup of every generated document is balanced. *)
Lemma generateKmlWithLayers_well_formed (parcels : list Parcel)
    (options : ExportOptions) (timestamp : string) :
  plain timestamp = true ->
  well_formed (generateKmlWithLayers Number_toString parcels options timestamp).
Proof.
  intros Ht. unfold well_formed, generateKmlWithLayers.
  rewrite !scan_app. unfold document_head. rewrite !scan_app.
  change start with (inside [] 0). walk.
  unfold document_tail. rewrite !scan_app. walk.
  destruct (includePolygons options), (includePoints options);
    rewrite ?scan_app; cbn [scan];
    rewrite ?neutral_polygons_folder, ?neutral_points_folder;
    walk; reflexivity.
Qed.
End Document.



End KmlFacts.

(** ** Repeated exports *)

Module RepeatFacts.
Import Layout.

Lemma with_last_change_polygon_rows t (parcels : list Parcel) :
  map (with_last_change t) (polygon_rows parcels) = polygon_rows parcels.
Proof. unfold polygon_rows. rewrite map_map. by apply map_ext. Qed.

Lemma with_last_change_point_rows t (parcels : list Parcel) :
  map (with_last_change t) (point_rows parcels) = point_rows parcels.
Proof.
  unfold point_rows. induction parcels as [|p parcels IH]; [done|].
  cbn [flat_map]. rewrite map_app, IH. f_equal.
  generalize 0%nat as k. intros k.
  change (map (with_last_change t)) with (fmap (M:=list) (with_last_change t)).
  by rewrite fmap_imap.
Qed.

Lemma with_last_change_layers t t' (parcels : list Parcel) options :
  map (with_last_change t)
    (registry_tables
     ++ (if includePolygons options then polygons_layer parcels t' else [])
     ++ (if includePoints options then points_layer parcels t' else []))
  = registry_tables
    ++ (if includePolygons options then polygons_layer parcels t else [])
    ++ (if includePoints options then points_layer parcels t else []).
Proof.
  rewrite !map_app.
  destruct (includePolygons options), (includePoints options);
    unfold polygons_layer, points_layer;
    rewrite ?map_app, ?with_last_change_polygon_rows,
      ?with_last_change_point_rows; reflexivity.
Qed.


End RepeatFacts.

(** ** The WKT decoder *)

Module WktFacts.
Import Str Regex NumberParse Wkt WktSpec.

Lemma mapM_Ok {A B} (f : A -> result B) (l : list A) (r : list B) :
  mapM f l = Ok r -> Forall2 (fun x y => f x = Ok y) l r.
Proof.
  revert r. induction l as [|x l IH]; intros r; cbn.
  - intros [= <-]. constructor.
  - destruct (f x) as [y|e] eqn:Hx; cbn; [|done].
    destruct (mapM f l) as [k|e]; cbn; [|done].
    intros [= <-]. constructor; [done|by apply IH].
Qed.

Section Decode.
Variable toWGS84 : JsValue -> JsValue -> result Coordinate.

Lemma parse_pair_Ok (pair : string) (coord : Coordinate) :
  parse_pair toWGS84 pair = Ok coord -> pair_decoded toWGS84 pair coord.
Proof.
  unfold parse_pair, pair_decoded.
  set (numbers := map Number_of_string (split spaces (trim pair))).
  destruct (numbers !! 0%nat) as [x|], (numbers !! 1%nat) as [y|];
    cbn [Number_isNaN];
    repeat match goal with
           | |- context [is_nan ?v] => destruct (is_nan v) eqn:?
           end; cbn; try done;
    intros Hproj; repeat split; intros; simplify_eq; done.
Qed.

Lemma parseCoordinatePairs_Ok (ringString : string) (ring : Ring) :
  parseCoordinatePairs toWGS84 ringString = Ok ring ->
  ring_decoded toWGS84 ringString ring.
Proof.
  unfold parseCoordinatePairs, ring_decoded. intros H%mapM_Ok.
  eapply Forall2_impl; [exact H|]. intros. by apply parse_pair_Ok.
Qed.

Lemma parseRings_Ok (content : string) (rings : list Ring) :
  parseRings toWGS84 content = Ok rings -> rings_decoded toWGS84 content rings.
Proof.
  unfold parseRings, rings_decoded. intros H%mapM_Ok.
  eapply Forall2_impl; [exact H|]. intros. by apply parseCoordinatePairs_Ok.
Qed.

(** A decode that succeeds has decoded everything. *)
Lemma parseWkt_Ok (wkt : string) (geometry : Geometry) :
  parseWkt toWGS84 (JsString wkt) = Ok geometry -> decoded toWGS84 wkt geometry.
Proof.
  unfold parseWkt, decoded. destruct wkt as [|c wkt]; [done|].
  set (cleaned := removeSridPrefix (String c wkt)).
  unfold detectGeometryType.
  destruct (startsWith (toUpperCase cleaned) "MULTIPOLYGON") eqn:Hmulti;
    cbn [mbind result_bind].
  - intros Hparse. split; [done|]. left. split; [done|].
    unfold parseMultiPolygon in Hparse.
    destruct (search multiPolygonPattern cleaned) as [[content|]|]; [|done..].
    destruct (mapM (parseRings toWGS84) (split polygonSeparator content))
      as [polygons|e] eqn:Hmap; cbn in Hparse; [|done].
    injection Hparse as <-. exists content, polygons.
    split; [done|]. split; [done|].
    apply mapM_Ok in Hmap. eapply Forall2_impl; [exact Hmap|].
    intros. by apply parseRings_Ok.
  - destruct (startsWith (toUpperCase cleaned) "POLYGON") eqn:Hpoly;
      cbn [mbind result_bind]; [|done].
    intros Hparse. split; [done|]. right. split; [done|]. split; [done|].
    unfold parsePolygon in Hparse.
    destruct (search polygonPattern cleaned) as [[content|]|]; [|done..].
    destruct (parseRings toWGS84 content) as [rings|e] eqn:Hrings;
      cbn in Hparse; [|done].
    injection Hparse as <-. exists content, rings.
    split; [done|]. split; [done|]. by apply parseRings_Ok.
Qed.
End Decode.

(** C6, as the code has it: the decoder throws on anything that is
    not a non-empty string and on a text that, once an [SRID=<n>;]
    prefix is removed and the rest trimmed, does not start with POLYGON
    or MULTIPOLYGON in any case, as on ["LINESTRING(0 0, 1 1)"]; and when
    it returns a geometry, the text held a match of the keyword's
    pattern, every ring and every pair of the captured content was
    decoded, and in every pair the first two tokens were numbers.
    Parentheses inside the captured content are not checked. *)
Theorem parseWkt_throws_or_decodes
    (toWGS84 : JsValue -> JsValue -> result Coordinate)
    (v : JsValue) (geometry : Geometry) :
  parseWkt toWGS84 JsUndefined
  = Throw (Error "Invalid WKT: input must be a non-empty string")
  /\ (forall x, parseWkt toWGS84 (JsNumber x)
                = Throw (Error "Invalid WKT: input must be a non-empty string"))
  /\ parseWkt toWGS84 (JsString "")
     = Throw (Error "Invalid WKT: input must be a non-empty string")
  /\ (forall c wkt,
        let cleaned := removeSridPrefix (String c wkt) in
        startsWith (toUpperCase cleaned) "MULTIPOLYGON" = false ->
        startsWith (toUpperCase cleaned) "POLYGON" = false ->
        parseWkt toWGS84 (JsString (String c wkt))
        = Throw (Error "Unknown or unsupported WKT geometry type"))
  /\ parseWkt toWGS84 (JsString "LINESTRING(0 0, 1 1)")
     = Throw (Error "Unknown or unsupported WKT geometry type")
  /\ (parseWkt toWGS84 v = Ok geometry ->
      exists wkt, v = JsString wkt /\ decoded toWGS84 wkt geometry).
Proof.
  split; [reflexivity|]. split; [reflexivity|]. split; [reflexivity|].
  split.
  { intros c wkt cleaned Hmulti Hpoly. unfold parseWkt, detectGeometryType.
    fold cleaned. by rewrite Hmulti, Hpoly. }
  split; [reflexivity|].
  intros Hparse. destruct v as [|x|wkt]; [done..|].
  exists wkt. split; [done|]. by apply parseWkt_Ok.
Qed.

Lemma parseWkt_throws_or_decodes_witness :
  (startsWith (toUpperCase (removeSridPrefix "LINESTRING(0 0, 1 1)"))
     "MULTIPOLYGON" = false
   /\ startsWith (toUpperCase (removeSridPrefix "LINESTRING(0 0, 1 1)"))
        "POLYGON" = false
   /\ parseWkt projection_stub (JsString "LINESTRING(0 0, 1 1)")
      = Throw (Error "Unknown or unsupported WKT geometry type"))
  /\ parseWkt projection_stub (JsString "POLYGON((0 0, 4 0, 4 4, 0 0))")
     = Ok (Polygon [[stub_coordinate 0 0; stub_coordinate 4 0;
                     stub_coordinate 4 4; stub_coordinate 0 0]])
  /\ exists wkt,
       JsString "POLYGON((0 0, 4 0, 4 4, 0 0))" = JsString wkt
       /\ decoded projection_stub wkt
            (Polygon [[stub_coordinate 0 0; stub_coordinate 4 0;
                       stub_coordinate 4 4; stub_coordinate 0 0]]).
Proof.
  assert (parseWkt projection_stub (JsString "POLYGON((0 0, 4 0, 4 4, 0 0))")
          = Ok (Polygon [[stub_coordinate 0 0; stub_coordinate 4 0;
                          stub_coordinate 4 4; stub_coordinate 0 0]])) as Hparse
    by (vm_compute; reflexivity).
  destruct (parseWkt_throws_or_decodes projection_stub
              (JsString "POLYGON((0 0, 4 0, 4 4, 0 0))")
              (Polygon [[stub_coordinate 0 0; stub_coordinate 4 0;
                         stub_coordinate 4 4; stub_coordinate 0 0]]))
    as (_ & _ & _ & Hkeyword & _ & Hdecoded).
  split.
  - split; [reflexivity|]. split; [reflexivity|].
    exact (Hkeyword "L"%char "INESTRING(0 0, 1 1)" eq_refl eq_refl).
  - split; [exact Hparse|]. exact (Hdecoded Hparse).
Defined.

(** C6, as stated, fails: a text whose parentheses match no nesting,
    five opened and three closed, is decoded. *)
Lemma parseWkt_accepts_unbalanced_parentheses :
  parseWkt projection_stub (JsString "POLYGON(((((1 2)))")
  = Ok (Polygon [[stub_coordinate 1 2]])
  /\ ~ exists e, parseWkt projection_stub (JsString "POLYGON(((((1 2)))")
              = Throw e.
Proof.
  assert (parseWkt projection_stub (JsString "POLYGON(((((1 2)))")
          = Ok (Polygon [[stub_coordinate 1 2]])) as Hparse
    by (vm_compute; reflexivity).
  split; [exact Hparse|]. intros [e He]. rewrite Hparse in He. discriminate.
Qed.

(** A pair of one token passes the check of the decoder, which looks
    for NaN only: the projection is called with [undefined] for [y]. *)
Lemma parseWkt_single_token_pair
    (toWGS84 : JsValue -> JsValue -> result Coordinate) :
  parseWkt toWGS84 (JsString "POLYGON((1 2, 3))")
  = (first ← toWGS84 (JsNumber (Number_of_Z 1)) (JsNumber (Number_of_Z 2));
     second ← toWGS84 (JsNumber (Number_of_Z 3)) JsUndefined;
     mret (Polygon [[first; second]])).
Proof.
  unfold parseWkt.
  change (removeSridPrefix "POLYGON((1 2, 3))") with "POLYGON((1 2, 3))".
  change (detectGeometryType "POLYGON((1 2, 3))") with (Ok POLYGON).
  cbn [mbind result_bind]. unfold parsePolygon.
  change (search polygonPattern "POLYGON((1 2, 3))") with (Some (Some "1 2, 3")).
  unfold parseRings.
  change (split ringSeparator "1 2, 3") with ["1 2, 3"].
  cbn [mapM]. unfold parseCoordinatePairs.
  change (split (char ",") (trim (remove_all is_paren "1 2, 3")))
    with ["1 2"; " 3"].
  cbn [mapM]. unfold parse_pair.
  change (map Number_of_string (split spaces (trim "1 2")))
    with [Number_of_Z 1; Number_of_Z 2].
  change (map Number_of_string (split spaces (trim " 3")))
    with [Number_of_Z 3].
  cbn [lookup list_lookup Number_isNaN].
  change (is_nan (Number_of_Z 1)) with false.
  change (is_nan (Number_of_Z 2)) with false.
  change (is_nan (Number_of_Z 3)) with false.
  cbn [orb].
  destruct (toWGS84 (JsNumber (Number_of_Z 1)) (JsNumber (Number_of_Z 2)));
    [|reflexivity].
  destruct (toWGS84 (JsNumber (Number_of_Z 3)) JsUndefined); reflexivity.
Qed.

(** C9: with the projection stub the square with an SRID prefix decodes
    to a polygon of one ring of five coordinates, the first of which is
    the last. *)
Theorem parseWkt_square :
  exists ring : Ring,
    parseWkt projection_stub
      (JsString "SRID=2180;POLYGON((500000 300000, 500100 300000, 500100 300100, 500000 300100, 500000 300000))")
    = Ok (Polygon [ring])
    /\ ring = [stub_coordinate 500000 300000; stub_coordinate 500100 300000;
               stub_coordinate 500100 300100; stub_coordinate 500000 300100;
               stub_coordinate 500000 300000]
    /\ length ring = 5%nat
    /\ head ring = last ring.
Proof.
  eexists. split; [vm_compute; reflexivity|].
  split; [vm_compute; reflexivity|]. split; reflexivity.
Qed.

End WktFacts.

(** * The blobs can be read back *)

Module WkbFacts.
Import Gpkg Layout Wkb BufferFacts GpkgFacts.

Lemma digits2_pos_size m : digits2_pos m = Pos.size m.
Proof. induction m as [m IH|m IH|]; simpl; by rewrite ?IH. Qed.

(** The mantissa of a binary64 value has at most 53 bits; with exactly 53
    the exponent is free, with fewer it is the least one. *)
Lemma binary64_finite s m e :
  binary64 (S754_finite s m e) ->
  Z.pos m < 2 ^ 53 /\ -1074 <= e <= 971 /\ (Z.pos m < 2 ^ 52 -> e = -1074).
Proof.
  unfold binary64, valid_binary, bounded, canonical_mantissa, fexp, emin.
  rewrite digits2_pos_size. intros H.
  apply andb_prop in H as [Hc He].
  apply Z.leb_le in He.
  apply Z.eqb_eq in Hc.
  pose proof (Pos.size_gt m) as Hgt.
  pose proof (Pos.size_le m) as Hle.
  apply Pos2Z.pos_lt_pos in Hgt. apply Pos2Z.pos_le_pos in Hle.
  rewrite Pos2Z.inj_pow in Hgt, Hle.
  rewrite Pos2Z.inj_xO in Hle.
  set (d := Z.pos (Pos.size m)) in *.
  assert (0 < d) by (unfold d; lia).
  assert (Hd : d <= 53) by lia.
  assert (H53 : 2 ^ d <= 2 ^ 53) by (apply Z.pow_le_mono_r; lia).
  split; [lia|]. split; [lia|].
  intros Hlt.
  destruct (Z.eq_dec d 53) as [->|Hne]; [|lia].
  change (2 ^ 53) with (2 * 2 ^ 52) in Hle. lia.
Qed.

Lemma float64_bits_range x : binary64 x -> 0 <= float64_bits x < 2 ^ 64.
Proof.
  destruct x as [s|s| |s m e]; intros Hx.
  - destruct s; vm_compute; split; congruence.
  - destruct s; vm_compute; split; congruence.
  - vm_compute; split; congruence.
  - apply binary64_finite in Hx as (Hm & He & _).
    unfold float64_bits.
    assert (0 <= sign_bit s <= 2 ^ 63) by (destruct s; vm_compute; split; congruence).
    destruct (Z.leb_spec (2 ^ 52) (Z.pos m)); lia.
Qed.

(** The pattern determines the Number. *)
Lemma float64_of_bits_bits x : binary64 x -> float64_of_bits (float64_bits x) = x.
Proof.
  destruct x as [s|s| |s m e]; intros Hx.
  - destruct s; reflexivity.
  - destruct s; reflexivity.
  - reflexivity.
  - apply binary64_finite in Hx as (Hm & He & Hsub).
    unfold float64_bits, float64_of_bits.
    destruct (Z.leb_spec (2 ^ 52) (Z.pos m)) as [Hn|Hn].
    + set (v := sign_bit s + ((e + 1075) * 2 ^ 52 + (Z.pos m - 2 ^ 52))).
      assert (Hs : (2 ^ 63 <=? v) = s).
      { unfold v. destruct s; cbn [sign_bit];
          [apply Z.leb_le|apply Z.leb_gt]; lia. }
      assert (He' : (v / 2 ^ 52) mod 2 ^ 11 = e + 1075).
      { replace (v / 2 ^ 52) with ((if s then 2 ^ 11 else 0) + (e + 1075)).
        - destruct s.
          + rewrite <- (Z.mul_1_l (2 ^ 11)) at 1.
            rewrite Z.add_comm, Z.mod_add by lia. apply Z.mod_small. lia.
          + apply Z.mod_small. lia.
        - apply (Z.div_unique _ _ _ (Z.pos m - 2 ^ 52)); [lia|].
          unfold v. destruct s; cbn [sign_bit]; lia. }
      assert (Hf : v mod 2 ^ 52 = Z.pos m - 2 ^ 52).
      { symmetry.
        apply (Z.mod_unique _ _ ((if s then 2 ^ 11 else 0) + (e + 1075))); [lia|].
        unfold v. destruct s; cbn [sign_bit]; lia. }
      rewrite Hs, He', Hf.
      destruct (Z.eqb_spec (e + 1075) 2047); [lia|].
      destruct (Z.eqb_spec (e + 1075) 0); [lia|].
      replace (Z.pos m - 2 ^ 52 + 2 ^ 52) with (Z.pos m) by lia.
      f_equal. lia.
    + specialize (Hsub Hn). subst e.
      set (v := sign_bit s + Z.pos m).
      assert (Hs : (2 ^ 63 <=? v) = s).
      { unfold v. destruct s; cbn [sign_bit];
          [apply Z.leb_le|apply Z.leb_gt]; lia. }
      assert (He' : (v / 2 ^ 52) mod 2 ^ 11 = 0).
      { replace (v / 2 ^ 52) with (if s then 2 ^ 11 else 0).
        - destruct s; reflexivity.
        - apply (Z.div_unique _ _ _ (Z.pos m)); [lia|].
          unfold v. destruct s; cbn [sign_bit]; lia. }
      assert (Hf : v mod 2 ^ 52 = Z.pos m).
      { symmetry. apply (Z.mod_unique _ _ (if s then 2 ^ 11 else 0)); [lia|].
        unfold v. destruct s; cbn [sign_bit]; lia. }
      rewrite Hs, He', Hf. reflexivity.
Qed.

Lemma read_le_app n v rest :
  0 <= v < 256 ^ Z.of_nat n ->
  read_le n (le_bytes n v ++ rest) = Some (v, rest).
Proof.
  intros Hv. unfold read_le.
  rewrite length_app, length_le_bytes.
  destruct (Nat.leb_spec n (n + length rest)) as [_|]; [|lia].
  rewrite <- (length_le_bytes n v) at 1 3.
  rewrite take_app_length, drop_app_length, le_value_le_bytes.
  by rewrite Z.mod_small.
Qed.

Lemma read_uint32_app v rest :
  0 <= v < 2 ^ 32 -> read_le 4 (uint32_le v ++ rest) = Some (v, rest).
Proof.
  intros Hv. unfold uint32_le. rewrite Z.mod_small by done.
  apply read_le_app. change (256 ^ Z.of_nat 4) with (2 ^ 32). done.
Qed.

Lemma read_float64_app x rest :
  binary64 x -> read_float64 (float64_le x ++ rest) = Some (x, rest).
Proof.
  intros Hx. unfold read_float64, float64_le.
  rewrite read_le_app.
  - by rewrite float64_of_bits_bits.
  - change (256 ^ Z.of_nat 8) with (2 ^ 64). by apply float64_bits_range.
Qed.

Lemma read_coord_app coord rest :
  stored coord -> read_coord (coord_layout coord ++ rest) = Some (coord, rest).
Proof.
  intros [Hlat Hlng]. unfold read_coord, coord_layout.
  cbn [lng_of lat_of Coordinate_LngLat].
  rewrite <- (assoc_L (++)), read_float64_app by done.
  rewrite read_float64_app by done. by destruct coord.
Qed.

Lemma read_many_app {A} (read : list Z -> option (A * list Z))
    (layout : A -> list Z) (P : A -> Prop) :
  (forall a rest, P a -> read (layout a ++ rest) = Some (a, rest)) ->
  forall l rest,
    Forall P l ->
    read_many read (length l) (flat_map layout l ++ rest) = Some (l, rest).
Proof.
  intros Hread l. induction l as [|a l IH]; intros rest Hl; [done|].
  apply Forall_cons in Hl as [Ha Hl].
  cbn [length flat_map read_many].
  rewrite <- (assoc_L (++)), Hread by done. by rewrite IH.
Qed.

Lemma read_ring_app (ring : Ring) rest :
  fits_uint32 ring /\ Forall stored ring ->
  read_ring (ring_layout ring ++ rest) = Some (ring, rest).
Proof.
  intros [Hfit Hring]. unfold read_ring, ring_layout.
  rewrite <- (assoc_L (++)), read_uint32_app by (split; [lia|exact Hfit]).
  rewrite Nat2Z.id.
  by apply (read_many_app read_coord coord_layout stored read_coord_app).
Qed.

Lemma read_polygon_app (rings : list Ring) rest :
  fits_uint32 rings ->
  Forall (fun ring => fits_uint32 ring /\ Forall stored ring) rings ->
  read_polygon (polygon_layout rings ++ rest) = Some (rings, rest).
Proof.
  intros Hfit Hrings. unfold read_polygon, polygon_layout.
  cbn [app]. rewrite <- !(assoc_L (++)).
  rewrite (read_uint32_app 3) by lia.
  rewrite read_uint32_app by (split; [lia|exact Hfit]).
  rewrite Nat2Z.id.
  by apply (read_many_app read_ring ring_layout _ read_ring_app).
Qed.

Lemma bytes_le_bytes n v : Forall (fun b => 0 <= b < 256) (le_bytes n v).
Proof.
  revert v. induction n as [|n IH]; intros v; cbn [le_bytes]; constructor.
  - apply Z.mod_pos_bound. lia.
  - apply IH.
Qed.

Lemma bytes_header_layout srsId envelope :
  Forall (fun b => 0 <= b < 256) (header_layout srsId envelope).
Proof.
  unfold header_layout, int32_le, float64_le.
  destruct envelope; repeat (apply Forall_app; split);
    try apply bytes_le_bytes; repeat constructor; lia.
Qed.

Lemma bytes_polygon_layout (rings : list Ring) :
  Forall (fun b => 0 <= b < 256) (polygon_layout rings).
Proof.
  unfold polygon_layout, uint32_le.
  repeat (apply Forall_app; split); try apply bytes_le_bytes.
  - repeat constructor; lia.
  - apply Forall_flat_map, Forall_forall. intros ring _.
    unfold ring_layout, uint32_le. apply Forall_app; split;
      [apply bytes_le_bytes|].
    apply Forall_flat_map, Forall_forall. intros coord _.
    unfold coord_layout, float64_le.
    apply Forall_app; split; apply bytes_le_bytes.
Qed.

(** X1.  A point blob always has 61 bytes; a polygon blob has 49 bytes
    and then, for each ring, 4 bytes and 16 for each of its coordinates.
    Neither encoder fails, and every element written is a byte. *)
Theorem gpb_blob_sizes :
  (forall (lng lat : float) (srsId : Z),
      exists blob, createPointGpb lng lat srsId = Ok blob
                   /\ length blob = 61%nat
                   /\ Forall (fun b => 0 <= b < 256) blob)
  /\ (forall (rings : list Ring) (srsId : Z),
      exists blob, createPolygonGpb rings srsId = Ok blob
                   /\ length blob
                      = (49 + sum_list (map (fun ring => 4 + 16 * length ring)
                                          rings))%nat
                   /\ Forall (fun b => 0 <= b < 256) blob).
Proof.
  split.
  - intros lng lat srsId. eexists. split; [apply createPointGpb_layout|].
    split.
    + rewrite length_app, length_header_layout. unfold point_layout.
      rewrite !length_app, length_uint32_le, !length_float64_le. done.
    + apply Forall_app; split; [apply bytes_header_layout|].
      unfold point_layout, uint32_le, float64_le.
      repeat (apply Forall_app; split); try apply bytes_le_bytes.
      repeat constructor; lia.
  - intros rings srsId. eexists. split; [apply createPolygonGpb_layout|].
    split.
    + rewrite length_app, length_header_layout. unfold polygon_layout.
      rewrite !length_app, !length_uint32_le, length_flat_ring_layout.
      unfold rings_size. cbn [length].
      rewrite (map_ext (fun ring : Ring => (4 + 16 * length ring)%nat)
                       (fun ring : Ring => (4 + length ring * 16)%nat))
        by (intros; lia).
      unfold Ring. lia.
    + apply Forall_app; split;
        [apply bytes_header_layout|apply bytes_polygon_layout].
Qed.

(** X2.  The polygon blob determines the rings: passing over the 40
    bytes of the header and reading the payload field by field gives
    the rings back, each Number bit for bit, with no byte left. *)
Theorem createPolygonGpb_read_back (rings : list Ring) (srsId : Z) :
  fits_uint32 rings ->
  Forall (fun ring => fits_uint32 ring /\ Forall stored ring) rings ->
  exists blob,
    createPolygonGpb rings srsId = Ok blob
    /\ read_blob blob = Some (rings, []).
Proof.
  intros Hfit Hrings. eexists. split; [apply createPolygonGpb_layout|].
  unfold read_blob.
  rewrite <- (length_header_layout srsId
                (Some (accumulate_bounds rings initial_bounds))).
  rewrite drop_app_length.
  rewrite <- (app_nil_r (polygon_layout rings)).
  by apply read_polygon_app.
Qed.

Lemma createPolygonGpb_read_back_witness :
  exists blob,
    createPolygonGpb square_with_hole 4326 = Ok blob
    /\ read_blob blob = Some (square_with_hole, []).
Proof.
  apply (createPolygonGpb_read_back square_with_hole 4326).
  - vm_compute. reflexivity.
  - repeat constructor; vm_compute; reflexivity.
Defined.

(** X3.  Two polygons with the same blob are the same polygon. *)
Theorem createPolygonGpb_injective (rings rings' : list Ring) (srsId : Z) :
  fits_uint32 rings ->
  Forall (fun ring => fits_uint32 ring /\ Forall stored ring) rings ->
  fits_uint32 rings' ->
  Forall (fun ring => fits_uint32 ring /\ Forall stored ring) rings' ->
  createPolygonGpb rings srsId = createPolygonGpb rings' srsId ->
  rings = rings'.
Proof.
  intros Hfit Hrings Hfit' Hrings' Heq.
  rewrite !createPolygonGpb_layout in Heq.
  apply (f_equal (fun r => match r with
                            | Ok blob => drop 40 blob
                            | Throw _ => []
                            end)) in Heq.
  cbv beta iota in Heq.
  rewrite <- (length_header_layout srsId
                (Some (accumulate_bounds rings initial_bounds))) in Heq at 1.
  rewrite <- (length_header_layout srsId
                (Some (accumulate_bounds rings' initial_bounds))) in Heq.
  rewrite !drop_app_length in Heq.
  pose proof (read_polygon_app rings [] Hfit Hrings) as H1.
  pose proof (read_polygon_app rings' [] Hfit' Hrings') as H2.
  rewrite !app_nil_r in H1, H2. congruence.
Qed.

Lemma createPolygonGpb_injective_witness :
  square_with_hole = [removelast (hd [] square_with_hole)
                      ++ [degrees 0 0]; nth 1 square_with_hole []].
Proof.
  apply (createPolygonGpb_injective _ _ 4326).
  - vm_compute. reflexivity.
  - repeat constructor; vm_compute; reflexivity.
  - vm_compute. reflexivity.
  - repeat constructor; vm_compute; reflexivity.
  - reflexivity.
Defined.

End WkbFacts.

(** * The layers of a GeoPackage export *)

Module LayerFacts.
Import Gpkg GpkgExport Layout LayerSpec GpkgFacts GpkgExportFacts.

Lemma not_nan_coordinates (coords : list Coordinate) :
  Forall no_nan coords ->
  Forall not_nan (map lng coords) /\ Forall not_nan (map lat coords).
Proof.
  intros Hnan. split; apply Forall_map; (eapply Forall_impl; [exact Hnan|]);
    by intros c [? ?].
Qed.

(** The bounds loop started at the empty box computes, for coordinates
    without [NaN], the least and the greatest longitude and latitude. *)
Lemma bounds_of_coordinates (coords : list Coordinate) :
  Forall no_nan coords ->
  let b := forEach update_bounds coords initial_bounds in
  is_minimum (minX b) (map lng coords) /\ is_maximum (maxX b) (map lng coords) /\
  is_minimum (minY b) (map lat coords) /\ is_maximum (maxY b) (map lat coords).
Proof.
  intros Hnan. cbv zeta.
  destruct (bounds_forEach coords initial_bounds) as (-> & -> & -> & ->).
  cbn [initial_bounds minX maxX minY maxY].
  destruct (not_nan_coordinates coords Hnan) as [Hlng Hlat].
  auto using FloatOrder.fold_lower_minimum, FloatOrder.fold_upper_maximum.
Qed.

Lemma lower_within (xs ys : list float) :
  Forall not_nan ys -> (forall x, In x xs -> In x ys) ->
  float_le (fold_left (fun m x => lower x m) ys Infinity)
           (fold_left (fun m x => lower x m) xs Infinity).
Proof.
  intros Hys Hsub.
  assert (Hxs : Forall not_nan xs).
  { rewrite List.Forall_forall in Hys |- *. intros x Hx. by apply Hys, Hsub. }
  destruct (FloatOrder.fold_lower ys Infinity Hys eq_refl) as (_ & Htop & Hall & _).
  destruct (FloatOrder.fold_lower xs Infinity Hxs eq_refl) as (_ & _ & _ & [->|Hin]).
  - exact Htop.
  - rewrite List.Forall_forall in Hall. by apply Hall, Hsub.
Qed.

Lemma upper_within (xs ys : list float) :
  Forall not_nan ys -> (forall x, In x xs -> In x ys) ->
  float_le (fold_left (fun m x => upper x m) xs NegInfinity)
           (fold_left (fun m x => upper x m) ys NegInfinity).
Proof.
  intros Hys Hsub.
  assert (Hxs : Forall not_nan xs).
  { rewrite List.Forall_forall in Hys |- *. intros x Hx. by apply Hys, Hsub. }
  destruct (FloatOrder.fold_upper ys NegInfinity Hys eq_refl)
    as (_ & Hbot & Hall & _).
  destruct (FloatOrder.fold_upper xs NegInfinity Hxs eq_refl)
    as (_ & _ & _ & [->|Hin]).
  - exact Hbot.
  - rewrite List.Forall_forall in Hall. by apply Hall, Hsub.
Qed.

(** The envelope of some of the coordinates lies inside the envelope of
    all of them. *)
Lemma envelope_within (coords all_coords : list Coordinate) :
  Forall no_nan all_coords -> (forall c, In c coords -> In c all_coords) ->
  within (forEach update_bounds coords initial_bounds)
         (forEach update_bounds all_coords initial_bounds).
Proof.
  intros Hnan Hsub. unfold within.
  destruct (bounds_forEach coords initial_bounds) as (-> & -> & -> & ->).
  destruct (bounds_forEach all_coords initial_bounds) as (-> & -> & -> & ->).
  cbn [initial_bounds minX maxX minY maxY].
  destruct (not_nan_coordinates all_coords Hnan) as [Hlng Hlat].
  assert (Hsub_lng : forall x, In x (map lng coords) -> In x (map lng all_coords)).
  { intros x Hx. apply in_map_iff in Hx as (c & <- & Hc).
    apply in_map. by apply Hsub. }
  assert (Hsub_lat : forall x, In x (map lat coords) -> In x (map lat all_coords)).
  { intros x Hx. apply in_map_iff in Hx as (c & <- & Hc).
    apply in_map. by apply Hsub. }
  auto using lower_within, upper_within.
Qed.





Lemma length_polygon_rows parcels :
  length (List.filter is_polygon_row (polygon_rows parcels)) = length parcels
  /\ length (List.filter is_point_row (polygon_rows parcels)) = 0%nat.
Proof.
  unfold polygon_rows. induction parcels as [|p parcels [IH1 IH2]]; [done|].
  cbn. by rewrite IH1, IH2.
Qed.

Lemma length_point_rows_of (p : Parcel) (vs : list Coordinate) k :
  length (List.filter is_point_row
            (imap (fun i v => InsertPoint (id p) (Z.of_nat (k + i) + 1) (point_blob v))
                  vs)) = length vs
  /\ length (List.filter is_polygon_row
            (imap (fun i v => InsertPoint (id p) (Z.of_nat (k + i) + 1) (point_blob v))
                  vs)) = 0%nat.
Proof.
  revert k. induction vs as [|v vs IH]; intros k; [done|].
  cbn [imap List.filter is_point_row is_polygon_row length].
  destruct (IH (S k)) as [IH1 IH2].
  split.
  - f_equal. rewrite <- IH1. f_equal. f_equal. apply imap_ext.
    intros i x _. cbn. do 2 f_equal. lia.
  - rewrite <- IH2. f_equal. f_equal. apply imap_ext.
    intros i x _. cbn. do 2 f_equal. lia.
Qed.

Lemma length_point_rows parcels :
  length (List.filter is_point_row (point_rows parcels))
  = length (flat_map vertices parcels)
  /\ length (List.filter is_polygon_row (point_rows parcels)) = 0%nat.
Proof.
  unfold point_rows. induction parcels as [|p parcels [IH1 IH2]]; [done|].
  cbn [flat_map]. rewrite !List.filter_app, !length_app, IH1, IH2.
  destruct (length_point_rows_of p (vertices p) 0) as [H1 H2].
  cbn [Nat.add] in H1, H2. by rewrite H1, H2.
Qed.



End LayerFacts.

(** * What [extractVertices] returns and when it fails *)

Module ExtractFacts.
Import Vertices Dedup Outline VerticesFacts.

Section Extract.
Variable Number_toString : float -> string.

Lemma has_ring_Forall (polygons : list (list Ring)) :
  forallb has_ring polygons = true ->
  Forall (fun polygon => polygon <> []) polygons.
Proof.
  induction polygons as [|p ps IH]; cbn; [constructor|].
  intros [Hp Hps]%andb_prop. constructor; [|by apply IH].
  by destruct p.
Qed.

Lemma extractVertices_first_occurrences (geometry : Geometry) :
  has_outer_rings geometry = true ->
  extractVertices Number_toString geometry
  = Ok (first_occurrences (vertex_key Number_toString) (outer_points geometry)).
Proof.
  destruct geometry as [rings|polygons]; cbn [has_outer_rings outer_points].
  - destruct rings as [|outer holes]; [done|]. intros _.
    unfold extractVertices, add_outer_ring, open_outer_ring.
    cbn [lookup list_lookup mbind result_bind mret result_ret hd].
    rewrite addVertex_loop, slice_0_m1_removelast. cbn [app]. f_equal.
    apply filter_all. intros y. apply not_elem_of_empty.
  - intros Hall%has_ring_Forall. unfold extractVertices.
    rewrite forEachM_add_outer_ring by done.
    cbn [mbind result_bind mret result_ret].
    rewrite addVertex_loop. cbn [app]. f_equal.
    apply filter_all. intros y. apply not_elem_of_empty.
Qed.

Lemma forEachM_add_outer_ring_throws (polygons : list (list Ring)) st :
  forallb has_ring polygons = false ->
  exists msg,
    forEachM (add_outer_ring Number_toString) polygons st = Throw (TypeError msg).
Proof.
  revert st. induction polygons as [|p ps IH]; intros st; cbn [forallb]; [done|].
  destruct p as [|outer holes]; cbn [has_ring andb forEachM].
  - intros _. eexists. reflexivity.
  - intros Hps.
    change (add_outer_ring Number_toString (outer :: holes) st)
      with (Ok (forEach (addVertex Number_toString) (slice_0_m1 outer) st)).
    cbn [mbind result_bind]. by apply IH.
Qed.

Lemma extractVertices_throws (geometry : Geometry) :
  has_outer_rings geometry = false ->
  exists msg, extractVertices Number_toString geometry = Throw (TypeError msg).
Proof.
  intros Hrings.
  destruct geometry as [rings|polygons]; cbn [has_outer_rings] in Hrings.
  - destruct rings; [|done]. eexists. reflexivity.
  - unfold extractVertices.
    destruct (forEachM_add_outer_ring_throws polygons ([], ∅) Hrings)
      as [msg ->].
    by exists msg.
Qed.

(** X8.  [extractVertices] fails exactly when the polygon, or one of the
    polygons of a multipolygon, has no ring, and then with a
    [TypeError]; on every other geometry, a multipolygon without
    polygons and rings without coordinates included, it returns a
    list. *)
Theorem extractVertices_fails_exactly_without_outer_ring (geometry : Geometry) :
  if has_outer_rings geometry
  then exists vertices, extractVertices Number_toString geometry = Ok vertices
  else exists msg, extractVertices Number_toString geometry = Throw (TypeError msg).
Proof.
  destruct (has_outer_rings geometry) eqn:Hrings.
  - eexists. by apply extractVertices_first_occurrences.
  - by apply extractVertices_throws.
Qed.

(** X9.  The vertices returned have pairwise different keys, appear in
    the order of the outer ring coordinates they were taken from, and
    leave out no key of these coordinates: every coordinate of an outer
    ring, its closing one apart, is returned or shares its rounded key
    with a vertex that is. *)
Theorem extractVertices_distinct_ordered_complete
    (geometry : Geometry) (vertices : list Coordinate) :
  extractVertices Number_toString geometry = Ok vertices ->
  NoDup (vertex_key Number_toString <$> vertices)
  /\ sublist vertices (outer_points geometry)
  /\ (forall coord, coord ∈ outer_points geometry ->
        vertex_key Number_toString coord
        ∈ vertex_key Number_toString <$> vertices)
  /\ (length vertices <= length (outer_points geometry))%nat.
Proof.
  intros Hok.
  destruct (has_outer_rings geometry) eqn:Hrings.
  - rewrite extractVertices_first_occurrences in Hok by done.
    injection Hok as <-.
    split; [apply first_occurrences_NoDup|].
    split; [apply first_occurrences_sublist|].
    split; [intros coord; apply first_occurrences_complete|].
    apply sublist_length, first_occurrences_sublist.
  - destruct (extractVertices_throws geometry Hrings) as [msg Hthrow]. congruence.
Qed.
End Extract.

Lemma extractVertices_distinct_ordered_complete_witness :
  NoDup (vertex_key no_toString
           <$> [Layout.degrees 0 0; Layout.degrees 0 1; Layout.degrees 1 1])
  /\ sublist [Layout.degrees 0 0; Layout.degrees 0 1; Layout.degrees 1 1]
       (outer_points (Polygon [unit_triangle])).
Proof.
  destruct (extractVertices_distinct_ordered_complete no_toString
              (Polygon [unit_triangle])
              [Layout.degrees 0 0; Layout.degrees 0 1; Layout.degrees 1 1])
    as (Hdistinct & Hsub & _).
  - vm_compute. reflexivity.
  - split; [exact Hdistinct|exact Hsub].
Defined.

End ExtractFacts.

(** * Decoding and vertex extraction together; the SRID prefix *)

Module DecodeFacts.
Import Str Regex NumberParse Wkt WktSpec Vertices Outline Text.
Import KmlFacts WktFacts.

Lemma split_from_nonempty (r : pattern) (s : string) skip piece :
  split_from r skip piece s <> [].
Proof.
  revert skip piece. induction s as [|c s IH]; intros skip piece;
    cbn [split_from]; [done|].
  destruct skip as [|n]; [|apply IH].
  destruct (exec_at r (String c s)) as [[rest cap]|]; [|apply IH].
  destruct (String.length (String c s) - String.length rest)%nat; [apply IH|done].
Qed.

Lemma split_nonempty (r : pattern) (s : string) : split r s <> [].
Proof. apply split_from_nonempty. Qed.

Lemma Forall2_nonempty {A B} (P : A -> B -> Prop) (l : list A) (k : list B) :
  Forall2 P l k -> l <> [] -> k <> [].
Proof. by destruct 1. Qed.

Section Decode.
Variable toWGS84 : JsValue -> JsValue -> result Coordinate.

Lemma rings_decoded_nonempty (content : string) (rings : list Ring) :
  rings_decoded toWGS84 content rings ->
  rings <> [] /\ Forall (fun ring => ring <> []) rings.
Proof.
  unfold rings_decoded. intros Hrings. split.
  - eapply Forall2_nonempty; [exact Hrings|apply split_nonempty].
  - eapply Forall2_Forall_r; [exact Hrings|].
    apply Forall_forall. intros ringString _ ring Hring.
    eapply Forall2_nonempty; [exact Hring|apply split_nonempty].
Qed.

Lemma parseWkt_nowhere_empty (wkt : JsValue) (geometry : Geometry) :
  parseWkt toWGS84 wkt = Ok geometry -> nowhere_empty geometry.
Proof.
  destruct wkt as [|x|s]; [done..|].
  intros (_ & Hcases)%parseWkt_Ok.
  destruct Hcases as [(_ & content & polygons & _ & -> & Hall)
                     |(_ & _ & content & rings & _ & -> & Hall)];
    cbn [nowhere_empty].
  - split.
    + eapply Forall2_nonempty; [exact Hall|apply split_nonempty].
    + eapply Forall2_Forall_r; [exact Hall|].
      apply Forall_forall. intros piece _ rings Hrings.
      by eapply rings_decoded_nonempty.
  - by eapply rings_decoded_nonempty.
Qed.

Lemma nowhere_empty_outer_rings (geometry : Geometry) :
  nowhere_empty geometry -> has_outer_rings geometry = true.
Proof.
  destruct geometry as [rings|polygons]; cbn [nowhere_empty has_outer_rings].
  - intros [Hne _]. by destruct rings.
  - intros [_ Hall]. induction Hall as [|p ps [Hp _] _ IH]; [done|].
    cbn [forallb]. rewrite IH. by destruct p.
Qed.

(** X10.  A geometry that [parseWkt] returns has no empty array in it:
    at least one polygon, at least one ring in every polygon, at least
    one coordinate in every ring.  So [extractVertices], applied to it
    as the application does, never fails. *)
Theorem parseWkt_then_extractVertices
    (Number_toString : float -> string) (wkt : JsValue) (geometry : Geometry) :
  parseWkt toWGS84 wkt = Ok geometry ->
  nowhere_empty geometry
  /\ exists vertices, extractVertices Number_toString geometry = Ok vertices.
Proof.
  intros Hne%parseWkt_nowhere_empty. split; [exact Hne|].
  eexists. apply ExtractFacts.extractVertices_first_occurrences.
  by apply nowhere_empty_outer_rings.
Qed.
End Decode.

Lemma parseWkt_then_extractVertices_witness :
  exists vertices,
    extractVertices Dedup.no_toString
      (Polygon [[stub_coordinate 0 0; stub_coordinate 0 100000;
                 stub_coordinate 100000 100000; stub_coordinate 0 0]])
    = Ok vertices.
Proof.
  apply (parseWkt_then_extractVertices projection_stub Dedup.no_toString
           (JsString "POLYGON((0 0, 0 100000, 100000 100000, 0 0))")).
  vm_compute. reflexivity.
Defined.

(** The greedy iteration over digits stops at the semicolon. *)
Lemma star_digits_semicolon {R} (digits rest : string)
    (k : string -> option R) (r : R) :
  all is_digit digits = true ->
  k (String ";" rest) = Some r ->
  star is_digit (digits +:+ String ";" rest) k = Some r.
Proof.
  intros Hdigits Hk. induction digits as [|c digits IH]; cbn [all] in Hdigits.
  - exact Hk.
  - apply andb_prop in Hdigits as [Hc Hdigits].
    rewrite append_cons. cbn [star]. rewrite Hc, IH by done. done.
Qed.

Lemma exec_at_sridPattern (prefix digits rest : string) :
  toUpperCase prefix = "SRID="%string -> digits <> EmptyString ->
  all is_digit digits = true ->
  exec_at sridPattern (prefix +:+ digits +:+ ";" +:+ rest) = Some (rest, None).
Proof.
  intros Hprefix Hne Hdigits.
  destruct prefix as [|a1 [|a2 [|a3 [|a4 [|a5 [|a6 prefix]]]]]];
    cbn [toUpperCase] in Hprefix; try discriminate Hprefix.
  injection Hprefix as H1 H2 H3 H4 H5.
  destruct digits as [|d digits]; [done|].
  cbn [all] in Hdigits. apply andb_prop in Hdigits as [Hd Hdigits].
  rewrite !append_cons. change (EmptyString +:+ rest) with rest.
  unfold exec_at, sridPattern, literal_i, char_i, char. cbn [literal_with run].
  rewrite H1, H2, H3, H4, H5.
  change (Ascii.eqb "S" (upper "S")) with true.
  change (Ascii.eqb "R" (upper "R")) with true.
  change (Ascii.eqb "I" (upper "I")) with true.
  change (Ascii.eqb "D" (upper "D")) with true.
  change (Ascii.eqb "=" (upper "=")) with true.
  cbv iota.
  change (EmptyString +:+ String d (digits +:+ String ";" rest))
    with (String d (digits +:+ String ";" rest)).
  cbv beta iota. rewrite Hd. by apply star_digits_semicolon.
Qed.

Section Prefix.
Variable toWGS84 : JsValue -> JsValue -> result Coordinate.

(** X11.  The number in an SRID prefix plays no role: whatever digits
    follow [SRID=], in whatever letter case the prefix is written, the
    text decodes as it does with the prefix [SRID=2180;], and as it does
    with no prefix at all. *)
Theorem parseWkt_ignores_srid_value (prefix digits rest : string) :
  toUpperCase prefix = "SRID="%string -> digits <> EmptyString ->
  all is_digit digits = true ->
  parseWkt toWGS84 (JsString (prefix +:+ digits +:+ ";" +:+ rest))
  = parseWkt toWGS84 (JsString ("SRID=2180;" +:+ rest))
  /\ (rest <> EmptyString -> exec_at sridPattern rest = None ->
      parseWkt toWGS84 (JsString (prefix +:+ digits +:+ ";" +:+ rest))
      = parseWkt toWGS84 (JsString rest)).
Proof.
  intros Hprefix Hne Hdigits.
  assert (Hclean : forall s,
             exec_at sridPattern s = Some (rest, None) -> s <> EmptyString ->
             parseWkt toWGS84 (JsString s)
             = (geometryType ← detectGeometryType (trim rest);
                match geometryType with
                | POLYGON => parsePolygon toWGS84 (trim rest)
                | MULTIPOLYGON => parseMultiPolygon toWGS84 (trim rest)
                end)).
  { intros s Hs Hnes. destruct s as [|c s]; [done|].
    unfold parseWkt, removeSridPrefix, remove_prefix. by rewrite Hs. }
  assert (Hlong : prefix +:+ digits +:+ ";" +:+ rest <> EmptyString).
  { destruct prefix; [discriminate Hprefix|]. by rewrite append_cons. }
  split.
  - rewrite (Hclean _ (exec_at_sridPattern prefix digits rest Hprefix Hne Hdigits) Hlong).
    rewrite (Hclean ("SRID=2180;" +:+ rest)); [done| |done].
    apply (exec_at_sridPattern "SRID=" "2180" rest); done.
  - intros Hrest Hnone.
    rewrite (Hclean _ (exec_at_sridPattern prefix digits rest Hprefix Hne Hdigits) Hlong).
    destruct rest as [|c rest]; [done|].
    unfold parseWkt, removeSridPrefix, remove_prefix. by rewrite Hnone.
Qed.
End Prefix.

Lemma parseWkt_ignores_srid_value_witness :
  parseWkt projection_stub (JsString ("srid=" +:+ "4326" +:+ ";" +:+ "POLYGON((1 2, 3 4))"))
  = parseWkt projection_stub (JsString ("SRID=2180;" +:+ "POLYGON((1 2, 3 4))")).
Proof.
  refine (proj1 (parseWkt_ignores_srid_value projection_stub "srid=" "4326"
                   "POLYGON((1 2, 3 4))" _ _ _));
    [reflexivity|discriminate|reflexivity].
Defined.

End DecodeFacts.

(** * Escaping loses nothing; the single-layer KML documents *)

Module EscapeFacts.
Import Kml Xml Unescape Text KmlFacts.

Lemma unescape_entity_of (c : ascii) (s : string) :
  unescape_from None (entity_of c +:+ s) = String c (unescape_from None s).
Proof.
  unfold entity_of.
  destruct (Ascii.eqb_spec c "&") as [->|Hamp]; [reflexivity|].
  destruct (Ascii.eqb_spec c "<") as [->|Hlt]; [reflexivity|].
  destruct (Ascii.eqb_spec c ">") as [->|Hgt]; [reflexivity|].
  destruct (Ascii.eqb_spec c (ascii_of_nat 34)) as [->|Hquot]; [reflexivity|].
  destruct (Ascii.eqb_spec c "'") as [->|Hapos]; [reflexivity|].
  rewrite append_cons. cbn [unescape_from].
  by destruct (Ascii.eqb_spec c "&").
Qed.

Lemma unescape_escape_chars (s : string) : unescape (escape_chars s) = s.
Proof.
  unfold unescape. induction s as [|c s IH]; [done|].
  cbn [escape_chars]. by rewrite unescape_entity_of, IH.
Qed.

(** X12.  [escapeXml] loses nothing: an XML reader that replaces the
    five entities by their characters gets the original text back, so
    two different ids never give the same escaped text. *)
Theorem escapeXml_unescape (str : string) :
  unescape (escapeXml str) = str
  /\ forall other, escapeXml str = escapeXml other -> str = other.
Proof.
  assert (Hback : forall s, unescape (escapeXml s) = s).
  { intros s. by rewrite escapeXml_escape_chars, unescape_escape_chars. }
  split; [apply Hback|].
  intros other Heq. by rewrite <- (Hback str), Heq, Hback.
Qed.

Lemma all_app (p : ascii -> bool) (a b : string) :
  all p (a +:+ b) = all p a && all p b.
Proof.
  induction a as [|c a IH]; [done|].
  rewrite append_cons. cbn [all]. by rewrite IH, andb_assoc.
Qed.

(** X13.  The text [escapeXml] returns holds none of the characters
    less-than, greater-than, double quote and apostrophe, wherever they
    stood in the argument. *)
Theorem escapeXml_no_reserved_character (str : string) :
  all (fun c => negb (is_reserved c)) (escapeXml str) = true.
Proof.
  rewrite escapeXml_escape_chars.
  induction str as [|c str IH]; [done|].
  cbn [escape_chars]. rewrite all_app, IH, andb_true_r.
  unfold entity_of, is_reserved.
  destruct (Ascii.eqb_spec c "&") as [->|Hamp]; [reflexivity|].
  destruct (Ascii.eqb_spec c "<") as [->|Hlt]; [reflexivity|].
  destruct (Ascii.eqb_spec c ">") as [->|Hgt]; [reflexivity|].
  destruct (Ascii.eqb_spec c (ascii_of_nat 34)) as [->|Hquot]; [reflexivity|].
  destruct (Ascii.eqb_spec c "'") as [->|Hapos]; [reflexivity|].
  cbn [all].
  destruct (Ascii.eqb_spec c "<"); [done|].
  destruct (Ascii.eqb_spec c ">"); [done|].
  destruct (Ascii.eqb_spec c (ascii_of_nat 34)); [done|].
  destruct (Ascii.eqb_spec c "'"); [done|].
  reflexivity.
Qed.

Section Legacy.
Import KmlLegacy.
Variable Number_toString : float -> string.
Hypothesis plain_numbers : forall x, plain (Number_toString x) = true.

Lemma neutral_parcel_placemark (parcel : Parcel) name names r :
  neutral (name :: names) r (parcel_placemark Number_toString parcel).
Proof.
  unfold neutral, parcel_placemark. rewrite !scan_app. walk.
  rewrite neutral_generateGeometryKml by done. walk. reflexivity.
Qed.

Lemma neutral_vertex_placemark (parcel : Parcel) point index name names r :
  neutral (name :: names) r
    (vertex_placemark Number_toString parcel point index).
Proof.
  unfold neutral, vertex_placemark. rewrite !scan_app. walk. reflexivity.
Qed.

Lemma neutral_vertex_placemarks (parcel : Parcel) (vs : list Coordinate) index
    name names r :
  Forall (neutral (name :: names) r)
    (mapIndex (vertex_placemark Number_toString parcel) index vs).
Proof.
  revert index. induction vs as [|v vs IH]; intros index; cbn [mapIndex];
    constructor; [apply neutral_vertex_placemark|apply IH].
Qed.

(** X14.  The documents of the two single-layer generators are balanced
    markup with one root element, whatever the parcels, their ids and
    their geometries are. *)
Theorem legacy_kml_well_formed (parcels : list Parcel) (timestamp : string) :
  plain timestamp = true ->
  well_formed (generatePolygonsKml Number_toString parcels timestamp)
  /\ well_formed (generatePointsKml Number_toString parcels timestamp).
Proof.
  intros Ht. split.
  - unfold well_formed, generatePolygonsKml.
    rewrite !scan_app. unfold polygons_head. rewrite !scan_app.
    change start with (inside [] 0). walk.
    unfold polygons_tail. rewrite !scan_app. walk.
    rewrite neutral_join; [walk; reflexivity|].
    apply Forall_map, Forall_forall. intros p _. apply neutral_parcel_placemark.
  - unfold well_formed, generatePointsKml.
    rewrite !scan_app. unfold points_head. rewrite !scan_app.
    change start with (inside [] 0). walk.
    unfold points_tail. rewrite !scan_app. walk.
    rewrite neutral_join; [walk; reflexivity|].
    apply Forall_flat_map, Forall_forall. intros p _.
    apply neutral_vertex_placemarks.
Qed.
End Legacy.

Lemma legacy_kml_well_formed_witness :
  well_formed
    (KmlLegacy.generatePolygonsKml Dedup.no_toString [ampersand_parcel]
       "2024-05-01T10:00:00.000Z")
  /\ well_formed
       (KmlLegacy.generatePointsKml Dedup.no_toString [ampersand_parcel]
          "2024-05-01T10:00:00.000Z").
Proof.
  apply (legacy_kml_well_formed Dedup.no_toString); reflexivity.
Defined.

End EscapeFacts.

(** * The layers of a GeoJSON export *)

Module GeojsonLayerFacts.
Import Geojson GeojsonSpec GeojsonLayers GeojsonFacts.

Lemma filter_keeps {A} (p : A -> bool) (l : list A) :
  Forall (fun x => p x = true) l -> List.filter p l = l.
Proof.
  induction 1 as [|x l Hx _ IH]; [done|]. cbn. by rewrite Hx, IH.
Qed.

Lemma filter_drops {A} (p : A -> bool) (l : list A) :
  Forall (fun x => p x = false) l -> List.filter p l = [].
Proof.
  induction 1 as [|x l Hx _ IH]; [done|]. cbn. by rewrite Hx, IH.
Qed.

Lemma features_layers (parcels : list Parcel) (options : ExportOptions) :
  features (featureCollection parcels options)
  = (if includePolygons options then map polygon_feature parcels else [])
    ++ (if includePoints options then flat_map point_features parcels else []).
Proof.
  unfold featureCollection. cbn [features].
  destruct (includePolygons options), (includePoints options);
    rewrite ?forEach_point_features, ?forEach_push, ?app_nil_r; done.
Qed.

Lemma layer_polygon_features (parcels : list Parcel) :
  Forall (fun x => layer (properties x) = "polygons"%string)
    (map polygon_feature parcels).
Proof. apply Forall_map, Forall_forall. done. Qed.

Lemma layer_point_features (parcels : list Parcel) :
  Forall (fun x => layer (properties x) = "points"%string)
    (flat_map point_features parcels).
Proof.
  apply Forall_flat_map, Forall_forall. intros p _.
  unfold point_features. apply Forall_forall. intros x Hx.
  apply elem_of_lookup_imap in Hx as (i & v & -> & _). done.
Qed.

Lemma filter_layer (q : string -> bool) (name : string)
    (l : list Feature) :
  Forall (fun x => layer (properties x) = name) l ->
  List.filter (fun x => q (layer (properties x))) l = if q name then l else [].
Proof.
  intros Hl. destruct (q name) eqn:Hq.
  - apply filter_keeps. eapply Forall_impl; [exact Hl|]. by intros x ->.
  - apply filter_drops. eapply Forall_impl; [exact Hl|]. by intros x ->.
Qed.

(** X15.  Whatever layers are requested, the features written are those
    of the export with both layers whose [layer] property names a
    requested layer, in the same order: leaving a layer out changes
    nothing in the other, and with no layer requested the collection is
    empty.  Their number is the number of parcels, if polygons are
    requested, plus the number of vertices, if points are. *)
Theorem geojson_layers_select (parcels : list Parcel) (options : ExportOptions) :
  features (featureCollection parcels options)
  = List.filter (fun x => selected options (layer (properties x)))
      (features (featureCollection parcels both_layers))
  /\ length (features (featureCollection parcels options))
     = ((if includePolygons options then length parcels else 0)
        + (if includePoints options
           then sum_list (map (fun p => length (vertices p)) parcels) else 0))%nat.
Proof.
  rewrite !features_layers. cbn [both_layers includePolygons includePoints].
  split.
  - rewrite List.filter_app.
    rewrite (filter_layer (selected options) "polygons")
      by apply layer_polygon_features.
    rewrite (filter_layer (selected options) "points")
      by apply layer_point_features.
    unfold selected.
    by destruct (includePolygons options), (includePoints options).
  - rewrite length_app.
    destruct (includePolygons options), (includePoints options);
      cbn [length]; rewrite ?length_map, ?length_point_features; done.
Qed.

(** X16.  The GeoJSON geometry of a parcel keeps the nesting of its
    arrays and every Number of it, longitude first: read back with the
    two members of each position swapped into [{lat, lng}], it is the
    geometry it was made from, and it is never a point. *)
Theorem geometryToGeojson_read_back (geometry : Geometry) :
  geometryFromGeojson (geometryToGeojson geometry) = Some geometry.
Proof.
  assert (Hring : forall ring : Ring, map coordinate (map position ring) = ring).
  { intros ring. rewrite map_map. rewrite <- (map_id ring) at 2.
    apply map_ext. by intros []. }
  assert (Hrings : forall rings : list Ring,
             map (map coordinate) (map (fun ring => map position ring) rings)
             = rings).
  { intros rings. rewrite map_map. rewrite <- (map_id rings) at 2.
    apply map_ext. intros ring. apply Hring. }
  destruct geometry as [rings|polygons]; cbn [geometryToGeojson geometryFromGeojson].
  - by rewrite Hrings.
  - do 2 f_equal. rewrite map_map. rewrite <- (map_id polygons) at 2.
    apply map_ext. intros rings. apply Hrings.
Qed.

End GeojsonLayerFacts.

(** * The ULDK response *)

Module UldkFacts.
Import Str Regex Text Uldk KmlFacts.

Lemma split_from_char_cons (c a : ascii) (piece s : string) :
  split_from (char c) 0 piece (String a s)
  = if Ascii.eqb c a
    then piece :: split_from (char c) 0 EmptyString s
    else split_from (char c) 0 (piece +:+ String a EmptyString) s.
Proof.
  cbn [split_from]. unfold exec_at, char. cbn [run].
  destruct (Ascii.eqb c a); [|done].
  replace (String.length (String a s) - String.length s)%nat with 1%nat
    by (cbn [String.length]; lia).
  done.
Qed.

Lemma append_snoc (a : string) (c : ascii) (b : string) :
  (a +:+ String c EmptyString) +:+ b = a +:+ String c b.
Proof. by rewrite append_assoc. Qed.

(** Joining the pieces with the separator gives the text back. *)
Lemma join_split_from (c : ascii) (piece s : string) :
  Kml.join (String c EmptyString) (split_from (char c) 0 piece s) = piece +:+ s.
Proof.
  revert piece. induction s as [|a s IH]; intros piece.
  - cbn. by rewrite append_nil_r.
  - rewrite split_from_char_cons.
    destruct (Ascii.eqb_spec c a) as [->|Hne].
    + pose proof (DecodeFacts.split_from_nonempty (char a) s 0 EmptyString) as Hne.
      cbn [Kml.join].
      destruct (split_from (char a) 0 EmptyString s) as [|p ps] eqn:Hs; [done|].
      rewrite <- Hs, IH. done.
    + by rewrite IH, append_snoc.
Qed.

Lemma join_split (c : ascii) (s : string) :
  Kml.join (String c EmptyString) (split (char c) s) = s.
Proof. apply join_split_from. Qed.

(** A text without the separator is one piece. *)
Lemma split_from_without (c : ascii) (piece s : string) :
  all (fun a => negb (Ascii.eqb c a)) s = true ->
  split_from (char c) 0 piece s = [piece +:+ s].
Proof.
  revert piece. induction s as [|a s IH]; intros piece Hs.
  - cbn. by rewrite append_nil_r.
  - cbn [all] in Hs. apply andb_prop in Hs as [Ha Hs].
    rewrite split_from_char_cons.
    destruct (Ascii.eqb c a); [done|]. by rewrite IH, append_snoc.
Qed.

Lemma lastIndexOf_range (c : ascii) (s : string) :
  -1 <= lastIndexOf c s < Z.of_nat (String.length s).
Proof.
  induction s as [|a s IH]; cbn [lastIndexOf String.length]; [lia|].
  destruct (Z.eqb_spec (lastIndexOf c s) (-1)); [destruct (Ascii.eqb a c)|]; lia.
Qed.

(** The index found splits the text at the last occurrence. *)
Lemma lastIndexOf_found (c : ascii) (s : string) :
  lastIndexOf c s <> -1 ->
  exists a b,
    s = a +:+ String c b
    /\ Z.of_nat (String.length a) = lastIndexOf c s
    /\ all (fun x => negb (Ascii.eqb x c)) b = true.
Proof.
  induction s as [|x s IH]; cbn [lastIndexOf]; [done|].
  destruct (Z.eqb_spec (lastIndexOf c s) (-1)) as [Hnone|Hsome].
  - destruct (Ascii.eqb_spec x c) as [->|Hne]; [|done]. intros _.
    exists EmptyString, s. split; [done|]. split; [done|].
    clear IH. induction s as [|y s IH]; [done|].
    cbn [lastIndexOf] in Hnone. cbn [all].
    destruct (Z.eqb_spec (lastIndexOf c s) (-1)) as [Hs|Hs].
    + destruct (Ascii.eqb y c); [done|]. by rewrite IH.
    + pose proof (lastIndexOf_range c s). lia.
  - intros _. destruct (IH Hsome) as (a & b & -> & Hlen & Hb).
    exists (String x a), b. split; [done|]. split; [|done].
    cbn [String.length]. lia.
Qed.

Lemma lastIndexOf_app (c : ascii) (a b : string) :
  all (fun x => negb (Ascii.eqb x c)) b = true ->
  lastIndexOf c (a +:+ String c b) = Z.of_nat (String.length a).
Proof.
  intros Hb.
  assert (Hnone : lastIndexOf c b = -1).
  { induction b as [|y b IH]; [done|]. cbn [all] in Hb.
    apply andb_prop in Hb as [Hy Hb]. cbn [lastIndexOf].
    rewrite IH by done. cbn. by destruct (Ascii.eqb y c). }
  induction a as [|x a IH].
  - change (EmptyString +:+ String c b) with (String c b).
    cbn [lastIndexOf]. rewrite Hnone. cbn. by rewrite Ascii.eqb_refl.
  - rewrite append_cons. cbn [lastIndexOf String.length]. rewrite IH.
    destruct (Z.eqb_spec (Z.of_nat (String.length a)) (-1)); lia.
Qed.

Lemma substring_prefix (a b : string) :
  String.substring 0 (String.length a) (a +:+ b) = a.
Proof.
  induction a as [|x a IH].
  - change (EmptyString +:+ b) with b. by destruct b.
  - rewrite append_cons. cbn [String.length String.substring]. by rewrite IH.
Qed.

Lemma substring_all (b : string) : String.substring 0 (String.length b) b = b.
Proof.
  induction b as [|x b IH]; [done|].
  cbn [String.length String.substring]. by rewrite IH.
Qed.

Lemma substring_suffix (a b : string) :
  String.substring (String.length a) (String.length b) (a +:+ b) = b.
Proof.
  induction a as [|x a IH].
  - apply substring_all.
  - rewrite append_cons. cbn [String.length String.substring]. exact IH.
Qed.

Lemma length_append (a b : string) :
  String.length (a +:+ b) = (String.length a + String.length b)%nat.
Proof.
  induction a as [|x a IH]; [done|].
  rewrite append_cons. cbn [String.length]. by rewrite IH.
Qed.

(** The two [substring] calls give the text before the bar and the
    text after it. *)
Lemma substring_around (a b : string) (c : ascii) :
  substring 0 (Some (Z.of_nat (String.length a))) (a +:+ String c b) = a
  /\ substring (Z.of_nat (String.length a) + 1) None (a +:+ String c b) = b.
Proof.
  unfold substring. rewrite length_append. cbn [String.length].
  split.
  - replace (Z.to_nat _) with 0%nat by lia.
    replace (Z.to_nat _) with (String.length a) by lia.
    apply substring_prefix.
  - replace (Z.to_nat (Z.min _ _)) with (String.length (a +:+ String c EmptyString))
      by (rewrite length_append; cbn [String.length]; lia).
    replace (Z.to_nat _) with (String.length b) by lia.
    rewrite <- (append_snoc a c b). apply substring_suffix.
Qed.

Section Service.
Variable Object_prototype : string -> option string.

(** X17.  A parcel is returned only for a response of two lines or more
    whose first line is [0] up to white space; its [wkt] and [id] are
    then the two sides of the last bar of the remaining lines, so the
    [id] holds no bar. *)
Theorem _parseResponse_returns_sides_of_last_bar
    (responseText : string) (parcel : ParcelResult) :
  _parseResponse Object_prototype responseText = Ok parcel ->
  exists status data_lines,
    split (char line_feed) (trim responseText) = status :: data_lines
    /\ data_lines <> []
    /\ trim status = "0"%string
    /\ trim (Kml.join (String line_feed EmptyString) data_lines)
       = wkt parcel +:+ String "|" (id parcel)
    /\ all (fun c => negb (Ascii.eqb c "|")) (id parcel) = true.
Proof.
  unfold _parseResponse.
  destruct (split (char line_feed) (trim responseText)) as [|status data_lines]
    eqn:Hlines; [done|].
  destruct data_lines as [|line data_lines]; [done|].
  cbn [length Nat.ltb Nat.leb hd tail].
  remember (trim (Kml.join (String line_feed EmptyString) (line :: data_lines)))
    as data eqn:Hjoin.
  destruct (String.eqb_spec (trim status) "0") as [Hstatus|]; [|done].
  cbn [negb].
  destruct (Z.eqb_spec (lastIndexOf "|" data) (-1)) as [|Hfound]; [done|].
  intros [= <-]. cbn [wkt id].
  destruct (lastIndexOf_found "|" data Hfound) as (a & b & Hdata & Hlen & Hb).
  rewrite <- Hlen. rewrite Hdata in Hjoin |- *.
  destruct (substring_around a b "|") as [-> ->].
  exists status, (line :: data_lines). done.
Qed.

Lemma trimEnd_spaces (ws : string) : all is_space ws = true -> trimEnd ws = EmptyString.
Proof.
  induction ws as [|c ws IH]; [done|]. cbn [all trimEnd].
  intros [Hc Hws]%andb_prop. by rewrite IH, Hc.
Qed.

Lemma trimEnd_app_spaces (a ws : string) :
  all is_space ws = true -> trimEnd (a +:+ ws) = trimEnd a.
Proof.
  intros Hws. induction a as [|c a IH].
  - by apply trimEnd_spaces.
  - rewrite append_cons. cbn [trimEnd]. by rewrite IH.
Qed.

Lemma trimEnd_app_fixed (a b : string) :
  trimEnd b = b -> b <> EmptyString -> trimEnd (a +:+ b) = a +:+ b.
Proof.
  intros Hb Hne. induction a as [|c a IH]; [done|].
  rewrite append_cons. cbn [trimEnd]. rewrite IH.
  destruct (a +:+ b) eqn:Hab; [|done].
  destruct a; [|done]. by destruct b.
Qed.

Lemma trimEnd_cons_fixed (c : ascii) (b : string) :
  is_space c = false -> trimEnd b = b -> trimEnd (String c b) = String c b.
Proof. intros Hc Hb. cbn [trimEnd]. rewrite Hb, Hc. by destruct b. Qed.

Lemma length_trimStart (s : string) :
  (String.length (trimStart s) <= String.length s)%nat.
Proof.
  induction s as [|c s IH]; cbn [trimStart String.length]; [done|].
  destruct (is_space c); cbn [String.length]; lia.
Qed.

Lemma trimStart_fixed_app (a b : string) (c : ascii) :
  trimStart a = a -> is_space c = false ->
  trimStart (a +:+ String c b) = a +:+ String c b.
Proof.
  intros Ha Hc. destruct a as [|x a].
  - change (EmptyString +:+ String c b) with (String c b).
    cbn [trimStart]. by rewrite Hc.
  - rewrite append_cons. cbn [trimStart] in Ha |- *.
    destruct (is_space x); [|done].
    pose proof (length_trimStart a) as Hlen. rewrite Ha in Hlen.
    cbn [String.length] in Hlen. lia.
Qed.

(** X18.  A response whose first line is [0] and whose remaining text is
    a geometry, a bar and an identifier without a bar gives back exactly
    that geometry text and that identifier, line feeds within the
    geometry and white space after the identifier included. *)
Theorem _parseResponse_round_trip (wkt_text id_text trailing : string) :
  trimStart wkt_text = wkt_text ->
  trimEnd id_text = id_text ->
  all (fun c => negb (Ascii.eqb c "|")) id_text = true ->
  all is_space trailing = true ->
  _parseResponse Object_prototype
    (String "0" (String line_feed (wkt_text +:+ String "|" id_text +:+ trailing)))
  = Ok {| wkt := wkt_text; id := id_text |}.
Proof.
  intros Hwkt Hid Hbar Hspace.
  set (data := wkt_text +:+ String "|" id_text).
  assert (HtrimEnd : trimEnd data = data).
  { apply trimEnd_app_fixed; [|done]. by apply trimEnd_cons_fixed. }
  assert (Htrim : trim data = data).
  { unfold trim, data. by rewrite trimStart_fixed_app. }
  assert (Htext :
    trim (String "0" (String line_feed (wkt_text +:+ String "|" id_text +:+ trailing)))
    = String "0" (String line_feed data)).
  { unfold trim. cbn [trimStart].
    change (is_space "0") with false. cbv iota.
    rewrite <- append_assoc. fold data.
    change (String "0" (String line_feed (data +:+ trailing)))
      with (String "0" (String line_feed EmptyString) +:+ (data +:+ trailing)).
    rewrite <- append_assoc, trimEnd_app_spaces by done.
    apply (trimEnd_app_fixed (String "0" (String line_feed EmptyString)) data);
      [done|].
    unfold data. by destruct wkt_text. }
  unfold _parseResponse. rewrite Htext. unfold split.
  rewrite split_from_char_cons. change (Ascii.eqb line_feed "0") with false.
  cbv iota. rewrite split_from_char_cons, Ascii.eqb_refl.
  pose proof (DecodeFacts.split_from_nonempty (char line_feed) data 0 EmptyString)
    as Hne.
  pose proof (join_split_from line_feed EmptyString data) as Hjoin.
  destruct (split_from (char line_feed) 0 EmptyString data) as [|line lines]; [done|].
  cbn [length Nat.ltb Nat.leb hd tail]. rewrite Hjoin.
  change (EmptyString +:+ data) with data. rewrite Htrim.
  change (trim (EmptyString +:+ String "0" EmptyString)) with "0"%string.
  cbn [String.eqb Ascii.eqb Bool.eqb negb].
  unfold data. rewrite lastIndexOf_app by done.
  destruct (Z.eqb_spec (Z.of_nat (String.length wkt_text)) (-1)); [lia|].
  by destruct (substring_around wkt_text id_text "|") as [-> ->].
Qed.

(** X19.  A response that is a single line once the white space around
    it is removed is rejected as invalid whatever it says, a lone
    status line such as [-1] included. *)
Theorem _parseResponse_rejects_single_line (responseText : string) :
  all (fun c => negb (Ascii.eqb line_feed c)) (trim responseText) = true ->
  _parseResponse Object_prototype responseText
  = Throw (Error "Nieprawidłowa odpowiedź z serwera ULDK").
Proof.
  intros Hline. unfold _parseResponse, split.
  by rewrite split_from_without.
Qed.

End Service.

Lemma _parseResponse_round_trip_witness :
  _parseResponse (fun _ => None)
    (String "0" (String line_feed
       ("SRID=2180;POLYGON((1 2,3 4,1 2))" +:+ String "|" "141201_1.0001.6509"
        +:+ String line_feed EmptyString)))
  = Ok {| wkt := "SRID=2180;POLYGON((1 2,3 4,1 2))"; id := "141201_1.0001.6509" |}.
Proof.
  apply (_parseResponse_round_trip (fun _ => None)); reflexivity.
Defined.

Lemma _parseResponse_rejects_single_line_witness :
  _parseResponse (fun _ => None) "-1 brak wynikow"
  = Throw (Error "Nieprawidłowa odpowiedź z serwera ULDK").
Proof.
  apply (_parseResponse_rejects_single_line (fun _ => None)). reflexivity.
Defined.

Lemma _parseResponse_returns_sides_of_last_bar_witness :
  exists status data_lines,
    split (char line_feed) (trim (String "0" (String line_feed "POLYGON((1 2))|a|b")))
    = status :: data_lines
    /\ data_lines <> []
    /\ trim status = "0"%string
    /\ trim (Kml.join (String line_feed EmptyString) data_lines)
       = "POLYGON((1 2))|a" +:+ String "|" "b"
    /\ all (fun c => negb (Ascii.eqb c "|")) "b" = true.
Proof.
  apply (_parseResponse_returns_sides_of_last_bar (fun _ => None)
           (String "0" (String line_feed "POLYGON((1 2))|a|b"))
           {| wkt := "POLYGON((1 2))|a"; id := "b" |}).
  reflexivity.
Defined.

End UldkFacts.

(** * The parcel list and the coordinate queue *)

Module AppFacts.
Import Wkt Vertices Outline App AppSpec.

Section Methods.
Variable toWGS84 : JsValue -> JsValue -> result Coordinate.
Variable Number_toString : float -> string.

Lemma existsb_id_false (parcels : list Parcel) (parcelId : string) :
  existsb (fun p => String.eqb (id p) parcelId) parcels = false ->
  parcelId ∉ map id parcels.
Proof.
  induction parcels as [|p parcels IH]; cbn [existsb map].
  - intros _. apply not_elem_of_nil.
  - intros [Hp Hrest]%orb_false_elim. apply not_elem_of_cons.
    split; [|by apply IH].
    by destruct (String.eqb_spec (id p) parcelId).
Qed.

Lemma existsb_id_true (parcels : list Parcel) (parcelId : string) :
  parcelId ∈ map id parcels ->
  existsb (fun p => String.eqb (id p) parcelId) parcels = true.
Proof.
  destruct (existsb _ parcels) eqn:Hex; [done|].
  intros Hin. by apply existsb_id_false in Hex.
Qed.

Lemma NoDup_map_filter {A B} (f : A -> B) (P : A -> Prop)
    `{forall x, Decision (P x)} (l : list A) :
  NoDup (map f l) -> NoDup (map f (filter P l)).
Proof.
  intros Hl. eapply sublist_NoDup; [exact Hl|].
  apply (fmap_sublist f), sublist_filter.
Qed.

Lemma Forall_kept {A} (P Q : A -> Prop) `{forall x, Decision (Q x)} (l : list A) :
  Forall P l -> Forall P (filter Q l).
Proof.
  rewrite !Forall_forall. intros Hl x [_ Hx]%list_elem_of_filter. by apply Hl.
Qed.

Lemma toggles_keep (st : state) :
  _parcels (_togglePolygons st) = _parcels st
  /\ _coordinateQueue (_togglePolygons st) = _coordinateQueue st
  /\ _nextQueueId (_togglePolygons st) = _nextQueueId st
  /\ _parcels (_togglePoints st) = _parcels st
  /\ _coordinateQueue (_togglePoints st) = _coordinateQueue st
  /\ _nextQueueId (_togglePoints st) = _nextQueueId st.
Proof.
  unfold _togglePolygons, _togglePoints.
  destruct (_parcels st) eqn:Hparcels; cbn; rewrite ?Hparcels; repeat split; reflexivity.
Qed.

Lemma _addToQueue_parcels lat lng label marker (st : state) :
  _parcels (_addToQueue lat lng label marker st) = _parcels st.
Proof. unfold _addToQueue. by destruct marker. Qed.

Lemma handle_parcels_ok (event : Event) (st : state) :
  parcels_ok toWGS84 Number_toString st ->
  parcels_ok toWGS84 Number_toString (handle toWGS84 Number_toString event st).
Proof.
  intros [Hdup Hall]. destruct event; cbn [handle]; unfold parcels_ok.
  - unfold _addParcelToList.
    destruct (existsb _ (_parcels st)) eqn:Hex; [done|].
    destruct (parseWkt toWGS84 (JsString (Uldk.wkt found))) as [g|e]
      eqn:Hparse; cbn [mbind result_bind]; [|done].
    destruct (extractVertices Number_toString g) as [vs|e]
      eqn:Hextract; cbn [mbind result_bind mret result_ret fst _parcels]; [|done].
    split.
    + rewrite map_app. apply NoDup_app. split; [done|]. split.
      * intros x Hx ->%list_elem_of_singleton.
        by apply existsb_id_false in Hex.
      * apply NoDup_singleton.
    + apply Forall_app. split; [done|]. constructor; [|constructor].
      split; [done|]. cbn [geometry].
      by eapply DecodeFacts.parseWkt_nowhere_empty.
  - cbn [_removeParcel _parcels]. split.
    + by apply NoDup_map_filter.
    + by apply Forall_kept.
  - cbn [_clearAllParcels _parcels]. split; constructor.
  - by rewrite _addToQueue_parcels.
  - done.
  - done.
  - destruct (toggles_keep st) as (-> & _). done.
  - destruct (toggles_keep st) as (_ & _ & _ & -> & _). done.
Qed.

Lemma handle_queue_ok (event : Event) (st : state) :
  queue_ok st -> queue_ok (handle toWGS84 Number_toString event st).
Proof.
  intros [Hnext Hqueue]. destruct event; cbn [handle]; unfold queue_ok.
  - unfold _addParcelToList.
    destruct (existsb _ (_parcels st)); [done|].
    destruct (parseWkt toWGS84 (JsString (Uldk.wkt found))) as [g|e];
      cbn [mbind result_bind]; [|done].
    by destruct (extractVertices Number_toString g) as [vs|e].
  - done.
  - done.
  - unfold _addToQueue, increment.
    destruct marker as [[]|e];
      cbn [_nextQueueId _coordinateQueue]; (split; [lia|]); intros Hlt;
      destruct Hqueue as [Hdup Hall]; try lia.
    + split.
      * cbn [map queue_id]. constructor; [|done].
        intros Hin. apply list_elem_of_fmap in Hin as (item & Hid & Hin).
        rewrite Forall_forall in Hall. specialize (Hall item Hin). lia.
      * constructor; [cbn [queue_id]; lia|].
        eapply Forall_impl; [exact Hall|]. intros item Hitem. cbn beta in *. lia.
    + split; [done|].
      eapply Forall_impl; [exact Hall|]. intros item Hitem. cbn beta in *. lia.
  - cbn [_removeFromQueue _nextQueueId _coordinateQueue]. split; [done|].
    intros Hlt. destruct (Hqueue Hlt) as [Hdup Hall]. split.
    + by apply NoDup_map_filter.
    + by apply Forall_kept.
  - cbn [_clearQueue _nextQueueId _coordinateQueue]. split; [done|].
    intros _. split; constructor.
  - destruct (toggles_keep st) as (_ & -> & -> & _). done.
  - destruct (toggles_keep st) as (_ & _ & _ & _ & -> & ->). done.
Qed.

Lemma after_invariant (P : state -> Prop) (events : list Event) (st : state) :
  (forall event st, P st -> P (handle toWGS84 Number_toString event st)) ->
  P st -> P (after toWGS84 Number_toString events st).
Proof.
  intros Hstep. revert st. induction events as [|event events IH]; intros st Hst;
    [done|]. cbn. apply IH, Hstep, Hst.
Qed.

(** X20.  Whatever calls are made on the application, in whatever
    order and with whatever outcomes on the page and the map, the
    parcels of the list have pairwise different ids, and each one holds
    the geometry its WKT text decodes to and the vertices extracted from
    that geometry, a geometry with no empty array in it. *)
Theorem parcel_list_invariant (events : list Event) :
  let st := after toWGS84 Number_toString events initial in
  NoDup (map id (_parcels st))
  /\ Forall (fun parcel =>
               parseWkt toWGS84 (JsString (wkt parcel)) = Ok (geometry parcel)
               /\ extractVertices Number_toString (geometry parcel)
                  = Ok (vertices parcel)
               /\ nowhere_empty (geometry parcel)) (_parcels st).
Proof.
  cbv zeta.
  destruct (after_invariant (parcels_ok toWGS84 Number_toString) events initial handle_parcels_ok)
    as [Hdup Hall].
  - split; constructor.
  - split; [exact Hdup|]. eapply Forall_impl; [exact Hall|].
    intros p [[Hparse Hextract] Hne]. done.
Qed.

(** X21.  As long as the counter of queue ids has not reached [2^53],
    the items of the queue have pairwise different ids, all of them at
    least 1 and below the counter: removing an item by its id removes
    that item alone, and an id is never given twice. *)
Theorem queue_ids_distinct (events : list Event) :
  let st := after toWGS84 Number_toString events initial in
  _nextQueueId st < 2 ^ 53 ->
  NoDup (map queue_id (_coordinateQueue st))
  /\ Forall (fun item => 1 <= queue_id item < _nextQueueId st)
       (_coordinateQueue st).
Proof.
  cbv zeta.
  destruct (after_invariant queue_ok events initial handle_queue_ok)
    as [_ Hqueue]; [|exact Hqueue].
  split; [cbn; lia|]. intros _. split; constructor.
Qed.

Lemma filter_other_ids (parcels : list Parcel) (parcelId : string) :
  parcelId ∉ map id parcels ->
  filter (fun p => id p <> parcelId) parcels = parcels.
Proof.
  induction parcels as [|p parcels IH]; [done|]. cbn [map].
  intros [Hp Hrest]%not_elem_of_cons.
  rewrite filter_cons_True by done. by rewrite IH.
Qed.

Lemma _removeParcel_absent (parcelId : string) (st : state) :
  parcelId ∉ map id (_parcels st) -> _removeParcel parcelId st = st.
Proof.
  intros Hnotin. unfold _removeParcel. rewrite filter_other_ids by done.
  by destruct st.
Qed.

(** X22.  Adding the same ULDK result a second time changes nothing,
    whether the first call added it, found its id in the list or failed
    to decode it; and removing the id of a result just added to a list
    that did not hold it gives the list back as it was. *)
Theorem _addParcelToList_idempotent_and_undone
    (found : Uldk.ParcelResult) (ui ui' : result unit) (st : state) :
  let st' := fst (_addParcelToList toWGS84 Number_toString found ui st) in
  fst (_addParcelToList toWGS84 Number_toString found ui' st') = st'
  /\ (Uldk.id found ∉ map id (_parcels st) ->
      _removeParcel (Uldk.id found) st' = st).
Proof.
  cbv zeta. unfold _addParcelToList.
  destruct (existsb _ (_parcels st)) eqn:Hex.
  - cbn [fst]. rewrite Hex. split; [done|]. apply _removeParcel_absent.
  - destruct (parseWkt toWGS84 (JsString (Uldk.wkt found))) as [g|e]
      eqn:Hparse; cbn [mbind result_bind].
    + destruct (extractVertices Number_toString g) as [vs|e]
        eqn:Hextract; cbn [mbind result_bind mret result_ret fst _parcels].
      * split.
        -- rewrite existsb_app. cbn [existsb id]. rewrite String.eqb_refl.
           by rewrite orb_true_r.
        -- intros Hnotin. unfold _removeParcel.
           cbn [_parcels _coordinateQueue _nextQueueId _showingPolygons
                _showingPoints].
           rewrite filter_app, filter_other_ids by done.
           rewrite filter_cons_False by (cbn [id]; intros Hne; by apply Hne).
           rewrite filter_nil, app_nil_r. by destruct st.
      * cbn [fst]. rewrite Hex. split; [done|]. apply _removeParcel_absent.
    + cbn [fst]. rewrite Hex. split; [done|]. apply _removeParcel_absent.
Qed.
Lemma _addParcelToList_frame (found : Uldk.ParcelResult) (ui : result unit)
    (st : state) :
  let st' := fst (_addParcelToList toWGS84 Number_toString found ui st) in
  (length (_parcels st) <= length (_parcels st') <= S (length (_parcels st)))%nat
  /\ _coordinateQueue st' = _coordinateQueue st
  /\ _nextQueueId st' = _nextQueueId st.
Proof.
  cbv zeta. unfold _addParcelToList.
  destruct (existsb _ (_parcels st));
    [cbn [fst]; repeat split; (lia || reflexivity)|].
  destruct (parseWkt toWGS84 (JsString (Uldk.wkt found))) as [g|e];
    cbn [mbind result_bind];
    [|cbn [fst]; repeat split; (lia || reflexivity)].
  destruct (extractVertices Number_toString g) as [vs|e];
    cbn [mbind result_bind mret result_ret fst _parcels _nextQueueId
         _coordinateQueue];
    [|repeat split; (lia || reflexivity)].
  rewrite length_app. cbn [length]. repeat split; (lia || reflexivity).
Qed.

Lemma forEach_add_settled
    (results : list (option Uldk.ParcelResult * result unit))
    (st : state) (successCount errorCount : Z) :
  let '(st', successCount', errorCount') :=
    forEach (add_settled toWGS84 Number_toString) results
      (st, successCount, errorCount) in
  successCount' + errorCount'
  = successCount + errorCount + Z.of_nat (length results)
  /\ successCount <= successCount' /\ errorCount <= errorCount'
  /\ (length (_parcels st) <= length (_parcels st')
      <= length (_parcels st) + length results)%nat
  /\ _nextQueueId st' = _nextQueueId st
  /\ (parcels_ok toWGS84 Number_toString st ->
      parcels_ok toWGS84 Number_toString st').
Proof.
  revert st successCount errorCount.
  induction results as [|[outcome ui] results IH];
    intros st successCount errorCount.
  - cbn. split; [lia|]. split; [lia|]. split; [lia|]. split; [lia|].
    split; [reflexivity|]. by intros.
  - cbn [forEach fold_left]. unfold add_settled at 2.
    destruct outcome as [found|].
    + pose proof (handle_parcels_ok (AddParcel found ui) st) as Hok.
      pose proof (_addParcelToList_frame found ui st) as (Hgrow & _ & Hsame).
      cbn [handle] in Hok.
      destruct (_addParcelToList toWGS84 Number_toString found ui st)
        as [st1 [[]|e]]; cbn [fst] in Hok, Hgrow, Hsame;
        [specialize (IH st1 (successCount + 1) errorCount)
        |specialize (IH st1 successCount (errorCount + 1))];
        unfold forEach in IH;
        destruct (fold_left _ results _) as [[st' successCount'] errorCount'];
        destruct IH as (Hsum & Hle & Hle' & Hlen & Hnext & Hinv);
        cbn [length];
        (split; [lia|]); (split; [lia|]); (split; [lia|]); (split; [lia|]);
        (split; [congruence|]); intros Hst; apply Hinv, Hok, Hst.
    + specialize (IH st successCount (errorCount + 1)). unfold forEach in IH.
      destruct (fold_left _ results _) as [[st' successCount'] errorCount'].
      destruct IH as (Hsum & Hle & Hle' & Hlen & Hnext & Hinv).
      cbn [length].
      split; [lia|]. split; [lia|]. split; [lia|]. split; [lia|].
      split; [done|]. exact Hinv.
Qed.

(** X27.  When the requests of [_processQueue] are settled, every one
    of them is counted once, as a success or as an error, the queue is
    emptied and its counter left alone; the list never shrinks and grows
    by at most one parcel per request, and it keeps its invariant. *)
Theorem _processQueue_accounts_for_every_request
    (results : list (option Uldk.ParcelResult * result unit)) (st : state) :
  let '(st', successCount, errorCount) :=
    _processQueue_settled toWGS84 Number_toString results st in
  successCount + errorCount = Z.of_nat (length results)
  /\ 0 <= successCount /\ 0 <= errorCount
  /\ _coordinateQueue st' = []
  /\ _nextQueueId st' = _nextQueueId st
  /\ (length (_parcels st) <= length (_parcels st')
      <= length (_parcels st) + length results)%nat
  /\ (parcels_ok toWGS84 Number_toString st ->
      parcels_ok toWGS84 Number_toString st').
Proof.
  unfold _processQueue_settled.
  pose proof (forEach_add_settled results st 0 0) as Hloop.
  destruct (forEach (add_settled toWGS84 Number_toString) results (st, 0, 0))
    as [[st' successCount] errorCount].
  destruct Hloop as (Hsum & Hle & Hle' & Hlen & Hnext & Hinv).
  cbn [_clearQueue _coordinateQueue _nextQueueId _parcels].
  split; [lia|]. split; [lia|]. split; [lia|]. split; [done|].
  split; [done|]. split; [lia|]. exact Hinv.
Qed.

End Methods.

Lemma queue_ids_distinct_witness :
  NoDup [2; 1]
  /\ Forall (fun item => 1 <= queue_id item < 4)
       [ {| queue_id := 2; queue_lat := NaN; queue_lng := NaN; label := "b" |};
         {| queue_id := 1; queue_lat := NaN; queue_lng := NaN; label := "a" |} ].
Proof.
  apply (queue_ids_distinct projection_stub Dedup.no_toString
           [AddToQueue NaN NaN "a" (Ok tt); AddToQueue NaN NaN "b" (Ok tt);
            AddToQueue NaN NaN "c" (Throw (Error "Invalid LatLng object"))]).
  reflexivity.
Defined.

Lemma _addParcelToList_idempotent_and_undone_witness :
  _removeParcel "141201_1.0001.6509"
    (fst (_addParcelToList projection_stub Dedup.no_toString triangle_result
            (Ok tt) initial))
  = initial.
Proof.
  apply (_addParcelToList_idempotent_and_undone projection_stub
           Dedup.no_toString triangle_result (Ok tt) (Ok tt) initial).
  apply not_elem_of_nil.
Defined.

End AppFacts.

(** * A coordinate pair with one token *)

Module PairFacts.
Import Str Regex NumberParse Wkt Text KmlFacts.

Lemma trimEnd_no_space (s : string) :
  all (fun c => negb (is_space c)) s = true -> trimEnd s = s.
Proof.
  induction s as [|c s IH]; [done|]. cbn [all trimEnd].
  intros [Hc Hs]%andb_prop. rewrite IH by done.
  apply negb_true_iff in Hc. rewrite Hc. by destruct s.
Qed.

Lemma trim_no_space (s : string) :
  all (fun c => negb (is_space c)) s = true -> trim s = s.
Proof.
  intros Hs. unfold trim.
  assert (HtrimStart : trimStart s = s).
  { destruct s as [|c s]; [done|]. cbn [all trimStart] in *.
    apply andb_prop in Hs as [Hc _]. apply negb_true_iff in Hc. by rewrite Hc. }
  rewrite HtrimStart. by apply trimEnd_no_space.
Qed.

Lemma split_from_spaces_token (piece s : string) :
  all (fun c => negb (is_space c)) s = true ->
  split_from spaces 0 piece s = [piece +:+ s].
Proof.
  revert piece. induction s as [|c s IH]; intros piece Hs.
  - cbn. by rewrite append_nil_r.
  - cbn [all] in Hs. apply andb_prop in Hs as [Hc Hs].
    apply negb_true_iff in Hc.
    cbn [split_from]. unfold exec_at, spaces. cbn [run]. rewrite Hc.
    rewrite IH by done. by rewrite append_assoc.
Qed.

(** X23.  A coordinate pair that is a single token, the empty one
    included, is rejected only if the token is not a number: the check
    looks for [NaN] alone, so the missing second value passes it and
    the projection is called with [undefined] for [y]. *)
Theorem parse_pair_accepts_missing_y
    (toWGS84 : JsValue -> JsValue -> result Coordinate) (token : string) :
  all (fun c => negb (is_space c)) token = true ->
  parse_pair toWGS84 token
  = if is_nan (Number_of_string token)
    then Throw (TypeError ("Invalid coordinate pair: " +:+ token))
    else toWGS84 (JsNumber (Number_of_string token)) JsUndefined.
Proof.
  intros Htoken. unfold parse_pair, split.
  rewrite trim_no_space, split_from_spaces_token by done.
  change (EmptyString +:+ token) with token.
  cbn [map lookup list_lookup Number_isNaN]. by rewrite orb_false_r.
Qed.

Lemma parse_pair_accepts_missing_y_witness :
  parse_pair projection_stub "3"
  = if is_nan (Number_of_string "3")
    then Throw (TypeError ("Invalid coordinate pair: " +:+ "3"))
    else projection_stub (JsNumber (Number_of_string "3")) JsUndefined.
Proof.
  apply (parse_pair_accepts_missing_y projection_stub "3"). reflexivity.
Defined.

End PairFacts.

(** * The exporters agree on the points *)

Module CrossFormatFacts.
Import Geojson GeojsonSpec GpkgExport Layout LayerSpec CrossFormat.
Import GpkgExportFacts LayerFacts GeojsonLayerFacts.

Lemma filter_point_rows (parcels : list Parcel) :
  List.filter is_point_row (point_rows parcels) = point_rows parcels.
Proof.
  apply GeojsonLayerFacts.filter_keeps. unfold point_rows.
  apply Forall_flat_map, Forall_forall. intros p _.
  apply Forall_forall. intros row Hrow.
  apply elem_of_lookup_imap in Hrow as (i & v & -> & _). done.
Qed.

Lemma filter_polygon_rows (parcels : list Parcel) :
  List.filter is_point_row (polygon_rows parcels) = [].
Proof.
  apply GeojsonLayerFacts.filter_drops. unfold polygon_rows.
  apply Forall_map, Forall_forall. done.
Qed.

Lemma omap_polygon_features (parcels : list Parcel) :
  omap row_of_feature (map polygon_feature parcels) = [].
Proof. induction parcels as [|p parcels IH]; [done|]. cbn. exact IH. Qed.

Lemma omap_point_features_of (p : Parcel) (vs : list Coordinate) (k : nat) :
  omap row_of_feature (imap (fun i v => point_feature p v (k + i)) vs)
  = imap (fun i v => InsertPoint (id p) (Z.of_nat (k + i) + 1) (point_blob v)) vs.
Proof.
  revert k. induction vs as [|v vs IH]; intros k; [done|].
  cbn [imap omap list_omap row_of_feature point_feature properties point_index
       feature_geometry parcel_id].
  assert (Hv : {| lat := lat v; lng := lng v |} = v) by (by destruct v).
  rewrite Hv. f_equal.
  rewrite (imap_ext _ (fun i v => point_feature p v (S k + i)))
    by (intros; cbn; f_equal; lia).
  rewrite IH. apply imap_ext. intros; cbn; do 2 f_equal; lia.
Qed.

Lemma omap_point_features (parcels : list Parcel) :
  omap row_of_feature (flat_map point_features parcels) = point_rows parcels.
Proof.
  unfold point_rows. induction parcels as [|p parcels IH]; [done|].
  cbn [flat_map]. rewrite omap_app, IH. f_equal.
  apply (omap_point_features_of p (vertices p) 0).
Qed.


End CrossFormatFacts.

(** * The search input *)

Module SearchFacts.
Import Str Regex NumberParse Search SearchSpec Text KmlFacts.

Lemma is_digit_cases (c : ascii) :
  is_digit c = true ->
  In c ["0"; "1"; "2"; "3"; "4"; "5"; "6"; "7"; "8"; "9"]%char.
Proof.
  destruct c as [[] [] [] [] [] [] [] []]; intros H; try discriminate H;
    cbn; tauto.
Qed.

(** A digit is in none of the other classes of the two patterns. *)
Lemma digit_only (c : ascii) :
  is_digit c = true ->
  is_space c = false /\ decimal_mark c = false /\ separator c = false
  /\ Ascii.eqb "-" c = false /\ Ascii.eqb c "," = false
  /\ Ascii.eqb "_" c = false /\ Ascii.eqb "/" c = false
  /\ Ascii.eqb "." c = false.
Proof.
  intros Hc%is_digit_cases. cbn in Hc.
  repeat destruct Hc as [<-|Hc]; try done; repeat split; reflexivity.
Qed.

Lemma star_greedy {R} (p : ascii -> bool) (a b : string)
    (k : string -> option R) (r : R) :
  all p a = true -> star p b k = Some r -> star p (a +:+ b) k = Some r.
Proof.
  intros Ha Hk. induction a as [|c a IH]; [exact Hk|].
  cbn [all] in Ha. apply andb_prop in Ha as [Hc Ha].
  rewrite append_cons. cbn [star]. by rewrite Hc, IH.
Qed.

Lemma star_stops {R} (p : ascii -> bool) (b : string) (k : string -> option R) :
  stops p b -> star p b k = k b.
Proof. destruct b as [|c b]; [done|]. cbn [stops star]. by intros ->. Qed.

Lemma matches_class (p : ascii -> bool) (c : ascii) (b : string) :
  p c = true -> matches (Class p) (String c EmptyString) b (fun captures => captures).
Proof.
  intros Hc R captures k result Hk.
  change (String c EmptyString +:+ b) with (String c b).
  cbn [run]. by rewrite Hc.
Qed.

Lemma matches_many (p : ascii -> bool) (a b : string) :
  all p a = true -> stops p b ->
  matches (Many p) a b (fun captures => captures).
Proof.
  intros Ha Hb R captures k result Hk. cbn [run].
  apply star_greedy; [done|]. by rewrite star_stops.
Qed.

Lemma matches_seq (r1 r2 : regex) (a1 a2 b : string) f1 f2 :
  matches r1 a1 (a2 +:+ b) f1 -> matches r2 a2 b f2 ->
  matches (Seq r1 r2) (a1 +:+ a2) b (fun captures => f2 (f1 captures)).
Proof.
  intros H1 H2 R captures k result Hk. cbn [run].
  rewrite append_assoc. apply H1, H2, Hk.
Qed.

Lemma matches_skip (r : regex) (b : string) :
  (forall R captures (k : string -> list (option string) -> option R),
      run r b captures k = None) ->
  matches (Optional r) EmptyString b (fun captures => captures).
Proof.
  intros Hr R captures k result Hk.
  change (EmptyString +:+ b) with b. cbn [run]. by rewrite Hr.
Qed.

Lemma matches_take (r : regex) (a b : string) f :
  matches r a b f -> matches (Optional r) a b f.
Proof.
  intros Hr R captures k result Hk. cbn [run]. by rewrite (Hr _ _ _ _ Hk).
Qed.

Lemma matches_group (index : nat) (r : regex) (a b : string) f :
  matches r a b f ->
  matches (Group index r) a b (fun captures => <[index := Some a]> (f captures)).
Proof.
  intros Hr R captures k result Hk. cbn [run]. apply Hr.
  rewrite UldkFacts.length_append.
  replace (String.length a + String.length b - String.length b)%nat
    with (String.length a) by lia.
  by rewrite UldkFacts.substring_prefix.
Qed.

Lemma matches_end : matches End EmptyString EmptyString (fun captures => captures).
Proof. intros R captures k result Hk. exact Hk. Qed.

(** Rewriting the text and the effect on the captures of a match. *)
Lemma matches_eq (r : regex) (a a' b : string) f f' :
  matches r a b f -> a = a' -> (forall captures, f captures = f' captures) ->
  matches r a' b f'.
Proof.
  intros Hr <- Hf R captures k result Hk. apply Hr. by rewrite Hf.
Qed.

Lemma matches_digits (ds b : string) :
  digits_text ds -> stops is_digit b ->
  matches digits ds b (fun captures => captures).
Proof.
  intros [Hne Hds] Hb. destruct ds as [|d ds]; [done|].
  cbn [all] in Hds. apply andb_prop in Hds as [Hd Hds].
  apply (matches_eq _ (String d EmptyString +:+ ds) _ _
           (fun captures => captures)); [|done..].
  apply (matches_seq (Class is_digit) (Many is_digit)).
  - by apply matches_class.
  - by apply matches_many.
Qed.

(** [-?\d+[.,]\d+] matches digits, a mark and digits, with no sign. *)
Lemma matches_decimal_number (i f b : string) (m : ascii) :
  digits_text i -> digits_text f -> decimal_mark m = true -> stops is_digit b ->
  matches decimal_number (i +:+ String m f) b (fun captures => captures).
Proof.
  intros Hi Hf Hm Hb.
  assert (Hmd : is_digit m = false).
  { destruct (is_digit m) eqn:Hd; [|done].
    apply digit_only in Hd as (_ & Hd & _). congruence. }
  apply (matches_eq _ (EmptyString +:+ (i +:+ (String m EmptyString +:+ f))) _ _
           (fun captures => captures)); [|done..].
  apply (matches_seq (Optional (char "-"))).
  - apply matches_skip. intros R captures k.
    destruct Hi as [Hne Hi]. destruct i as [|d i]; [done|].
    cbn [all] in Hi. apply andb_prop in Hi as [Hd _].
    apply digit_only in Hd as (_ & _ & _ & Hd & _).
    rewrite !append_cons. cbn [run char]. by rewrite Hd.
  - apply (matches_seq digits); [by apply matches_digits|].
    apply (matches_seq (Class decimal_mark));
      [by apply matches_class|by apply matches_digits].
Qed.

Lemma all_impl (p q : ascii -> bool) (s : string) :
  (forall c, p c = true -> q c = true) -> all p s = true -> all q s = true.
Proof.
  intros Hpq. induction s as [|c s IH]; [done|]. cbn [all].
  intros [Hc Hs]%andb_prop. by rewrite (Hpq c Hc), IH.
Qed.

Lemma stops_digits_text (p : ascii -> bool) (ds b : string) :
  digits_text ds -> (forall c, is_digit c = true -> p c = false) ->
  stops p (ds +:+ b).
Proof.
  intros [Hne Hds] Hp. destruct ds as [|d ds]; [done|].
  cbn [all] in Hds. apply andb_prop in Hds as [Hd _].
  rewrite append_cons. cbn [stops]. by apply Hp.
Qed.

Lemma matches_then (r1 r2 : regex) (a1 a2 b : string) f :
  matches r1 a1 (a2 +:+ b) (fun captures => captures) -> matches r2 a2 b f ->
  matches (Seq r1 r2) (a1 +:+ a2) b f.
Proof.
  intros H1 H2 R captures k result Hk. cbn [run].
  rewrite append_assoc. apply H1, H2, Hk.
Qed.

Lemma matches_group_then (index : nat) (r1 r2 : regex) (a1 a2 b : string) f :
  matches r1 a1 (a2 +:+ b) (fun captures => captures) -> matches r2 a2 b f ->
  matches (Seq (Group index r1) r2) (a1 +:+ a2) b
    (fun captures => f (<[index := Some a1]> captures)).
Proof.
  intros H1 H2.
  apply (matches_seq (Group index r1) r2 a1 a2 b
           (fun captures => <[index := Some a1]> captures) f); [|exact H2].
  apply (matches_group index r1 a1 (a2 +:+ b) (fun captures => captures) H1).
Qed.

(** The pattern of coordinates on two unsigned decimal numbers with a
    comma or a semicolon and white space between them. *)
Lemma exec_COORDINATES_PATTERN (i1 f1 i2 f2 ws : string) (m1 m2 c : ascii) :
  digits_text i1 -> digits_text f1 -> digits_text i2 -> digits_text f2 ->
  decimal_mark m1 = true -> decimal_mark m2 = true ->
  Ascii.eqb c "," || Ascii.eqb c ";" = true -> all is_space ws = true ->
  exec COORDINATES_PATTERN 2
    ((i1 +:+ String m1 f1) +:+ String c (ws +:+ (i2 +:+ String m2 f2)))
  = Some [Some (i1 +:+ String m1 f1); Some (i2 +:+ String m2 f2)].
Proof.
  intros Hi1 Hf1 Hi2 Hf2 Hm1 Hm2 Hc Hws.
  set (a := i1 +:+ String m1 f1). set (b := i2 +:+ String m2 f2).
  assert (Hsep : separator c = true).
  { unfold separator. by rewrite Hc. }
  assert (Hcd : is_digit c = false /\ is_space c = false).
  { apply orb_prop in Hc as [->%Ascii.eqb_eq| ->%Ascii.eqb_eq]; done. }
  destruct Hcd as [Hcd Hcs].
  assert (Ha_space : forall x, stops is_space (a +:+ x)).
  { intros x. unfold a. rewrite append_assoc.
    apply stops_digits_text; [done|].
    intros d Hd. by apply digit_only in Hd as (? & _). }
  assert (Hb_space : forall x, stops is_space (b +:+ x)).
  { intros x. unfold b. rewrite append_assoc.
    apply stops_digits_text; [done|].
    intros d Hd. by apply digit_only in Hd as (? & _). }
  assert (Hmatch :
    matches COORDINATES_PATTERN
      (EmptyString +:+ (a +:+ (EmptyString +:+ (String c EmptyString
         +:+ (ws +:+ (b +:+ (EmptyString +:+ EmptyString)))))))
      EmptyString
      (fun captures => <[1%nat := Some b]> (<[0%nat := Some a]> captures))).
  { unfold COORDINATES_PATTERN.
    apply (matches_then (Many is_space)).
    { apply matches_many; [done|]. rewrite append_assoc. apply Ha_space. }
    apply (matches_group_then 0 decimal_number _ a _ EmptyString
             (fun captures => <[1%nat := Some b]> captures)).
    { apply matches_decimal_number; try done.
      all: rewrite !append_cons; cbn [stops]; exact Hcd. }
    apply (matches_then (Many is_space)).
    { apply matches_many; [done|]. rewrite !append_cons. cbn [stops]. exact Hcs. }
    apply (matches_then (Class separator)).
    { by apply matches_class. }
    apply (matches_then (Many is_space)).
    { apply matches_many; [done|]. rewrite append_assoc. apply Hb_space. }
    apply (matches_eq _ (b +:+ (EmptyString +:+ EmptyString)) _ _
             (fun captures => (fun captures' => captures')
                                (<[1%nat := Some b]> captures))); [|done..].
    apply (matches_group_then 1 decimal_number _ b _ EmptyString
             (fun captures' => captures')).
    { by apply matches_decimal_number. }
    apply (matches_then (Many is_space) End);
      [by apply matches_many|apply matches_end]. }
  unfold exec.
  assert (Htext :
    a +:+ String c (ws +:+ b)
    = (EmptyString +:+ (a +:+ (EmptyString +:+ (String c EmptyString
         +:+ (ws +:+ (b +:+ (EmptyString +:+ EmptyString))))))) +:+ EmptyString).
  { change (EmptyString +:+ EmptyString) with EmptyString.
    by rewrite !append_nil_r. }
  rewrite Htext. by apply Hmatch.
Qed.

Lemma replace_first_digits (ds s replacement : string) :
  all is_digit ds = true ->
  replace_first "," replacement (ds +:+ s) = ds +:+ replace_first "," replacement s.
Proof.
  intros Hds. induction ds as [|d ds IH]; [done|].
  cbn [all] in Hds. apply andb_prop in Hds as [Hd Hds].
  apply digit_only in Hd as (_ & _ & _ & _ & Hd & _).
  rewrite !append_cons. cbn [replace_first]. by rewrite Hd, IH.
Qed.

(** The decimal comma becomes a point; a point stays. *)
Lemma replace_first_mark (i f : string) (m : ascii) :
  all is_digit i = true -> all is_digit f = true -> decimal_mark m = true ->
  replace_first "," "." (i +:+ String m f) = i +:+ String "." f.
Proof.
  intros Hi Hf Hm. rewrite replace_first_digits by done. f_equal.
  apply orb_prop in Hm as [->%Ascii.eqb_eq| ->%Ascii.eqb_eq].
  - cbn [replace_first Ascii.eqb Bool.eqb]. f_equal.
    rewrite <- (append_nil_r f) at 1. rewrite replace_first_digits by done.
    apply append_nil_r.
  - reflexivity.
Qed.

Lemma span_stops (p : ascii -> bool) (a b : string) :
  all p a = true -> stops p b -> span p (a +:+ b) = (a, b).
Proof.
  intros Ha Hb. induction a as [|c a IH].
  - change (EmptyString +:+ b) with b. destruct b as [|c b]; [done|].
    cbn [stops] in Hb. cbn [span]. by rewrite Hb.
  - cbn [all] in Ha. apply andb_prop in Ha as [Hc Ha].
    rewrite append_cons. cbn [span]. by rewrite Hc, IH.
Qed.

Lemma parseFloat_unsigned (d : ascii) (x : string) :
  is_digit d = true ->
  parseFloat (String d x)
  = let '(int_digits, rest) := span is_digit (String d x) in
    let '(frac_digits, rest) :=
      match rest with
      | String "." r => span is_digit r
      | _ => (EmptyString, rest)
      end in
    match int_digits, frac_digits with
    | EmptyString, EmptyString => NaN
    | _, _ =>
        Number_of_decimal false
          (digits_value 10 0 (int_digits +:+ frac_digits))
          (exponent_prefix rest - Z.of_nat (String.length frac_digits))
    end.
Proof.
  intros Hd%is_digit_cases. cbn in Hd.
  repeat destruct Hd as [<-|Hd]; try done; reflexivity.
Qed.

(** [parseFloat] on digits, a point and digits. *)
Lemma parseFloat_decimal (i f : string) :
  digits_text i -> digits_text f ->
  parseFloat (i +:+ String "." f) = decimal i f.
Proof.
  intros [Hne Hi] [_ Hf]. destruct i as [|d i]; [done|].
  pose proof Hi as Hall. cbn [all] in Hi. apply andb_prop in Hi as [Hd Hi].
  rewrite append_cons, parseFloat_unsigned by done.
  rewrite <- append_cons, (span_stops is_digit (String d i) (String "." f))
    by done.
  cbv beta iota.
  rewrite <- (append_nil_r f) at 1. rewrite (span_stops is_digit f EmptyString)
    by done.
  cbv beta iota. unfold decimal. f_equal.
Qed.

Lemma trim_between_digits (ds x es : string) :
  digits_text ds -> digits_text es -> trim (ds +:+ (x +:+ es)) = ds +:+ (x +:+ es).
Proof.
  intros [Hne Hds] [Hne' Hes]. unfold trim.
  assert (HtrimStart : trimStart (ds +:+ (x +:+ es)) = ds +:+ (x +:+ es)).
  { destruct ds as [|d ds]; [done|]. cbn [all] in Hds.
    apply andb_prop in Hds as [Hd _]. apply digit_only in Hd as (Hd & _).
    rewrite append_cons. cbn [trimStart]. by rewrite Hd. }
  rewrite HtrimStart, <- !append_assoc.
  apply UldkFacts.trimEnd_app_fixed; [|done].
  apply PairFacts.trimEnd_no_space. eapply all_impl; [|exact Hes].
  intros c Hc. apply digit_only in Hc as (Hc & _). by rewrite Hc.
Qed.

Lemma detectType_exec (text : string) captures :
  text <> EmptyString -> trim text = text ->
  exec COORDINATES_PATTERN 2 text = Some captures ->
  detectType (JsString text) = COORDINATES.
Proof.
  intros Hne Htrim Hexec. destruct text as [|c text]; [done|].
  unfold detectType, test. by rewrite Htrim, Hexec.
Qed.

Lemma number_pair_text (i1 f1 i2 f2 ws : string) (m1 m2 c : ascii) :
  (i1 +:+ String m1 f1) +:+ String c (ws +:+ (i2 +:+ String m2 f2))
  = i1 +:+ ((String m1 f1 +:+ String c (ws +:+ (i2 +:+ String m2 EmptyString)))
            +:+ f2).
Proof.
  repeat first [rewrite append_assoc | rewrite append_cons].
  change (EmptyString +:+ f2) with f2. reflexivity.
Qed.

(** X25.  Two unsigned decimal numbers, with a point or a comma as
    decimal mark and a comma or semicolon between them, of which exactly
    the first lies between 49 and 55, Poland's latitudes, are read as
    latitude and longitude in that order; written in the other order
    they are read as the same coordinate.  Both texts are classified as
    coordinates. *)
Theorem parseCoordinates_either_order
    (i1 f1 i2 f2 ws : string) (m1 m2 c : ascii) :
  digits_text i1 -> digits_text f1 -> digits_text i2 -> digits_text f2 ->
  decimal_mark m1 = true -> decimal_mark m2 = true ->
  Ascii.eqb c "," || Ascii.eqb c ";" = true -> all is_space ws = true ->
  is_polish_latitude (decimal i1 f1) = true ->
  is_polish_latitude (decimal i2 f2) = false ->
  let first := i1 +:+ String m1 f1 in
  let second := i2 +:+ String m2 f2 in
  let coordinate := {| lat := decimal i1 f1; lng := decimal i2 f2 |} in
  parseCoordinates (first +:+ String c (ws +:+ second)) = Some coordinate
  /\ parseCoordinates (second +:+ String c (ws +:+ first)) = Some coordinate
  /\ detectType (JsString (first +:+ String c (ws +:+ second))) = COORDINATES
  /\ detectType (JsString (second +:+ String c (ws +:+ first))) = COORDINATES.
Proof.
  intros Hi1 Hf1 Hi2 Hf2 Hm1 Hm2 Hc Hws Hlat Hlng. cbv zeta.
  pose proof (exec_COORDINATES_PATTERN i1 f1 i2 f2 ws m1 m2 c
                Hi1 Hf1 Hi2 Hf2 Hm1 Hm2 Hc Hws) as H12.
  pose proof (exec_COORDINATES_PATTERN i2 f2 i1 f1 ws m2 m1 c
                Hi2 Hf2 Hi1 Hf1 Hm2 Hm1 Hc Hws) as H21.
  assert (Hfloat : forall i f m,
             digits_text i -> digits_text f -> decimal_mark m = true ->
             parseFloat (replace_first "," "." (i +:+ String m f)) = decimal i f).
  { intros i f m Hi Hf Hm.
    rewrite replace_first_mark by (done || apply Hi || apply Hf).
    by apply parseFloat_decimal. }
  assert (Hdetect : forall i f i' f' m m',
             digits_text i -> digits_text f' ->
             exec COORDINATES_PATTERN 2
               ((i +:+ String m f) +:+ String c (ws +:+ (i' +:+ String m' f')))
             = Some [Some (i +:+ String m f); Some (i' +:+ String m' f')] ->
             detectType
               (JsString ((i +:+ String m f)
                          +:+ String c (ws +:+ (i' +:+ String m' f'))))
             = COORDINATES).
  { intros i f i' f' m m' Hi Hf' Hexec. eapply detectType_exec; [| |exact Hexec].
    - destruct Hi as [Hne _]. by destruct i.
    - rewrite number_pair_text. by apply trim_between_digits. }
  split; [|split; [|split]].
  - unfold parseCoordinates. rewrite H12.
    cbn [lookup list_lookup]. rewrite !Hfloat by done.
    by rewrite Hlat, Hlng.
  - unfold parseCoordinates. rewrite H21.
    cbn [lookup list_lookup]. rewrite !Hfloat by done.
    by rewrite Hlat, Hlng.
  - by apply Hdetect.
  - by apply Hdetect.
Qed.

Lemma parseCoordinates_either_order_witness :
  parseCoordinates "52.2297, 21.0122"
  = Some {| lat := decimal "52" "2297"; lng := decimal "21" "0122" |}
  /\ parseCoordinates "21,0122, 52,2297"
     = Some {| lat := decimal "52" "2297"; lng := decimal "21" "0122" |}.
Proof.
  destruct (parseCoordinates_either_order "52" "2297" "21" "0122" " " "." "." ",")
    as (H1 & _); try (split; [discriminate|reflexivity]); try reflexivity.
  destruct (parseCoordinates_either_order "52" "2297" "21" "0122" " " "," "," ",")
    as (_ & H2 & _); try (split; [discriminate|reflexivity]); try reflexivity.
  split; [exact H1|exact H2].
Defined.

Lemma append_nil_l (s : string) : EmptyString +:+ s = s.
Proof. reflexivity. Qed.

Lemma run_class_cons {R} (p : ascii -> bool) (r : regex) (c : ascii) (s : string)
    captures (k : string -> list (option string) -> option R) :
  p c = true -> run (Seq (Class p) r) (String c s) captures k = run r s captures k.
Proof. intros Hc. cbn [run]. by rewrite Hc. Qed.

(** The greedy iteration fails when the rest of the pattern fails
    wherever the iteration may stop. *)
Lemma star_none {R} (p : ascii -> bool) (bad : string -> Prop)
    (k : string -> option R) (s : string) :
  (forall t, bad t -> k t = None) ->
  (forall c t, p c = true -> bad (String c t) -> bad t) ->
  bad s -> star p s k = None.
Proof.
  intros Hk Htail. induction s as [|c s IH]; intros Hs; cbn [star]; [by apply Hk|].
  destruct (p c) eqn:Hc; [|by apply Hk].
  rewrite IH by (by eapply Htail). by apply Hk.
Qed.

Lemma no_mark_ahead_tail (c : ascii) (t : string) :
  is_digit c = true -> no_mark_ahead (String c t) -> no_mark_ahead t.
Proof.
  intros Hc (ds & rest & Heq & Hds & Hrest). destruct ds as [|d ds].
  - change (EmptyString +:+ rest) with rest in Heq. subst rest.
    cbn [stops] in Hrest. by rewrite Hc in Hrest.
  - rewrite append_cons in Heq. injection Heq as _ ->.
    cbn [all] in Hds. apply andb_prop in Hds as [_ Hds]. by exists ds, rest.
Qed.

Lemma no_mark_ahead_head (t : string) :
  no_mark_ahead t -> stops decimal_mark t.
Proof.
  intros (ds & rest & -> & Hds & Hrest). destruct ds as [|d ds].
  - change (EmptyString +:+ rest) with rest. destruct rest as [|c rest]; [done|].
    cbn [stops] in *. by apply orb_false_elim in Hrest as [_ ?].
  - rewrite append_cons. cbn [all stops] in *.
    apply andb_prop in Hds as [Hd _]. by apply digit_only in Hd as (_ & ? & _).
Qed.

(** The pattern of coordinates does not match a text that starts with
    digits followed by neither a point nor a comma. *)
Lemma exec_COORDINATES_PATTERN_none (d : ascii) (t : string) :
  is_digit d = true -> no_mark_ahead t ->
  exec COORDINATES_PATTERN 2 (String d t) = None.
Proof.
  intros Hd Ht. pose proof (digit_only d Hd) as (Hspace & _ & _ & Hminus & _).
  unfold exec, COORDINATES_PATTERN, decimal_number, digits.
  cbn [run star char]. rewrite Hspace, Hminus, Hd.
  apply (star_none is_digit no_mark_ahead); [|apply no_mark_ahead_tail|exact Ht].
  intros u Hu%no_mark_ahead_head. destruct u as [|c u]; [done|].
  cbn [stops] in Hu. by rewrite Hu.
Qed.

Lemma no_space_digits (ds : string) :
  all is_digit ds = true -> all no_space ds = true.
Proof.
  apply all_impl. intros c Hc. unfold no_space.
  apply digit_only in Hc as (Hc & _). by rewrite Hc.
Qed.

(** The end of the parcel-id pattern on the parcel number and what
    follows it. *)
Lemma matches_parcel_number (number suffix : string) :
  digits_text number ->
  (suffix = EmptyString
   \/ exists subnumber, digits_text subnumber /\ suffix = String "/" subnumber) ->
  exists f,
    matches
      (Seq digits
         (Seq (Optional (Group 0 (Seq (Class (Ascii.eqb "/")) digits))) End))
      (number +:+ suffix) EmptyString f.
Proof.
  intros Hnumber [->|(sub & Hsub & ->)].
  - exists (fun captures => captures).
    apply (matches_then digits _ number (EmptyString +:+ EmptyString) EmptyString).
    { by apply matches_digits. }
    apply (matches_then _ End EmptyString EmptyString EmptyString);
      [|apply matches_end].
    apply matches_skip. reflexivity.
  - exists (fun captures => <[0%nat := Some (String "/" sub)]> captures).
    apply (matches_eq _ (number +:+ (String "/" sub +:+ EmptyString)) _ _
             (fun captures => <[0%nat := Some (String "/" sub)]> captures));
      [|by rewrite append_nil_r|done].
    apply (matches_then digits _ number (String "/" sub +:+ EmptyString)
             EmptyString).
    { by apply matches_digits. }
    apply (matches_seq _ End (String "/" sub) EmptyString EmptyString
             (fun captures => <[0%nat := Some (String "/" sub)]> captures)
             (fun captures => captures)); [|apply matches_end].
    apply matches_take.
    apply (matches_group 0 _ (String "/" sub) (EmptyString +:+ EmptyString)
             (fun captures => captures)).
    apply (matches_then (Class (Ascii.eqb "/")) digits (String "/" EmptyString)
             sub (EmptyString +:+ EmptyString)).
    + by apply matches_class.
    + by apply matches_digits.
Qed.

(** X26.  A text of six digits, an underscore, a digit, a point, four
    digits, a point and one digit or more, with or without a slash and
    further digits after it, is classified as a parcel id, never as
    coordinates or as an address. *)
Theorem detectType_parcel_id
    (commune : string) (kind : ascii) (precinct number suffix : string) :
  all is_digit commune = true -> String.length commune = 6%nat ->
  is_digit kind = true ->
  all is_digit precinct = true -> String.length precinct = 4%nat ->
  digits_text number ->
  (suffix = EmptyString
   \/ exists subnumber, digits_text subnumber /\ suffix = String "/" subnumber) ->
  detectType
    (JsString (commune +:+ String "_" (String kind (String "."
                 (precinct +:+ String "." (number +:+ suffix))))))
  = PARCEL_ID.
Proof.
  intros Hcommune Hlen6 Hkind Hprecinct Hlen4 Hnumber Hsuffix.
  destruct commune as [|a1 [|a2 [|a3 [|a4 [|a5 [|a6 [|a7 commune]]]]]]];
    try discriminate Hlen6.
  destruct precinct as [|b1 [|b2 [|b3 [|b4 [|b5 precinct]]]]];
    try discriminate Hlen4.
  cbn [all] in Hcommune, Hprecinct.
  repeat match goal with
         | H : _ && _ = true |- _ => apply andb_prop in H as [? H]
         end.
  rewrite !append_cons, !append_nil_l.
  set (tail_text := number +:+ suffix).
  assert (Hstops : stops is_digit suffix).
  { destruct Hsuffix as [->|(sub & _ & ->)]; done. }
  assert (Hsuffix_space : all no_space suffix = true).
  { destruct Hsuffix as [->|(sub & [_ Hsub] & ->)]; [done|].
    cbn [all]. by rewrite no_space_digits. }
  assert (Htrim : forall text, all no_space text = true -> trim text = text).
  { intros text Htext. by apply PairFacts.trim_no_space. }
  unfold detectType.
  rewrite Htrim.
  2:{ cbn [all]. unfold tail_text. rewrite EscapeFacts.all_app.
      rewrite (no_space_digits number) by apply Hnumber.
      rewrite Hsuffix_space. unfold no_space.
      change (is_space "_") with false. change (is_space ".") with false.
      repeat match goal with
             | H : is_digit ?c = true |- context [is_space ?c] =>
                 rewrite (proj1 (digit_only c H))
             end.
      reflexivity. }
  unfold test.
  rewrite exec_COORDINATES_PATTERN_none; [|done|].
  2:{ exists (String a2 (String a3 (String a4 (String a5 (String a6 EmptyString))))),
        (String "_" (String kind (String "." (String b1 (String b2 (String b3
           (String b4 (String "." tail_text)))))))).
      split; [reflexivity|]. split; [|reflexivity].
      cbn [all]. by repeat match goal with H : is_digit _ = true |- _ =>
                             rewrite H; clear H end. }
  unfold exec, PARCEL_ID_PATTERN, char. cbv zeta.
  rewrite !run_class_cons by done.
  unfold tail_text.
  destruct (matches_parcel_number number suffix Hnumber Hsuffix) as [f Hmatch].
  rewrite <- (append_nil_r (number +:+ suffix)).
  by erewrite Hmatch.
Qed.

Lemma detectType_parcel_id_witness :
  detectType (JsString "141201_1.0001.6509/2") = PARCEL_ID.
Proof.
  apply (detectType_parcel_id "141201" "1" "0001" "6509" "/2");
    try reflexivity; try (split; [discriminate|reflexivity]).
  right. exists "2"%string. split; [split; [discriminate|reflexivity]|reflexivity].
Defined.

End SearchFacts.
